(** * AI-Code-Completion: the completion pipeline and the context analyzer

    A shallow embedding of
      - the numbers of JavaScript               (module [Number]),
      - [src/utils/tokenCounter.ts]             (module [TokenCounter]),
      - [src/utils/contextAnalyzer.ts]          (modules [JsString], [RegExp], [Analyzer]),
      - [src/completion/completionProvider.ts]  (module [Provider]),
      - the [delay] setting of the configuration manager (module [ConfigManager]),
    then the inputs and the vocabulary of the properties (modules
    [Scenario], [Session], [Props], [Text] and [Invariants]), then the
    properties of the specification, checked against the embedding, and
    further properties of the same code.

    Strings are sequences of code units and a code unit is an [ascii]
    (0..255).  The numbers that count tokens and requests are IEEE 754
    doubles, as in JavaScript (module [Number]); line numbers, lengths
    and timestamps are integers.  An exception is [None].
    The asynchronous code of the provider is a transition system: the
    provider and its host make up a [World], and each turn of the event
    loop (a request of the editor, a timer that fires, a backend call
    that completes, ...) is one [step]. *)

From Stdlib Require Import ZArith Lia Bool Ascii Sorted.
From Stdlib Require Import Floats.SpecFloat.
From stdpp Require Import gmap strings list fin_maps pretty.

(* ===================================================================== *)
(** ** JavaScript numbers *)
(* ===================================================================== *)

(** A [number] is a double: binary64 of IEEE 754, with the arithmetic of
    the specification of floating-point numbers of the standard library
    (53 bits of mantissa, round to nearest, ties to even). *)
Module Number.

Definition number : Type := spec_float.

Definition prec : Z := 53.
Definition emax : Z := 1024.

(** [x + y] *)
Definition add (x y : number) : number := SFadd prec emax x y.

(** The number that an integer literal denotes: the nearest double. *)
Definition ofZ (z : Z) : number := binary_normalize prec emax z 0 false.

Definition zero : number := S754_zero false.
Definition one : number := Eval vm_compute in ofZ 1.

(** A number in a condition: 0, -0 and NaN are false. *)
Definition truthy (x : number) : bool :=
  match x with
  | S754_zero _ | S754_nan => false
  | _ => true
  end.

(** [x === y] on numbers. *)
Definition strictEq (x y : number) : bool := SFeqb x y.

End Number.

(* ===================================================================== *)
(** ** tokenCounter.ts *)
(* ===================================================================== *)

Module TokenCounter.

Record TokenStats := mkStats {
  inputTokens : Number.number;
  outputTokens : Number.number;
  totalTokens : Number.number;
  requestCount : Number.number;
  lastReset : Z            (* a Date, as milliseconds *)
}.

(** The counter object: [stats] and the copy that [saveStats] keeps in
    [context.globalState] under ['aiCompletion.tokenStats']. *)
Record t := mk {
  stats : TokenStats;
  globalState : option TokenStats
}.

Definition saveStats (c : t) : t :=
  {| stats := stats c; globalState := Some (stats c) |}.

Definition addTokens (inTok outTok : Number.number) (c : t) : t :=
  let s := stats c in
  saveStats
    {| stats := {| inputTokens := Number.add (inputTokens s) inTok;
                   outputTokens := Number.add (outputTokens s) outTok;
                   totalTokens := Number.add (totalTokens s) (Number.add inTok outTok);
                   requestCount := Number.add (requestCount s) Number.one;
                   lastReset := lastReset s |};
       globalState := globalState c |}.

Definition resetStats (now : Z) (c : t) : t :=
  saveStats
    {| stats := {| inputTokens := Number.zero; outputTokens := Number.zero;
                   totalTokens := Number.zero; requestCount := Number.zero;
                   lastReset := now |};
       globalState := globalState c |}.

Definition getStats (c : t) : TokenStats := stats c.

(** [loadStats] in the constructor: the stored statistics if any, else
    a reset. *)
Definition loadStats (now : Z) (stored : option TokenStats) : t :=
  match stored with
  | Some s => {| stats := s; globalState := stored |}
  | None =>
      resetStats now
        {| stats := mkStats Number.zero Number.zero Number.zero Number.zero now;
           globalState := None |}
  end.

(** The public mutators, as a script. *)
Inductive op :=
| AddTokens (inTok outTok : Number.number)
| ResetStats (now : Z).

Definition apply (c : t) (o : op) : t :=
  match o with
  | AddTokens i o => addTokens i o c
  | ResetStats now => resetStats now c
  end.

Definition run (ops : list op) (c : t) : t := fold_left apply ops c.

(** [totalTokens === inputTokens + outputTokens] *)
Definition consistent (s : TokenStats) : bool :=
  Number.strictEq (totalTokens s) (Number.add (inputTokens s) (outputTokens s)).

(** [Math.ceil(a / b)] for an integer [a] and a positive integer [b]. *)
Definition ceilDiv (a b : Z) : Z := (- (- a / b))%Z.

(** [estimateTokens]: none for the empty text, else its length over
    four, rounded up. *)
Definition estimateTokens (text : string) : Z :=
  match text with
  | EmptyString => 0
  | _ => ceilDiv (Z.of_nat (String.length text)) 4
  end.

End TokenCounter.


(* ===================================================================== *)
(** ** JavaScript strings *)
(* ===================================================================== *)

Module JsString.

Definition code (c : ascii) : N := N_of_ascii c.

(** [\s] and the characters removed by [trim]: TAB, LF, VT, FF, CR,
    SPACE and NBSP (the white space and line terminators below 256). *)
Definition isSpace (c : ascii) : bool :=
  let n := code c in
  ((9 <=? n) && (n <=? 13) || (n =? 32) || (n =? 160))%N.

(** [\w] is [A-Za-z0-9_]. *)
Definition isWord (c : ascii) : bool :=
  let n := code c in
  ((48 <=? n) && (n <=? 57) || (65 <=? n) && (n <=? 90)
   || (97 <=? n) && (n <=? 122) || (n =? 95))%N.

(** [.] excludes the line terminators LF and CR. *)
Definition isLineTerminator (c : ascii) : bool :=
  let n := code c in ((n =? 10) || (n =? 13))%N.

Fixpoint trimStart (s : string) : string :=
  match s with
  | EmptyString => EmptyString
  | String c s' => if isSpace c then trimStart s' else s
  end.

Fixpoint trimEnd (s : string) : string :=
  match s with
  | EmptyString => EmptyString
  | String c s' =>
      match trimEnd s' with
      | EmptyString => if isSpace c then EmptyString else String c EmptyString
      | t => String c t
      end
  end.

Definition trim (s : string) : string := trimEnd (trimStart s).

(** [s.substring(0, n)] for a non-negative integer [n]. *)
Fixpoint substring0 (n : nat) (s : string) : string :=
  match n, s with
  | S n', String c s' => String c (substring0 n' s')
  | _, _ => EmptyString
  end.

(** [s.split(sep)] for a one-character separator. *)
Fixpoint split (sep : ascii) (s : string) : list string :=
  match s with
  | EmptyString => [EmptyString]
  | String c s' =>
      if Ascii.eqb c sep then EmptyString :: split sep s'
      else match split sep s' with
           | [] => [String c EmptyString]
           | p :: ps => String c p :: ps
           end
  end.

Fixpoint includes (c : ascii) (s : string) : bool :=
  match s with
  | EmptyString => false
  | String c' s' => Ascii.eqb c c' || includes c s'
  end.

Fixpoint join (sep : string) (l : list string) : string :=
  match l with
  | [] => EmptyString
  | [x] => x
  | x :: l' => x +:+ sep +:+ join sep l'
  end.

(** A string is truthy when it is not empty. *)
Definition truthy (s : string) : bool :=
  match s with EmptyString => false | _ => true end.

(** The leading white space of a line, the match of [^\s*] at its start. *)
Fixpoint leadingSpace (s : string) : string :=
  match s with
  | EmptyString => EmptyString
  | String c s' => if isSpace c then String c (leadingSpace s') else EmptyString
  end.

End JsString.

(* ===================================================================== *)
(** ** Regular expressions: the backtracking matcher of ECMAScript *)
(* ===================================================================== *)

Module RegExp.
Import JsString.

Inductive cls :=
| CSpace                       (* \s *)
| CWord                        (* \w *)
| CDot                         (* .  *)
| COneOf (l : list ascii)      (* [abc]  *)
| CNoneOf (l : list ascii).    (* [^abc] *)

Definition inb (c : ascii) (l : list ascii) : bool :=
  existsb (Ascii.eqb c) l.

Definition cls_mem (k : cls) (c : ascii) : bool :=
  match k with
  | CSpace => isSpace c
  | CWord => isWord c
  | CDot => negb (isLineTerminator c)
  | COneOf l => inb c l
  | CNoneOf l => negb (inb c l)
  end.

Inductive regex :=
| Eps
| Chr (c : ascii)
| Cls (k : cls)
| Bol                          (* ^  (no multiline flag) *)
| WordB                        (* \b *)
| Seq (r1 r2 : regex)
| Alt (r1 r2 : regex)
| Star (r : regex)             (* greedy r* *)
| Grp (n : nat) (r : regex).   (* capturing group number n *)

(** The match array of [exec]: index 0 is the whole match, index [n] the
    text of group [n]; [None] is [undefined]. *)
Definition captures := list (option string).

(** The matcher state: the character before the current position
    ([None] at the start of the input), the rest of the input and the
    captures so far. *)
Definition cont := option ascii -> string -> captures -> option captures.

Definition isWordAt (c : option ascii) : bool :=
  match c with Some c => isWord c | None => false end.

Definition peek (s : string) : option ascii :=
  match s with String c _ => Some c | EmptyString => None end.

(** The text between two positions: the prefix of [s] that was consumed
    to reach its suffix [s']. *)
Definition consumed (s s' : string) : string :=
  substring0 (String.length s - String.length s') s.

(** RepeatMatcher with min = 0 and no upper bound: try one more
    iteration first (greedy); an iteration that consumes nothing is
    rejected; otherwise continue after the repetition.  At most
    [length s] iterations can make progress, which bounds the loop. *)
Fixpoint star_loop (body : option ascii -> string -> captures -> cont -> option captures)
    (k : cont) (fuel : nat) (prev : option ascii) (s : string) (caps : captures)
    : option captures :=
  match fuel with
  | O => k prev s caps
  | S fuel' =>
      match body prev s caps
              (fun prev' s' caps' =>
                 if (String.length s' <? String.length s)%nat
                 then star_loop body k fuel' prev' s' caps'
                 else None) with
      | Some m => Some m
      | None => k prev s caps
      end
  end.

Fixpoint rmatch (r : regex) (prev : option ascii) (s : string) (caps : captures)
    (k : cont) {struct r} : option captures :=
  match r with
  | Eps => k prev s caps
  | Chr c =>
      match s with
      | String c' s' => if Ascii.eqb c c' then k (Some c') s' caps else None
      | EmptyString => None
      end
  | Cls cl =>
      match s with
      | String c' s' => if cls_mem cl c' then k (Some c') s' caps else None
      | EmptyString => None
      end
  | Bol => match prev with None => k prev s caps | Some _ => None end
  | WordB =>
      if xorb (isWordAt prev) (isWordAt (peek s)) then k prev s caps else None
  | Seq r1 r2 =>
      rmatch r1 prev s caps (fun prev' s' caps' => rmatch r2 prev' s' caps' k)
  | Alt r1 r2 =>
      match rmatch r1 prev s caps k with
      | Some m => Some m
      | None => rmatch r2 prev s caps k
      end
  | Star r1 => star_loop (rmatch r1) k (String.length s) prev s caps
  | Grp n r1 =>
      rmatch r1 prev s caps
        (fun prev' s' caps' => k prev' s' (<[n := Some (consumed s s')]> caps'))
  end.

(** Derived forms. *)
Definition Plus (r : regex) : regex := Seq r (Star r).
Definition Opt (r : regex) : regex := Alt r Eps.

Fixpoint Lit (s : string) : regex :=
  match s with
  | EmptyString => Eps
  | String c EmptyString => Chr c
  | String c s' => Seq (Chr c) (Lit s')
  end.

Fixpoint Seqs (l : list regex) : regex :=
  match l with
  | [] => Eps
  | [r] => r
  | r :: l' => Seq r (Seqs l')
  end.

Fixpoint Alts (l : list regex) : regex :=
  match l with
  | [] => Eps
  | [r] => r
  | r :: l' => Alt r (Alts l')
  end.

(** A compiled pattern: the expression and its number of groups. *)
Record pattern := mkPattern { rx : regex; ngroups : nat }.

(** One attempt at the current position. *)
Definition matchHere (p : pattern) (prev : option ascii) (s : string)
    : option captures :=
  rmatch (rx p) prev s (replicate (S (ngroups p)) None)
    (fun _ s' caps => Some (<[0%nat := Some (consumed s s')]> caps)).

(** [p.exec(s)] for a pattern without the [g] or [y] flag: the first
    position, from the left, at which the pattern matches. *)
Fixpoint search (p : pattern) (prev : option ascii) (s : string)
    : option captures :=
  match matchHere p prev s with
  | Some m => Some m
  | None =>
      match s with
      | EmptyString => None
      | String c s' => search p (Some c) s'
      end
  end.

Definition exec (p : pattern) (s : string) : option captures := search p None s.

Definition test (p : pattern) (s : string) : bool :=
  match exec p s with Some _ => true | None => false end.

(** [m[n]]: [undefined] when the group did not take part. *)
Definition group (m : captures) (n : nat) : option string :=
  match m !! n with Some (Some x) => Some x | _ => None end.

End RegExp.


(* ===================================================================== *)
(** ** contextAnalyzer.ts *)
(* ===================================================================== *)

Module Analyzer.
Import JsString RegExp.

(** *** The editor's document and position (vscode.TextDocument,
    vscode.Position).  [lineAt] raises outside the document; a raised
    exception is [None]. *)

Record Position := mkPosition { line : nat; character : nat }.

Record TextDocument := mkDocument {
  fsPath : string;            (* document.uri.fsPath *)
  languageId : string;
  lines : list string
}.

Definition lineCount (d : TextDocument) : nat := length (lines d).

Definition lineAt (d : TextDocument) (i : nat) : option string := lines d !! i.

(** *** The data model *)

Record FunctionScope := mkFunctionScope {
  name : string;
  parameters : list string;
  returnType : option string;
  startLine : nat;
  isAsync : bool
}.

(** [name], [startLine] of the class and [name], [type], [value],
    [line] of the variable carry a prefix here. *)
Record ClassScope := mkClassScope {
  className : option string;
  extends : option string;
  classStartLine : nat;
  methods : list string;
  properties : list (option string)
}.

Inductive VariableScope := local | parameter | global.

Record VariableInfo := mkVariableInfo {
  varName : option string;
  varType : option string;
  varValue : option string;
  varLine : nat;
  scope : VariableScope
}.

Inductive CodeType :=
| function_declaration
| function_call
| class_declaration
| variable_declaration
| import_statement
| comment
| string_literal
| conditional_statement
| loop_statement
| return_statement
| try_catch
| interface_declaration
| type_declaration
| general.

Record CodeContext := mkCodeContext {
  language : string;
  currentLine : string;
  previousLines : list string;
  nextLines : list string;
  functionScope : option FunctionScope;
  classScope : option ClassScope;
  importStatements : list string;
  variables : list VariableInfo;
  codeType : CodeType;
  indentation : string
}.

Record LanguageConfig := mkLanguageConfig {
  functionPattern : pattern;
  classPattern : pattern;
  importPattern : pattern;
  variablePattern : pattern;
  commentPattern : pattern;
  stringPattern : pattern;
  conditionalPattern : pattern;
  loopPattern : pattern;
  returnPattern : pattern;
  tryCatchPattern : pattern;
  propertyPattern : option pattern;
  asyncPattern : option pattern
}.

(** *** initializeLanguageConfigs: the registry *)

Definition ws : regex := Cls CSpace.
Definition wd : regex := Cls CWord.
Definition dquote : ascii := ascii_of_nat 34.
Definition squote : ascii := ascii_of_nat 39.
Definition quote : regex := Cls (COneOf [squote; dquote]).
Definition notQuote : regex := Cls (CNoneOf [squote; dquote]).
Definition notChr (c : ascii) : regex := Cls (CNoneOf [c]).
Definition asyncPrefix : regex := Opt (Seq (Lit "async") (Plus ws)).

(** ^(?:async\s+)?(?:function\s+(\w+)
                    |const\s+(\w+)\s*=\s*(?:async\s+)?\([^)]* \)\s*=>
                    |(?:const|let|var)\s+(\w+)\s*=\s*(?:async\s+)?function) *)
Definition js_functionPattern : pattern :=
  mkPattern
    (Seqs [Bol; asyncPrefix;
           Alts [Seqs [Lit "function"; Plus ws; Grp 1 (Plus wd)];
                 Seqs [Lit "const"; Plus ws; Grp 2 (Plus wd); Star ws; Chr "=";
                       Star ws; asyncPrefix; Chr "("; Star (notChr ")");
                       Chr ")"; Star ws; Lit "=>"];
                 Seqs [Alts [Lit "const"; Lit "let"; Lit "var"]; Plus ws;
                       Grp 3 (Plus wd); Star ws; Chr "="; Star ws; asyncPrefix;
                       Lit "function"]]])
    3.

(** ^class\s+(\w+)(?:\s+extends\s+(\w+))?(?:\s+implements\s+([^{]+))?\s*{ *)
Definition js_classPattern : pattern :=
  mkPattern
    (Seqs [Bol; Lit "class"; Plus ws; Grp 1 (Plus wd);
           Opt (Seqs [Plus ws; Lit "extends"; Plus ws; Grp 2 (Plus wd)]);
           Opt (Seqs [Plus ws; Lit "implements"; Plus ws; Grp 3 (Plus (notChr "{"))]);
           Star ws; Chr "{"])
    3.

(** ^(?:import\s+.*from\s+[quote][^quote]+[quote]
       |const\s+.*=\s*require\([quote][^quote]+[quote]\)) *)
Definition js_importPattern : pattern :=
  mkPattern
    (Seqs [Bol;
           Alts [Seqs [Lit "import"; Plus ws; Star (Cls CDot); Lit "from"; Plus ws;
                       quote; Plus notQuote; quote];
                 Seqs [Lit "const"; Plus ws; Star (Cls CDot); Chr "="; Star ws;
                       Lit "require("; quote; Plus notQuote; quote; Chr ")"]]])
    0.

(** ^(?:const|let|var)\s+(\w+)(?::\s*(\w+))?(?:\s*=\s*(.+))? *)
Definition js_variablePattern : pattern :=
  mkPattern
    (Seqs [Bol; Alts [Lit "const"; Lit "let"; Lit "var"]; Plus ws; Grp 1 (Plus wd);
           Opt (Seqs [Chr ":"; Star ws; Grp 2 (Plus wd)]);
           Opt (Seqs [Star ws; Chr "="; Star ws; Grp 3 (Plus (Cls CDot))])])
    3.

(** ^(?:if|else\s+if|switch)\s*\( *)
Definition c_conditionalPattern : pattern :=
  mkPattern
    (Seqs [Bol;
           Alts [Lit "if"; Seqs [Lit "else"; Plus ws; Lit "if"]; Lit "switch"];
           Star ws; Chr "("])
    0.

(** ^return\b *)
Definition returnPattern_ : pattern := mkPattern (Seqs [Bol; Lit "return"; WordB]) 0.

(** \basync\b *)
Definition asyncPattern_ : pattern := mkPattern (Seqs [WordB; Lit "async"; WordB]) 0.

Definition javascript : LanguageConfig := {|
  functionPattern := js_functionPattern;
  classPattern := js_classPattern;
  importPattern := js_importPattern;
  variablePattern := js_variablePattern;
  (* ^\/\/ *)
  commentPattern := mkPattern (Seqs [Bol; Lit "//"]) 0;
  (* ^[quote] *)
  stringPattern := mkPattern (Seqs [Bol; quote]) 0;
  conditionalPattern := c_conditionalPattern;
  (* ^(?:for|while|do)\s*\( *)
  loopPattern :=
    mkPattern (Seqs [Bol; Alts [Lit "for"; Lit "while"; Lit "do"]; Star ws; Chr "("]) 0;
  returnPattern := returnPattern_;
  (* ^(?:try|catch|finally)\b *)
  tryCatchPattern :=
    mkPattern (Seqs [Bol; Alts [Lit "try"; Lit "catch"; Lit "finally"]; WordB]) 0;
  (* ^(?:this\.|const\s+(\w+)\s*=) *)
  propertyPattern :=
    Some (mkPattern
            (Seqs [Bol;
                   Alts [Lit "this.";
                         Seqs [Lit "const"; Plus ws; Grp 1 (Plus wd); Star ws; Chr "="]]])
            1);
  asyncPattern := Some asyncPattern_
|}.

(** ^(?:async\s+)?def\s+(\w+)\s*\(([^)]* )\)(?:\s*->\s*(\w+))?: *)
Definition py_functionPattern : pattern :=
  mkPattern
    (Seqs [Bol; asyncPrefix; Lit "def"; Plus ws; Grp 1 (Plus wd); Star ws;
           Chr "("; Grp 2 (Star (notChr ")")); Chr ")";
           Opt (Seqs [Star ws; Lit "->"; Star ws; Grp 3 (Plus wd)]);
           Chr ":"])
    3.

(** ^class\s+(\w+)(?:\s*\(\s*([^)]+)\s*\))?: *)
Definition py_classPattern : pattern :=
  mkPattern
    (Seqs [Bol; Lit "class"; Plus ws; Grp 1 (Plus wd);
           Opt (Seqs [Star ws; Chr "("; Star ws; Grp 2 (Plus (notChr ")"));
                      Star ws; Chr ")"]);
           Chr ":"])
    2.

Definition python : LanguageConfig := {|
  functionPattern := py_functionPattern;
  classPattern := py_classPattern;
  (* ^(?:import\s+\w+|from\s+\w+\s+import) *)
  importPattern :=
    mkPattern
      (Seqs [Bol;
             Alts [Seqs [Lit "import"; Plus ws; Plus wd];
                   Seqs [Lit "from"; Plus ws; Plus wd; Plus ws; Lit "import"]]])
      0;
  (* ^(\w+)\s*=\s*(.+) *)
  variablePattern :=
    mkPattern
      (Seqs [Bol; Grp 1 (Plus wd); Star ws; Chr "="; Star ws; Grp 2 (Plus (Cls CDot))])
      2;
  (* ^# *)
  commentPattern := mkPattern (Seqs [Bol; Chr "#"]) 0;
  stringPattern := mkPattern (Seqs [Bol; quote]) 0;
  (* ^(?:if|elif|else)\s+ *)
  conditionalPattern :=
    mkPattern (Seqs [Bol; Alts [Lit "if"; Lit "elif"; Lit "else"]; Plus ws]) 0;
  (* ^(?:for|while)\s+ *)
  loopPattern := mkPattern (Seqs [Bol; Alts [Lit "for"; Lit "while"]; Plus ws]) 0;
  returnPattern := returnPattern_;
  (* ^(?:try|except|finally)\b *)
  tryCatchPattern :=
    mkPattern (Seqs [Bol; Alts [Lit "try"; Lit "except"; Lit "finally"]; WordB]) 0;
  propertyPattern := None;
  asyncPattern := Some asyncPattern_
|}.

(** ^(?:public|private|protected)?\s*(?:static)?\s*(?:\w+\s+)*(\w+)\s*
     \(([^)]* )\)\s*(?:throws\s+[^{]+)?\s*[{;] *)
Definition java_functionPattern : pattern :=
  mkPattern
    (Seqs [Bol; Opt (Alts [Lit "public"; Lit "private"; Lit "protected"]); Star ws;
           Opt (Lit "static"); Star ws; Star (Seq (Plus wd) (Plus ws));
           Grp 1 (Plus wd); Star ws; Chr "("; Grp 2 (Star (notChr ")")); Chr ")";
           Star ws; Opt (Seqs [Lit "throws"; Plus ws; Plus (notChr "{")]); Star ws;
           Cls (COneOf ["{"; ";"]%char)])
    2.

(** ^(?:public\s+)?class\s+(\w+)(?:\s+extends\s+(\w+))?
     (?:\s+implements\s+([^{]+))?\s*{ *)
Definition java_classPattern : pattern :=
  mkPattern
    (Seqs [Bol; Opt (Seq (Lit "public") (Plus ws)); Lit "class"; Plus ws;
           Grp 1 (Plus wd);
           Opt (Seqs [Plus ws; Lit "extends"; Plus ws; Grp 2 (Plus wd)]);
           Opt (Seqs [Plus ws; Lit "implements"; Plus ws; Grp 3 (Plus (notChr "{"))]);
           Star ws; Chr "{"])
    3.

(** ^(?:\/\/|\/\* ) *)
Definition c_commentPattern : pattern :=
  mkPattern (Seqs [Bol; Alts [Lit "//"; Lit "/*"]]) 0.

(** ^(?:for|while)\s*\( *)
Definition c_loopPattern : pattern :=
  mkPattern (Seqs [Bol; Alts [Lit "for"; Lit "while"]; Star ws; Chr "("]) 0.

Definition java : LanguageConfig := {|
  functionPattern := java_functionPattern;
  classPattern := java_classPattern;
  (* ^import\s+([^;]+); *)
  importPattern :=
    mkPattern (Seqs [Bol; Lit "import"; Plus ws; Grp 1 (Plus (notChr ";")); Chr ";"]) 1;
  (* ^(?:final\s+)?(?:\w+\s+)+(\w+)(?:\s*=\s*(.+))? *)
  variablePattern :=
    mkPattern
      (Seqs [Bol; Opt (Seq (Lit "final") (Plus ws)); Plus (Seq (Plus wd) (Plus ws));
             Grp 1 (Plus wd);
             Opt (Seqs [Star ws; Chr "="; Star ws; Grp 2 (Plus (Cls CDot))])])
      2;
  commentPattern := c_commentPattern;
  stringPattern := mkPattern (Seqs [Bol; Chr dquote]) 0;
  conditionalPattern := c_conditionalPattern;
  loopPattern := c_loopPattern;
  returnPattern := returnPattern_;
  tryCatchPattern :=
    mkPattern (Seqs [Bol; Alts [Lit "try"; Lit "catch"; Lit "finally"]; WordB]) 0;
  propertyPattern := None;
  asyncPattern := None
|}.

(** ^(?:\w+\s+)*(\w+)\s*\(([^)]* )\)(?:\s*const)?\s*(?:\{|;) *)
Definition cpp_functionPattern : pattern :=
  mkPattern
    (Seqs [Bol; Star (Seq (Plus wd) (Plus ws)); Grp 1 (Plus wd); Star ws; Chr "(";
           Grp 2 (Star (notChr ")")); Chr ")"; Opt (Seq (Star ws) (Lit "const"));
           Star ws; Alts [Chr "{"; Chr ";"]])
    2.

(** ^class\s+(\w+)(?:\s*:\s*(?:public|private|protected)\s+(\w+))?\s*{ *)
Definition cpp_classPattern : pattern :=
  mkPattern
    (Seqs [Bol; Lit "class"; Plus ws; Grp 1 (Plus wd);
           Opt (Seqs [Star ws; Chr ":"; Star ws;
                      Alts [Lit "public"; Lit "private"; Lit "protected"]; Plus ws;
                      Grp 2 (Plus wd)]);
           Star ws; Chr "{"])
    2.

Definition cpp : LanguageConfig := {|
  functionPattern := cpp_functionPattern;
  classPattern := cpp_classPattern;
  (* ^#include\s*[<quote][^>quote]+[>quote] *)
  importPattern :=
    mkPattern
      (Seqs [Bol; Lit "#include"; Star ws; Cls (COneOf ["<"%char; dquote]);
             Plus (Cls (CNoneOf [">"%char; dquote])); Cls (COneOf [">"%char; dquote])])
      0;
  (* ^(?:\w+\s+)+(\w+)(?:\s*=\s*(.+))? *)
  variablePattern :=
    mkPattern
      (Seqs [Bol; Plus (Seq (Plus wd) (Plus ws)); Grp 1 (Plus wd);
             Opt (Seqs [Star ws; Chr "="; Star ws; Grp 2 (Plus (Cls CDot))])])
      2;
  commentPattern := c_commentPattern;
  stringPattern := mkPattern (Seqs [Bol; Chr dquote]) 0;
  conditionalPattern := c_conditionalPattern;
  loopPattern := c_loopPattern;
  returnPattern := returnPattern_;
  (* ^(?:try|catch)\b *)
  tryCatchPattern := mkPattern (Seqs [Bol; Alts [Lit "try"; Lit "catch"]; WordB]) 0;
  propertyPattern := None;
  asyncPattern := None
|}.

(** [this.languageConfigs.get(language)] *)
Definition languageConfigs : gmap string LanguageConfig :=
  <["cpp" := cpp]> (<["java" := java]> (<["python" := python]>
    (<["javascript" := javascript]> ∅))).

(** *** The analyzer *)

(** [o || d] for a string or [undefined]. *)
Definition orElse (o : option string) (d : string) : string :=
  match o with
  | Some s => if truthy s then s else d
  | None => d
  end.

Definition extractParameters (paramStr : string) : list string :=
  let params := List.filter truthy (map trim (split "," paramStr)) in
  map (fun param => trim (hd "" (split ":" (hd "" (split "=" param))))) params.

(** The loop [for (line = from; line >= 0; line--)] that returns at the
    first line for which [f] answers. *)
Fixpoint scanUp {A} (f : nat -> string -> option A) (d : TextDocument) (from : nat)
    : option (option A) :=
  txt ← lineAt d from;
  match f from txt with
  | Some a => Some (Some a)
  | None =>
      match from with
      | O => Some None
      | S l => scanUp f d l
      end
  end.

(** The body of the loop of [analyzeFunctionScope]: the scope declared
    on line [l], if the function pattern matches it. *)
Definition functionAt (config : LanguageConfig) (l : nat) (lineText : string)
    : option FunctionScope :=
  let trimmedLine := trim lineText in
  functionMatch ← exec (functionPattern config) trimmedLine;
  Some {| name := orElse (group functionMatch 1) "anonymous";
          parameters := extractParameters (orElse (group functionMatch 2) "");
          returnType := group functionMatch 3;
          startLine := l;
          isAsync := match asyncPattern config with
                     | Some p => test p trimmedLine
                     | None => false
                     end |}.

Definition analyzeFunctionScope (d : TextDocument) (position : Position)
    : option (option FunctionScope) :=
  match languageConfigs !! languageId d with
  | None => Some None
  | Some config => scanUp (functionAt config) d (line position)
  end.

(** The lines of a loop body that pass [f], in order. *)
Definition collect {A} (f : string -> option A) (ls : list string) : list A :=
  omap f ls.

(** The loops [for (line = startLine + 1; line < endLine; line++)]. *)
Definition linesBetween (d : TextDocument) (startLine endLine : nat)
    : option (list string) :=
  mapM (lineAt d) (seq (S startLine) (endLine - S startLine)).

Definition extractMethods (d : TextDocument) (startLine endLine : nat)
    : option (list string) :=
  match languageConfigs !! languageId d with
  | None => Some []
  | Some config =>
      ls ← linesBetween d startLine endLine;
      Some (collect (fun lineText =>
                    methodMatch ← exec (functionPattern config) (trim lineText);
                    Some (orElse (group methodMatch 1) "anonymous")) ls)
  end.

Definition extractProperties (d : TextDocument) (startLine endLine : nat)
    : option (list (option string)) :=
  match languageConfigs !! languageId d with
  | None => Some []
  | Some config =>
      ls ← linesBetween d startLine endLine;
      Some (collect (fun lineText =>
                    p ← propertyPattern config;
                    propertyMatch ← exec p (trim lineText);
                    Some (group propertyMatch 1)) ls)
  end.

Definition analyzeClassScope (d : TextDocument) (position : Position)
    : option (option ClassScope) :=
  match languageConfigs !! languageId d with
  | None => Some None
  | Some config =>
      found ← scanUp (fun l lineText =>
                        classMatch ← exec (classPattern config) (trim lineText);
                        Some (l, classMatch)) d (line position);
      match found with
      | None => Some None
      | Some (l, classMatch) =>
          ms ← extractMethods d l (line position);
          ps ← extractProperties d l (line position);
          Some (Some {| className := group classMatch 1;
                        extends := group classMatch 2;
                        classStartLine := l;
                        methods := ms;
                        properties := ps |})
      end
  end.

Definition extractImportStatements (d : TextDocument) : list string :=
  match languageConfigs !! languageId d with
  | None => []
  | Some config =>
      collect (fun lineText =>
              if test (importPattern config) (trim lineText)
              then Some (trim lineText) else None) (lines d)
  end.

(** The loop of [extractVariables], from [from] down to line 0. *)
Fixpoint variablesUp (config : LanguageConfig) (d : TextDocument) (cursor from : nat)
    : option (list VariableInfo) :=
  lineText ← lineAt d from;
  let here :=
    match exec (variablePattern config) (trim lineText) with
    | Some variableMatch =>
        [ {| varName := group variableMatch 1;
             varType := group variableMatch 2;
             varValue := group variableMatch 3;
             varLine := from;
             scope := if Nat.eqb from cursor then local else global |} ]
    | None => []
    end in
  match from with
  | O => Some here
  | S l => rest ← variablesUp config d cursor l; Some (here ++ rest)
  end.

Definition extractVariables (d : TextDocument) (position : Position)
    : option (list VariableInfo) :=
  match languageConfigs !! languageId d with
  | None => Some []
  | Some config => variablesUp config d (line position) (line position)
  end.

Definition determineCodeType (lineText language : string) : CodeType :=
  let trimmedLine := trim lineText in
  match languageConfigs !! language with
  | None => general
  | Some config =>
      if test (functionPattern config) trimmedLine then function_declaration
      else if test (classPattern config) trimmedLine then class_declaration
      else if test (importPattern config) trimmedLine then import_statement
      else if test (variablePattern config) trimmedLine then variable_declaration
      else if test (commentPattern config) trimmedLine then comment
      else if test (stringPattern config) trimmedLine then string_literal
      else if test (conditionalPattern config) trimmedLine then conditional_statement
      else if test (loopPattern config) trimmedLine then loop_statement
      else if test (returnPattern config) trimmedLine then return_statement
      else if test (tryCatchPattern config) trimmedLine then try_catch
      else if includes "(" trimmedLine && includes ")" trimmedLine then function_call
      else general
  end.

Definition getIndentation (lineText : string) : string := leadingSpace lineText.

Definition getSurroundingLines (d : TextDocument) (position : Position)
    : option (list string * list string) :=
  let contextSize := 10%nat in
  let startLine := (line position - contextSize)%nat in
  (* Math.min(lineCount - 1, line + contextSize), lineCount - 1 being -1
     for an empty document *)
  let endExclusive := Nat.min (lineCount d) (S (line position + contextSize)) in
  prev ← mapM (lineAt d) (seq startLine (line position - startLine));
  next ← mapM (lineAt d) (seq (S (line position)) (endExclusive - S (line position)));
  Some (prev, next).

Definition analyzeContext (d : TextDocument) (position : Position)
    : option CodeContext :=
  let language := languageId d in
  currentLine ← lineAt d (line position);
  let currentLinePrefix := substring0 (character position) currentLine in
  surrounding ← getSurroundingLines d position;
  functionScope ← analyzeFunctionScope d position;
  classScope ← analyzeClassScope d position;
  let importStatements := extractImportStatements d in
  variables ← extractVariables d position;
  let codeType := determineCodeType currentLinePrefix language in
  let indentation := getIndentation currentLine in
  Some {| language := language;
          currentLine := currentLinePrefix;
          previousLines := surrounding.1;
          nextLines := surrounding.2;
          functionScope := functionScope;
          classScope := classScope;
          importStatements := importStatements;
          variables := variables;
          codeType := codeType;
          indentation := indentation |}.

(** The pattern of [getIndentation]: ^(\s* ) *)
Definition indentationPattern : pattern := mkPattern (Seqs [Bol; Grp 1 (Star ws)]) 1.

End Analyzer.


(* ===================================================================== *)
(** ** completionProvider.ts *)
(* ===================================================================== *)

Module Provider.
Import JsString RegExp Analyzer.

(** *** Data *)

Record CompletionCache := mkCompletionCache {
  text : string;
  timestamp : Z;
  context : string
}.

(** The fields [language] and [context] of the request and [text] of
    the response carry a prefix here: a module has one field of a name. *)
Record CompletionRequest := mkCompletionRequest {
  prompt : string;
  reqLanguage : string;
  reqContext : string
}.

Record CompletionResponse := mkCompletionResponse {
  respText : string;
  inputTokens : option Number.number;       (* a number or undefined *)
  outputTokens : option Number.number;
  success : bool;
  error : option string
}.

(** The settings under [aiCompletion] that the specification names. *)
Record Config := mkConfig {
  enabled : bool;
  delay : Z;
  cacheEnabled : bool
}.

Definition CACHE_DURATION : Z := 30000.
Definition DEBOUNCE_DELAY : Z := 500.

(** *** Building the request *)

Definition buildCacheKey (document : TextDocument) (position : Position)
    : option string :=
  lineText ← lineAt document (line position);
  Some (fsPath document +:+ ":" +:+ pretty (line position) +:+ ":"
        +:+ pretty (character position) +:+ ":"
        +:+ substring0 (character position) lineText).

Definition newline : string := String (ascii_of_nat 10) EmptyString.

Definition getContext (document : TextDocument) (position : Position)
    : option (list string * list string * string) :=
  let contextLines := 10%nat in
  let first := (line position - contextLines)%nat in
  beforeLines ← mapM (lineAt document) (seq first (line position - first));
  let last := Nat.min (lineCount document) (line position + contextLines + 1) in
  afterLines ← mapM (lineAt document)
                 (seq (S (line position)) (last - S (line position)));
  current ← lineAt document (line position);
  Some (beforeLines, afterLines, join newline (beforeLines ++ [current] ++ afterLines)).

(** The results of [analyzeLineType]; those that share their name with
    a [CodeType] end in an underscore. *)
Inductive LineType :=
| function_start | class_start | if_statement | loop_start
| variable_declaration_ | import_statement_ | comment_ | general_.

Definition word1 (l : list string) : regex := Grp 1 (Alts (map Lit l)).

Definition matches (r : regex) (n : nat) (s : string) : bool := test (mkPattern r n) s.

Definition analyzeLineType (lineText : string) : LineType :=
  let trimmedLine := trim lineText in
  (* ^(function|def|func|public|private|protected)\s+\w+\s*\([^)]* \)\s*(?:\{|\:|where) *)
  if matches (Seqs [Bol; word1 ["function"; "def"; "func"; "public"; "private"; "protected"];
                    Plus ws; Plus wd; Star ws; Chr "("; Star (notChr ")"); Chr ")";
                    Star ws; Alts [Chr "{"; Chr ":"; Lit "where"]]) 1 trimmedLine
  then function_start
  (* ^(class|struct|interface)\s+\w+ *)
  else if matches (Seqs [Bol; word1 ["class"; "struct"; "interface"]; Plus ws; Plus wd])
            1 trimmedLine
  then class_start
  (* ^(if|else if|elif|when)\s*\(.*\)\s*\{? *)
  else if matches (Seqs [Bol; word1 ["if"; "else if"; "elif"; "when"]; Star ws; Chr "(";
                         Star (Cls CDot); Chr ")"; Star ws; Opt (Chr "{")]) 1 trimmedLine
  then if_statement
  (* ^(for|while|do)\s*\(.*\)\s*\{? *)
  else if matches (Seqs [Bol; word1 ["for"; "while"; "do"]; Star ws; Chr "(";
                         Star (Cls CDot); Chr ")"; Star ws; Opt (Chr "{")]) 1 trimmedLine
  then loop_start
  (* ^(const|let|var|private|public|protected)\s+\w+ *)
  else if matches (Seqs [Bol; word1 ["const"; "let"; "var"; "private"; "public"; "protected"];
                         Plus ws; Plus wd]) 1 trimmedLine
  then variable_declaration_
  (* ^(import|include|require|using)\s+ *)
  else if matches (Seqs [Bol; word1 ["import"; "include"; "require"; "using"]; Plus ws])
            1 trimmedLine
  then import_statement_
  (* ^\/\*|\/\/|# *)
  else if matches (Alts [Seqs [Bol; Lit "/*"]; Lit "//"; Chr "#"]) 0 trimmedLine
  then comment_
  else general_.

(** Every case of the switch returns the current line. *)
Definition buildPrompt (currentLine : string) : string :=
  match analyzeLineType currentLine with
  | function_start => currentLine
  | class_start => currentLine
  | if_statement => currentLine
  | loop_start => currentLine
  | variable_declaration_ => currentLine
  | import_statement_ => currentLine
  | comment_ => currentLine
  | general_ => currentLine
  end.

Definition buildCompletionRequest (document : TextDocument) (position : Position)
    : option CompletionRequest :=
  lineText ← lineAt document (line position);
  let currentLinePrefix := substring0 (character position) lineText in
  ctx ← getContext document position;
  Some {| prompt := buildPrompt currentLinePrefix;
          reqLanguage := languageId document;
          reqContext := ctx.2 |}.

(** *** The provider and its host

    Requests are numbered; request [id] owns the promise [id], the timer
    [id] that [setTimeout] returns for it and the backend call [id] that
    its callback awaits.  A document is a handle into the documents that
    the editor holds: the provider reads it when the request is made and
    again when the timer fires, and the editor may have changed it in
    between.  A cancellation token is a number; the editor sets it. *)

(** The closure passed to [setTimeout]: the document object (a handle
    into [documents]), the position and the cancellation token of its
    request. *)
Record Timer := mkTimer {
  timerKey : string;
  timerDocument : nat;
  timerPosition : Position;
  timerToken : nat;
  due : Z
}.

(** A callback suspended at [await this.aiService.getCompletion(request)]. *)
Record Call := mkCall {
  callKey : string;
  callRequest : CompletionRequest
}.

Record World := mkWorld {
  (* AICompletionProvider *)
  cache : gmap string CompletionCache;
  debounceMap : gmap string nat;
  tokenCounter : TokenCounter.t;
  (* the host: clock, settings, open documents, cancellation tokens *)
  now : Z;
  config : Config;
  documents : gmap nat TextDocument;
  cancelled : gset nat;
  (* the event loop: pending timers, awaited calls, settled promises *)
  timers : gmap nat Timer;
  inflight : gmap nat Call;
  settled : gmap nat (list string);
  nextId : nat;
  (* every call of aiService.getCompletion so far, oldest first *)
  calls : list (string * CompletionRequest)
}.

Definition setCache v w :=
  mkWorld v (debounceMap w) (tokenCounter w) (now w) (config w) (documents w)
    (cancelled w) (timers w) (inflight w) (settled w) (nextId w) (calls w).
Definition setDebounceMap v w :=
  mkWorld (cache w) v (tokenCounter w) (now w) (config w) (documents w)
    (cancelled w) (timers w) (inflight w) (settled w) (nextId w) (calls w).
Definition setTokenCounter v w :=
  mkWorld (cache w) (debounceMap w) v (now w) (config w) (documents w)
    (cancelled w) (timers w) (inflight w) (settled w) (nextId w) (calls w).
Definition setNow v w :=
  mkWorld (cache w) (debounceMap w) (tokenCounter w) v (config w) (documents w)
    (cancelled w) (timers w) (inflight w) (settled w) (nextId w) (calls w).
Definition setConfig v w :=
  mkWorld (cache w) (debounceMap w) (tokenCounter w) (now w) v (documents w)
    (cancelled w) (timers w) (inflight w) (settled w) (nextId w) (calls w).
Definition setDocuments v w :=
  mkWorld (cache w) (debounceMap w) (tokenCounter w) (now w) (config w) v
    (cancelled w) (timers w) (inflight w) (settled w) (nextId w) (calls w).
Definition setCancelled v w :=
  mkWorld (cache w) (debounceMap w) (tokenCounter w) (now w) (config w) (documents w)
    v (timers w) (inflight w) (settled w) (nextId w) (calls w).
Definition setTimers v w :=
  mkWorld (cache w) (debounceMap w) (tokenCounter w) (now w) (config w) (documents w)
    (cancelled w) v (inflight w) (settled w) (nextId w) (calls w).
Definition setInflight v w :=
  mkWorld (cache w) (debounceMap w) (tokenCounter w) (now w) (config w) (documents w)
    (cancelled w) (timers w) v (settled w) (nextId w) (calls w).
Definition setSettled v w :=
  mkWorld (cache w) (debounceMap w) (tokenCounter w) (now w) (config w) (documents w)
    (cancelled w) (timers w) (inflight w) v (nextId w) (calls w).
Definition setNextId v w :=
  mkWorld (cache w) (debounceMap w) (tokenCounter w) (now w) (config w) (documents w)
    (cancelled w) (timers w) (inflight w) (settled w) v (calls w).
Definition setCalls v w :=
  mkWorld (cache w) (debounceMap w) (tokenCounter w) (now w) (config w) (documents w)
    (cancelled w) (timers w) (inflight w) (settled w) (nextId w) v.

(** A freshly constructed provider in a host with the given settings
    and clock. *)
Definition initial (c : Config) (t0 : Z) (tc : TokenCounter.t) : World :=
  mkWorld ∅ ∅ tc t0 c ∅ ∅ ∅ ∅ ∅ 0 [].

(** [resolve(value)] of promise [id]. *)
Definition resolve (id : nat) (value : list string) (w : World) : World :=
  setSettled (<[id := value]> (settled w)) w.

Definition clearTimeout (h : nat) (w : World) : World :=
  setTimers (delete h (timers w)) w.

Definition isCancellationRequested (tok : nat) (w : World) : bool :=
  bool_decide (tok ∈ cancelled w).

(** A number or [undefined] in a condition. *)
Definition truthyNum (n : option Number.number) : bool :=
  match n with Some x => Number.truthy x | None => false end.

(** [cleanCache]: delete the entries with now - timestamp > CACHE_DURATION. *)
Definition cleanCache (w : World) : World :=
  setCache
    (filter (fun kv : string * CompletionCache =>
               (now w - timestamp kv.2 <= CACHE_DURATION)%Z) (cache w)) w.

(** [getCompletionSuggestions] for request [id].  [None]: the returned
    promise is rejected ([buildCacheKey] raised). *)
Definition getCompletionSuggestions (id : nat) (d : nat) (document : TextDocument)
    (position : Position) (token : nat) (w : World) : option World :=
  cacheKey ← buildCacheKey document position;
  let hit :=
    match cache w !! cacheKey with
    | Some cached =>
        if (now w - timestamp cached <? CACHE_DURATION)%Z then Some cached else None
    | None => None
    end in
  match hit with
  | Some cached => Some (resolve id [text cached] w)
  | None =>
      let w1 :=
        match debounceMap w !! cacheKey with
        | Some h => clearTimeout h w
        | None => w
        end in
      let w2 :=
        setTimers (<[id := mkTimer cacheKey d position token (now w + DEBOUNCE_DELAY)]>
                     (timers w1)) w1 in
      Some (setDebounceMap (<[cacheKey := id]> (debounceMap w2)) w2)
  end.

(** [provideCompletionItems], up to the wrapping of each suggestion in a
    CompletionItem: the promise settles with the suggestions. *)
Definition provideCompletionItems (id : nat) (d : nat) (document : TextDocument)
    (position : Position) (token : nat) (w : World) : World :=
  if negb (enabled (config w)) then resolve id [] w
  else if isCancellationRequested token w then resolve id [] w
  else
    match getCompletionSuggestions id d document position token w with
    | Some w' => w'
    | None => resolve id [] w          (* catch *)
    end.

(** The [finally] block of the timer callback. *)
Definition finally (cacheKey : string) (w : World) : World :=
  setDebounceMap (delete cacheKey (debounceMap w)) w.

(** The timer callback of request [id], up to its [await]. *)
Definition timerCallback (id : nat) (tm : Timer) (w : World) : World :=
  let cacheKey := timerKey tm in
  if isCancellationRequested (timerToken tm) w then finally cacheKey (resolve id [] w)
  else
    match documents w !! timerDocument tm
          ≫= (fun document => buildCompletionRequest document (timerPosition tm)) with
    | None => finally cacheKey (resolve id [] w)      (* catch *)
    | Some request =>
        if negb (truthy (trim (prompt request)))
        then finally cacheKey (resolve id [] w)
        else
          setCalls (calls w ++ [(cacheKey, request)])
            (setInflight (<[id := mkCall cacheKey request]> (inflight w)) w)
    end.

(** How the awaited backend promise settles. *)
Inductive Outcome :=
| Fulfilled (response : CompletionResponse)
| Rejected.

(** The timer callback of request [id], from its [await] on. *)
Definition resume (id : nat) (c : Call) (o : Outcome) (w : World) : World :=
  let cacheKey := callKey c in
  let request := callRequest c in
  finally cacheKey
    match o with
    | Fulfilled response =>
        if success response && truthy (trim (respText response)) then
          let w1 :=
            if truthyNum (inputTokens response) && truthyNum (outputTokens response)
            then setTokenCounter
                   (TokenCounter.addTokens (default Number.zero (inputTokens response))
                      (default Number.zero (outputTokens response)) (tokenCounter w)) w
            else w in
          let w2 :=
            setCache (<[cacheKey := {| text := respText response;
                                       timestamp := now w1;
                                       context := reqContext request |}]> (cache w1)) w1 in
          resolve id [respText response] (cleanCache w2)
        else resolve id [] w
    | Rejected => resolve id [] w                     (* catch *)
    end.

(** [clearCache] *)
Definition clearCache (w : World) : World :=
  let w1 := setCache ∅ w in
  let w2 := setTimers (map_fold (fun _ h ts => delete h ts) (timers w1) (debounceMap w1)) w1 in
  setDebounceMap ∅ w2.

(** *** The event loop

    The editor requests completions, edits documents, cancels tokens,
    changes the settings and closes documents (which clears the cache);
    the clock advances; a pending timer fires when it is due; an awaited
    backend call completes. *)

Inductive Event :=
| Request (d : nat) (position : Position) (token : nat)
| Fire (id : nat)
| Respond (id : nat) (o : Outcome)
| Cancel (token : nat)
| Tick (dt : Z)
| Edit (d : nat) (document : TextDocument)
| Configure (c : Config)
| ClearCache.

(** One turn of the event loop; [None] when the event cannot happen in
    this state. *)
Definition step (w : World) (e : Event) : option World :=
  match e with
  | Request d position token =>
      document ← documents w !! d;
      Some (provideCompletionItems (nextId w) d document position token
              (setNextId (S (nextId w)) w))
  | Fire id =>
      tm ← timers w !! id;
      if (due tm <=? now w)%Z
      then Some (timerCallback id tm (setTimers (delete id (timers w)) w))
      else None
  | Respond id o =>
      c ← inflight w !! id;
      Some (resume id c o (setInflight (delete id (inflight w)) w))
  | Cancel token => Some (setCancelled ({[token]} ∪ cancelled w) w)
  | Tick dt => if (0 <=? dt)%Z then Some (setNow (now w + dt)%Z w) else None
  | Edit d document => Some (setDocuments (<[d := document]> (documents w)) w)
  | Configure c => Some (setConfig c w)
  | ClearCache => Some (clearCache w)
  end.

Fixpoint run (w : World) (es : list Event) : option World :=
  match es with
  | [] => Some w
  | e :: es' => w' ← step w e; run w' es'
  end.

(** *** Inserting a suggestion *)

(** The line feed. *)
Definition LF : ascii := ascii_of_nat 10.

(** [formatInsertText]: the white space that the text before the cursor
    begins with is put before every line of the suggestion but the
    first. *)
Definition formatInsertText (suggestion : string) (document : TextDocument)
    (position : Position) : option string :=
  lineText ← lineAt document (line position);
  let linePrefix := substring0 (character position) lineText in
  let currentIndent := leadingSpace linePrefix in
  if includes LF suggestion then
    Some (join newline
            (imap (fun index l => if (index =? 0)%nat then l else currentIndent +:+ l)
               (split LF suggestion)))
  else Some suggestion.

End Provider.


(* ===================================================================== *)
(** ** The configuration manager: the [delay] setting *)
(* ===================================================================== *)

Module ConfigManager.

(** [getConfig]: the defaults of the three settings. *)
Definition defaultConfig : Provider.Config :=
  {| Provider.enabled := true; Provider.delay := 500; Provider.cacheEnabled := true |}.

(** [validateConfig] on a configuration that only sets [delay]: valid
    unless delay < 100 or delay > 5000. *)
Definition validDelay (delay : Z) : bool :=
  negb ((delay <? 100)%Z || (delay >? 5000)%Z).

End ConfigManager.

(* ===================================================================== *)
(** ** Scenarios *)
(* ===================================================================== *)

Module Scenario.
Import Analyzer Provider.

(** The document of the end-to-end scenario of the analyzer. *)
Definition addPy : TextDocument :=
  mkDocument "/work/add.py" "python"
    ["def add(a, b):"; "    total = a + b"; "    "].

(** A document whose last line is being typed. *)
Definition typing : TextDocument :=
  mkDocument "/work/add.py" "python"
    ["def add(a, b):"; "    total = a + b"; "    ret"].

Definition cursor : Position := mkPosition 2 7.
Definition typingKey : string := "/work/add.py:2:7:    ret".

Definition counter0 : TokenCounter.t := TokenCounter.loadStats 0 None.

(** A new provider, the default settings, document 0 open. *)
Definition world (c : Config) : World :=
  setDocuments {[ 0%nat := typing ]} (initial c 0 counter0).

Definition answer (txt : string) (i o : option Z) : CompletionResponse :=
  mkCompletionResponse txt (Number.ofZ <$> i) (Number.ofZ <$> o) true None.

(** A JavaScript document with a declaration of each form. *)
Definition mathJs : TextDocument :=
  mkDocument "/work/math.js" "javascript"
    ["function add(a, b) {";
     "  return a + b;";
     "}";
     "const mul = async (a, b) => a * b;"].

Definition failure : CompletionResponse :=
  mkCompletionResponse "" None None false (Some "API").

(** The same with the document of the analyzer scenario, whose last
    line is blank. *)
Definition blankWorld (c : Config) : World :=
  setDocuments {[ 0%nat := addPy ]} (initial c 0 counter0).

(** The world reached from [world c] by the events [es]; [world c]
    itself if they cannot happen. *)
Definition after (c : Config) (es : list Event) : World :=
  default (world c) (run (world c) es).

(** The request of a completion at [cursor] has been made, its timer has
    fired and its backend call is awaited. *)
Definition asked : World :=
  Eval vm_compute in
    after ConfigManager.defaultConfig [Request 0 cursor 0; Tick 500; Fire 0].

Definition theCall : Call :=
  Eval vm_compute in
    default (mkCall "" (mkCompletionRequest "" "" "")) (inflight asked !! 0%nat).

(** The backend has answered x, with the usage 3 and 4. *)
Definition answered : World :=
  Eval vm_compute in
    after ConfigManager.defaultConfig
      [Request 0 cursor 0; Tick 500; Fire 0;
       Respond 0 (Fulfilled (answer "x" (Some 3%Z) (Some 4%Z)))].

(** A second request for the same key has been made at once. *)
Definition served : World :=
  Eval vm_compute in
    after ConfigManager.defaultConfig
      [Request 0 cursor 0; Tick 500; Fire 0;
       Respond 0 (Fulfilled (answer "x" (Some 3%Z) (Some 4%Z)));
       Request 0 cursor 1].

(** The request of a completion at [cursor] has been made with token 7,
    which was then cancelled, and the delay has elapsed. *)
Definition cancelledEarly : World :=
  Eval vm_compute in
    after ConfigManager.defaultConfig [Request 0 cursor 7; Cancel 7; Tick 500].

(** Two requests for the same key, a short while apart. *)
Definition burst : list Event :=
  [Request 0 cursor 0; Tick 100; Request 0 cursor 1; Tick 100].

Definition beforeLast : World :=
  Eval vm_compute in after ConfigManager.defaultConfig burst.

(** A third request for the key. *)
Definition afterLast : World :=
  Eval vm_compute in after ConfigManager.defaultConfig (burst ++ [Request 0 cursor 2]).

(** Its delay has elapsed. *)
Definition ready : World :=
  Eval vm_compute in
    after ConfigManager.defaultConfig (burst ++ [Request 0 cursor 2; Tick 500]).

Definition fired : World :=
  Eval vm_compute in
    after ConfigManager.defaultConfig (burst ++ [Request 0 cursor 2; Tick 500; Fire 2]).

Definition theRequest : CompletionRequest :=
  Eval vm_compute in
    default (mkCompletionRequest "" "" "") (buildCompletionRequest typing cursor).

(** A first request is superseded by a second one for the same key. *)
Definition superseded : World :=
  Eval vm_compute in
    after ConfigManager.defaultConfig
      [Request 0 cursor 0; Tick 100; Request 0 cursor 1].

Definition theTimer : Timer :=
  Eval vm_compute in
    default (mkTimer "" 0 cursor 0 0) (timers cancelledEarly !! 0%nat).

End Scenario.

(* ===================================================================== *)
(** ** Sessions: runs of a new provider *)
(* ===================================================================== *)

Module Session.
Import Analyzer Provider.

(** A new provider in a host with the default settings. *)
Definition start : World :=
  initial ConfigManager.defaultConfig 0 Scenario.counter0.

(** Document 0 is opened, a completion is requested at the cursor, its
    timer fires and the backend answers x. *)
Definition firstAnswer : list Event :=
  [Edit 0 Scenario.typing; Request 0 Scenario.cursor 0; Tick 500; Fire 0;
   Respond 0 (Fulfilled (Scenario.answer "x" (Some 3%Z) (Some 4%Z)))].

(** Then the document is closed and a second request gets the answer y. *)
Definition secondAnswer : list Event :=
  [ClearCache; Request 0 Scenario.cursor 1; Tick 500; Fire 1;
   Respond 1 (Fulfilled (Scenario.answer "y" None None))].

Definition answeredTwice : World :=
  Eval vm_compute in default start (run Scenario.answered secondAnswer).

(** Document 0 is opened after 100 ms and a completion is requested. *)
Definition opened : World :=
  Eval vm_compute in default start (run start [Edit 0 Scenario.typing; Tick 100]).

Definition requested : World :=
  Eval vm_compute in default start (step opened (Request 0 Scenario.cursor 0)).

(** A second request, one column to the left. *)
Definition requestedAgain : World :=
  Eval vm_compute in default start (step requested (Request 0 (mkPosition 2 6) 1)).

Definition waited : World :=
  Eval vm_compute in default start (run requested [Tick 500]).

Definition called : World :=
  Eval vm_compute in default start (step waited (Fire 0)).

(** The document is closed while the request is waiting, and a second
    request is made later. *)
Definition closed : World :=
  Eval vm_compute in default start (step requested ClearCache).

Definition closedLater : World :=
  Eval vm_compute in default start (run closed [Tick 500; Request 0 Scenario.cursor 1]).

(** The document is closed while the backend call is awaited, and the
    answer arrives. *)
Definition closedAsked : World :=
  Eval vm_compute in default start (step Scenario.asked ClearCache).

Definition answeredClosed : World :=
  Eval vm_compute in
    default start
      (step closedAsked (Respond 0 (Fulfilled (Scenario.answer "x" (Some 3%Z) (Some 4%Z))))).

(** A class with two methods, the cursor in the second one. *)
Definition shapePy : TextDocument :=
  mkDocument "/work/shape.py" "python"
    ["class Shape:"; "    def area(self):"; "        return 0"; "    def name(self):"].

Definition shapeScope : ClassScope :=
  Eval vm_compute in
    default (mkClassScope None None 0 [] [])
      (default None (analyzeClassScope shapePy (mkPosition 3 4))).

Definition addVariables : list VariableInfo :=
  Eval vm_compute in default [] (extractVariables Scenario.addPy (mkPosition 2 4)).

End Session.

(* ===================================================================== *)
(** ** Vocabulary of the properties *)
(* ===================================================================== *)

Module Props.
Import JsString RegExp Analyzer Provider.

(** The token counts that a backend response makes the provider report
    to the token counter, if any. *)
Definition usage (r : CompletionResponse)
    : option (Number.number * Number.number) :=
  if success r && truthy (trim (respText r)) then
    match inputTokens r, outputTokens r with
    | Some i, Some o => if Number.truthy i && Number.truthy o then Some (i, o) else None
    | _, _ => None
    end
  else None.

(** A script of the two mutators of the token counter whose token
    counts are integers. *)
Inductive integerOp :=
| AddIntegers (inTok outTok : Z)
| ResetAt (now : Z).

Definition operation (o : integerOp) : TokenCounter.op :=
  match o with
  | AddIntegers i o => TokenCounter.AddTokens (Number.ofZ i) (Number.ofZ o)
  | ResetAt now => TokenCounter.ResetStats now
  end.

(** The integers up to 2^53 are numbers, and sums up to it are exact. *)
Definition MAX_EXACT : Z := 2 ^ 53.

(** The token counts of the script are not negative, and the tokens
    counted since the last reset, [tokens] of them before the script,
    never exceed 2^53. *)
Fixpoint exactFrom (tokens : Z) (script : list integerOp) : Prop :=
  match script with
  | [] => True
  | AddIntegers i o :: rest =>
      (0 <= i)%Z /\ (0 <= o)%Z /\ (tokens + (i + o) <= MAX_EXACT)%Z
      /\ exactFrom (tokens + (i + o)) rest
  | ResetAt _ :: rest => exactFrom 0 rest
  end.

(** The suggestions that a backend outcome resolves the promise with. *)
Definition suggestions (o : Outcome) : list string :=
  match o with
  | Fulfilled r => if success r && truthy (trim (respText r)) then [respText r] else []
  | Rejected => []
  end.

(** *** Runs of the event loop *)

(** The key that a request for this document and position has in this
    world. *)
Definition requestKey (w : World) (d : nat) (position : Position) : option string :=
  documents w !! d ≫= (fun document => buildCacheKey document position).

(** The backend request that the timer callback builds in this world. *)
Definition requestAt (w : World) (d : nat) (position : Position)
    : option CompletionRequest :=
  documents w !! d ≫= (fun document => buildCompletionRequest document position).

(** What a request does that gets a timer: it cancels the timer
    registered under its key, if any, and registers its own. *)
Definition scheduled (id d : nat) (position : Position) (token : nat) (K : string)
    (w : World) : World :=
  setDebounceMap (<[K := id]> (debounceMap w))
    (setTimers
       (<[id := mkTimer K d position token (now w + DEBOUNCE_DELAY)]>
          (match debounceMap w !! K with
           | Some h => delete h (timers w)
           | None => timers w
           end)) w).

(** What a timer callback does that calls the backend. *)
Definition issued (id : nat) (K : string) (request : CompletionRequest) (w : World)
    : World :=
  setCalls (calls w ++ [(K, request)])
    (setInflight (<[id := mkCall K request]> (inflight w)) w).

(** The event is the firing of a timer registered under [K]. *)
Definition firesKey (K : string) (w : World) (e : Event) : bool :=
  match e with
  | Fire id =>
      match timers w !! id with
      | Some tm => bool_decide (timerKey tm = K)
      | None => false
      end
  | _ => false
  end.

(** The event is a request with key [K]. *)
Definition requestsKey (K : string) (w : World) (e : Event) : bool :=
  match e with
  | Request d position _ => bool_decide (requestKey w d position = Some K)
  | _ => false
  end.

Definition clears (e : Event) : bool :=
  match e with ClearCache => true | _ => false end.

(** The event is a backend response that is written to the cache under
    [K]. *)
Definition writesKey (K : string) (w : World) (e : Event) : bool :=
  match e with
  | Respond id (Fulfilled r) =>
      match inflight w !! id with
      | Some c => bool_decide (callKey c = K) && success r && truthy (trim (respText r))
      | None => false
      end
  | _ => false
  end.

(** The event is a request with key [K] that passes the two checks of
    [provideCompletionItems] and finds no live cache entry: it gets a
    timer. *)
Definition schedulesKey (K : string) (w : World) (e : Event) : bool :=
  match e with
  | Request d position token =>
      enabled (config w) && negb (isCancellationRequested token w)
      && bool_decide (requestKey w d position = Some K)
      && match cache w !! K with
         | Some cached => negb (now w - timestamp cached <? CACHE_DURATION)%Z
         | None => true
         end
  | _ => false
  end.

(** The run of [es] from [w], provided that no event is [bad] when its
    turn comes. *)
Fixpoint runAvoiding (bad : World -> Event -> bool) (w : World) (es : list Event)
    : option World :=
  match es with
  | [] => Some w
  | e :: es' => if bad w e then None else w' ← step w e; runAvoiding bad w' es'
  end.

(** The backend requests made so far under key [K], oldest first. *)
Definition callsFor (K : string) (w : World) : list CompletionRequest :=
  (filter (fun kc : string * CompletionRequest => kc.1 = K) (calls w)).*2.

(** Nothing of key [K] is under way outside the debounce table: no
    backend call for [K] is awaited, a pending timer for [K] is the one
    registered for [K], and the handles in the table are handles that
    [setTimeout] has returned. *)
Definition quiet (K : string) (w : World) : Prop :=
  map_Forall (fun _ c => callKey c <> K) (inflight w)
  /\ map_Forall (fun id tm => timerKey tm = K -> debounceMap w !! K = Some id) (timers w)
  /\ map_Forall (fun K' id => (id < nextId w)%nat
                             /\ (timerKey <$> timers w !! id = Some K -> K' = K))
       (debounceMap w).

(** No timer is pending for [K]. *)
Definition idle (K : string) (w : World) : Prop :=
  map_Forall (fun _ tm => timerKey tm <> K) (timers w).

(** Promise [p] was returned and nothing is left that could settle it. *)
Definition abandoned (p : nat) (w : World) : Prop :=
  settled w !! p = None /\ timers w !! p = None /\ inflight w !! p = None
  /\ (p < nextId w)%nat.

(** *** The two declaration forms of JavaScript *)

Fixpoint allb (p : ascii -> bool) (s : string) : bool :=
  match s with
  | EmptyString => true
  | String c s' => p c && allb p s'
  end.

(** White space, possibly none. *)
Definition spaces (s : string) : Prop := allb isSpace s = true.

(** A non-empty run of word characters. *)
Definition identifier (s : string) : Prop := s <> EmptyString /\ allb isWord s = true.

(** The text is at its end or goes on with a character outside the
    class. *)
Definition stopsAt (cl : cls) (s : string) : Prop :=
  from_option (cls_mem cl) false (peek s) = false.

(** The text goes on with something that is not a word character. *)
Definition wordEnds (s : string) : Prop := stopsAt CWord s.

(** The optional [async] before a declaration. *)
Inductive asyncWord : string -> Prop :=
| NoAsync : asyncWord EmptyString
| Async sp : sp <> EmptyString -> spaces sp -> asyncWord ("async" +:+ sp).

(** [function name...], possibly after [async]. *)
Inductive keywordForm (name : string) : string -> Prop :=
| KeywordForm a sp rest :
    asyncWord a -> sp <> EmptyString -> spaces sp -> identifier name -> wordEnds rest ->
    keywordForm name (a +:+ "function" +:+ sp +:+ name +:+ rest).

(** [const name = (...) =>], possibly with [async] before [const] or
    before the parameter list. *)
Inductive arrowForm (name : string) : string -> Prop :=
| ArrowForm a sp1 sp2 sp3 b params sp4 rest :
    asyncWord a -> sp1 <> EmptyString -> spaces sp1 -> identifier name ->
    spaces sp2 -> spaces sp3 -> asyncWord b ->
    includes ")" params = false -> spaces sp4 ->
    arrowForm name
      (a +:+ "const" +:+ sp1 +:+ name +:+ sp2 +:+ "=" +:+ sp3 +:+ b +:+ "("
         +:+ params +:+ ")" +:+ sp4 +:+ "=>" +:+ rest).

End Props.

(** Texts, lines and declarations. *)
Module Text.
Import JsString RegExp Analyzer Props.

(** A decimal digit. *)
Definition isDigit (c : ascii) : bool :=
  let n := code c in ((48 <=? n) && (n <=? 57))%N.

(** The part of a text before the first occurrence of a separator, all
    of it when there is none. *)
Fixpoint upTo (sep : ascii) (s : string) : string :=
  match s with
  | EmptyString => EmptyString
  | String c s' => if Ascii.eqb c sep then EmptyString else String c (upTo sep s')
  end.

(** The ten lines before line [l], or as many as there are, and the ten
    lines after it. *)
Definition linesBefore (d : TextDocument) (l : nat) : list string :=
  drop (l - 10) (take l (lines d)).

Definition linesAfter (d : TextDocument) (l : nat) : list string :=
  take 10 (drop (S l) (lines d)).

(** The lines strictly between line [a] and line [b]. *)
Definition linesWithin (d : TextDocument) (a b : nat) : list string :=
  take (b - S a) (drop (S a) (lines d)).

(** The method that a line declares, and the property that it
    assigns, for the patterns of a language. *)
Definition methodOn (config : LanguageConfig) (lineText : string) : option string :=
  methodMatch ← exec (functionPattern config) (trim lineText);
  Some (orElse (group methodMatch 1) "anonymous").

Definition propertyOn (config : LanguageConfig) (lineText : string)
    : option (option string) :=
  p ← propertyPattern config;
  propertyMatch ← exec p (trim lineText);
  Some (group propertyMatch 1).

(** Nothing to trim at either end. *)
Definition trimmed (s : string) : Prop := trimStart s = s /\ trimEnd s = s.

(** A parameter as it is written in a list of parameters: white space,
    the name, and then white space, or a type annotation or a default
    value after a colon or an equals sign. *)
Inductive parameterText (nm : string) : string -> Prop :=
| BareParameter sp1 sp2 :
    spaces sp1 -> spaces sp2 -> parameterText nm (sp1 +:+ nm +:+ sp2)
| AnnotatedParameter sp1 sp2 c more :
    spaces sp1 -> spaces sp2 -> c = ":"%char \/ c = "="%char ->
    includes "," more = false ->
    parameterText nm (sp1 +:+ nm +:+ sp2 +:+ String c more).

(** A name of a parameter: not empty, without white space at its ends,
    without comma, colon and equals sign. *)
Definition parameterName (nm : string) : Prop :=
  nm <> EmptyString /\ trimmed nm
  /\ includes "," nm = false /\ includes ":" nm = false /\ includes "=" nm = false.

(** The return annotation of a Python declaration, if any. *)
Inductive returnAnnotation : option string -> string -> Prop :=
| NoAnnotation : returnAnnotation None EmptyString
| Annotation sp1 sp2 t :
    spaces sp1 -> spaces sp2 -> identifier t ->
    returnAnnotation (Some t) (sp1 +:+ "->" +:+ sp2 +:+ t).

(** [def name(params):], possibly after [async] and with a return
    annotation. *)
Inductive pythonDef (a nm params : string) (ret : option string) : string -> Prop :=
| PythonDef sp1 sp2 ann rest :
    asyncWord a -> sp1 <> EmptyString -> spaces sp1 -> identifier nm -> spaces sp2 ->
    includes ")" params = false -> returnAnnotation ret ann ->
    pythonDef a nm params ret
      (a +:+ "def" +:+ sp1 +:+ nm +:+ sp2 +:+ "(" +:+ params +:+ ")" +:+ ann +:+ ":"
         +:+ rest).

End Text.

(** Invariants of the event loop. *)
Module Invariants.
Import JsString Analyzer Provider.

(** What the provider offers: nothing, or one text that is not blank. *)
Definition offered (v : list string) : Prop :=
  v = [] \/ exists t, v = [t] /\ truthy (trim t) = true.

(** Every request made so far is in one place: its timer is pending, or
    its backend call is awaited, or its promise is settled (or it was
    dropped); the promises were settled with what the provider offers
    and the cache holds texts that are not blank; a handle in the
    debounce table is one that [setTimeout] has returned, for a request
    with the key that it is registered under. *)
Definition wellFormed (w : World) : Prop :=
  map_Forall (fun id _ => (id < nextId w)%nat /\ inflight w !! id = None
                          /\ settled w !! id = None) (timers w)
  /\ map_Forall (fun id _ => (id < nextId w)%nat /\ settled w !! id = None) (inflight w)
  /\ map_Forall (fun id v => (id < nextId w)%nat /\ offered v) (settled w)
  /\ map_Forall (fun _ e => truthy (trim (text e)) = true) (cache w)
  /\ map_Forall (fun K h => (h < nextId w)%nat
                            /\ forall tm, timers w !! h = Some tm -> timerKey tm = K)
       (debounceMap w).


End Invariants.

(* ===================================================================== *)
(** * Properties *)
(* ===================================================================== *)

Import JsString RegExp Analyzer Provider Props.

(** Closed goals about concrete runs: split, then evaluate each part in
    order, so that the worlds found by the first parts are known in the
    later ones. *)
Ltac evaluate :=
  intros;
  repeat lazymatch goal with
         | |- _ /\ _ => split
         | |- ex _ => eexists
         | |- _ => vm_compute; reflexivity
         end.

(** ** JavaScript numbers *)

Open Scope Z_scope.

Lemma digits2_pos_size p : digits2_pos p = Pos.size p.
Proof. induction p as [p IH|p IH|]; cbn [digits2_pos Pos.size]; congruence. Qed.

Lemma digits2_pos_log2 p : Zpos (digits2_pos p) = Z.log2 (Zpos p) + 1.
Proof.
  rewrite digits2_pos_size. destruct p; cbn [Pos.size Z.log2]; lia.
Qed.

Lemma iter_pos_iter {A} (f : A -> A) n : forall x, SpecFloat.iter_pos f n x = Pos.iter f x n.
Proof.
  induction n as [n IH|n IH|]; intros x; cbn [SpecFloat.iter_pos Pos.iter]; [| |reflexivity].
  - rewrite !IH, <- !Pos.iter_swap. reflexivity.
  - rewrite !IH. reflexivity.
Qed.

Lemma iter_xO m n : Zpos (Pos.iter xO m n) = Zpos m * 2 ^ Zpos n.
Proof.
  induction n as [|n IH] using Pos.peano_ind.
  - cbn [Pos.iter]. lia.
  - rewrite Pos.iter_succ, Pos2Z.inj_succ, Z.pow_succ_r, Pos2Z.inj_xO, IH by lia. lia.
Qed.

Lemma shr_exact n : forall m,
  SpecFloat.iter_pos shr_1 n {| shr_m := Zpos (Pos.iter xO m n); shr_r := false; shr_s := false |}
  = {| shr_m := Zpos m; shr_r := false; shr_s := false |}.
Proof.
  intros m. rewrite iter_pos_iter.
  induction n as [|n IH] using Pos.peano_ind.
  - reflexivity.
  - rewrite !Pos.iter_succ, <- Pos.iter_swap. cbn [shr_1 orb]. exact IH.
Qed.

(** A mantissa of 53 bits with an exponent in range is kept as it is. *)
Lemma binary_round_aux_canonical m e :
  Zpos (digits2_pos m) = 53 -> -1074 <= e <= 971 ->
  binary_round_aux Number.prec Number.emax false (Zpos m) e loc_Exact = S754_finite false m e.
Proof.
  intros Hd He. unfold binary_round_aux, shr_fexp. cbn [Zdigits2 shr_record_of_loc].
  rewrite Hd.
  replace (fexp Number.prec Number.emax (53 + e) - e) with 0
    by (unfold fexp, emin, Number.prec, Number.emax; lia).
  cbn [shr shr_m loc_of_shr_record round_nearest_even Zdigits2 shr_record_of_loc].
  rewrite Hd.
  replace (fexp Number.prec Number.emax (53 + e) - e) with 0
    by (unfold fexp, emin, Number.prec, Number.emax; lia).
  cbn [shr shr_m].
  replace (e <=? Number.emax - Number.prec) with true; [reflexivity|].
  symmetry. apply Z.leb_le. unfold Number.prec, Number.emax. lia.
Qed.

(** Rounding is exact on a value that has a mantissa of 53 bits. *)
Lemma binary_round_exact mx ex m e k :
  Zpos (digits2_pos m) = 53 -> -1074 <= e <= 971 ->
  0 <= ex + k -> 0 <= e + k ->
  Zpos mx * 2 ^ (ex + k) = Zpos m * 2 ^ (e + k) ->
  binary_round Number.prec Number.emax false mx ex = S754_finite false m e.
Proof.
  intros Hd He Hx Hk Hv.
  assert (Zpos (digits2_pos mx) + ex = 53 + e) as Hdx.
  { rewrite <- Hd, !digits2_pos_log2.
    pose proof (Z.log2_mul_pow2 (Zpos mx) (ex + k) eq_refl Hx) as H1.
    pose proof (Z.log2_mul_pow2 (Zpos m) (e + k) eq_refl Hk) as H2.
    rewrite Hv in H1. lia. }
  unfold binary_round. rewrite Hdx.
  replace (fexp Number.prec Number.emax (53 + e)) with e
    by (unfold fexp, emin, Number.prec, Number.emax; lia).
  unfold shl_align. destruct (e - ex) as [|n|n] eqn:En.
  - assert (e = ex) as -> by lia. apply Z.mul_cancel_r in Hv; [|lia].
    injection Hv as ->. apply binary_round_aux_canonical; assumption.
  - assert (e = ex + Zpos n) as -> by lia.
    replace (ex + Zpos n + k) with (ex + k + Zpos n) in Hv by lia.
    rewrite (Z.pow_add_r 2 (ex + k) (Zpos n)) in Hv by lia.
    assert (0 < 2 ^ (ex + k)) as Hpos by (apply Z.pow_pos_nonneg; lia).
    assert (Zpos mx = Zpos m * 2 ^ Zpos n) as Hm by nia.
    rewrite <- iter_xO in Hm. injection Hm as ->.
    unfold binary_round_aux, shr_fexp. cbn [Zdigits2 shr_record_of_loc].
    rewrite Hdx.
    replace (fexp Number.prec Number.emax (53 + (ex + Zpos n)) - ex) with (Zpos n)
      by (unfold fexp, emin, Number.prec, Number.emax; lia).
    cbn [shr]. rewrite shr_exact.
    cbn [shr_m loc_of_shr_record round_nearest_even Zdigits2 shr_record_of_loc].
    rewrite Hd.
    replace (fexp Number.prec Number.emax (53 + (ex + Zpos n)) - (ex + Zpos n)) with 0
      by (unfold fexp, emin, Number.prec, Number.emax; lia).
    cbn [shr shr_m].
    replace (ex + Zpos n <=? Number.emax - Number.prec) with true; [reflexivity|].
    symmetry. apply Z.leb_le. unfold Number.prec, Number.emax. lia.
  - assert (ex = e + Zpos n) as -> by lia.
    replace (e + Zpos n + k) with (e + k + Zpos n) in Hv by lia.
    rewrite (Z.pow_add_r 2 (e + k) (Zpos n)) in Hv by lia.
    assert (0 < 2 ^ (e + k)) as Hpos by (apply Z.pow_pos_nonneg; lia).
    assert (Zpos m = Zpos mx * 2 ^ Zpos n) as Hm by nia.
    rewrite <- iter_xO in Hm. injection Hm as ->.
    apply binary_round_aux_canonical; [exact Hd|lia].
Qed.

Lemma shl_align_fst mx ex ez :
  ez <= ex -> Zpos (fst (shl_align mx ex ez)) = Zpos mx * 2 ^ (ex - ez).
Proof.
  intros H. unfold shl_align. destruct (ez - ex) as [|n|n] eqn:E; cbn [fst].
  - replace (ex - ez) with 0 by lia. lia.
  - lia.
  - rewrite iter_xO. f_equal. f_equal. lia.
Qed.

(** The number of a positive integer up to 2^53: a mantissa of 53 bits
    and an exponent, with the value of the integer. *)
Lemma ofZ_finite v :
  0 < v <= 2 ^ 53 ->
  exists m e, Number.ofZ v = S754_finite false m e
              /\ Zpos (digits2_pos m) = 53 /\ -52 <= e <= 1
              /\ Zpos m * 2 ^ (e + 52) = v * 2 ^ 52.
Proof.
  intros [Hpos Hle].
  destruct (Z.eq_dec v (2 ^ 53)) as [->|Hne].
  - exists (2 ^ 52)%positive, 1. repeat split; try reflexivity; lia.
  - assert (v < 2 ^ 53) as Hlt by lia.
    apply Z.log2_lt_pow2 in Hlt; [|exact Hpos].
    pose proof (Z.log2_nonneg v) as Hlog.
    set (e := Z.log2 v - 52).
    assert (0 < v * 2 ^ (- e)) as Hm
      by (apply Z.mul_pos_pos; [exact Hpos|apply Z.pow_pos_nonneg; lia]).
    destruct (v * 2 ^ (- e)) as [|m|m] eqn:Em; try lia.
    assert (Zpos (digits2_pos m) = 53) as Hd.
    { rewrite digits2_pos_log2, <- Em, Z.log2_mul_pow2 by lia. lia. }
    assert (Zpos m * 2 ^ (e + 52) = v * 2 ^ 52) as Hv.
    { rewrite <- Em, <- Z.mul_assoc, <- Z.pow_add_r by lia. f_equal. f_equal. lia. }
    exists m, e. split; [|split; [exact Hd|split; [lia|exact Hv]]].
    destruct v as [|p|p]; try lia. unfold Number.ofZ. cbn [binary_normalize].
    apply (binary_round_exact p 0 m e 52); lia.
Qed.

(** Adding two integers that are not negative is exact as long as the
    sum is at most 2^53. *)
Lemma add_ofZ a b :
  0 <= a -> 0 <= b -> a + b <= 2 ^ 53 ->
  Number.add (Number.ofZ a) (Number.ofZ b) = Number.ofZ (a + b).
Proof.
  intros Ha Hb Hab.
  destruct (Z.eq_dec a 0) as [->|Ha0].
  { rewrite Z.add_0_l. destruct (Z.eq_dec b 0) as [->|Hb0]; [reflexivity|].
    destruct (ofZ_finite b) as (m & e & -> & _); [lia|reflexivity]. }
  destruct (Z.eq_dec b 0) as [->|Hb0].
  { rewrite Z.add_0_r. destruct (ofZ_finite a) as (m & e & -> & _); [lia|reflexivity]. }
  destruct (ofZ_finite a) as (ma & ea & -> & Hda & Hea & Hva); [lia|].
  destruct (ofZ_finite b) as (mb & eb & -> & Hdb & Heb & Hvb); [lia|].
  destruct (ofZ_finite (a + b)) as (m & e & -> & Hd & He & Hv); [lia|].
  unfold Number.add, SFadd. cbn [cond_Zopp].
  set (ez := Z.min ea eb).
  pose proof (shl_align_fst ma ea ez ltac:(lia)) as Hsa.
  pose proof (shl_align_fst mb eb ez ltac:(lia)) as Hsb.
  cbn [Z.add binary_normalize].
  apply (binary_round_exact _ ez m e 52); try lia.
  rewrite Pos2Z.inj_add, Hsa, Hsb, Hv, Z.mul_add_distr_r, <- !Z.mul_assoc,
    <- !Z.pow_add_r by lia.
  replace (ea - ez + (ez + 52)) with (ea + 52) by lia.
  replace (eb - ez + (ez + 52)) with (eb + 52) by lia.
  lia.
Qed.

Lemma strictEq_ofZ v : 0 <= v <= 2 ^ 53 -> Number.strictEq (Number.ofZ v) (Number.ofZ v) = true.
Proof.
  intros H. destruct (Z.eq_dec v 0) as [->|H0]; [reflexivity|].
  destruct (ofZ_finite v) as (m & e & -> & _); [lia|].
  unfold Number.strictEq, SFeqb, SFcompare. rewrite Z.compare_refl.
  rewrite Pos.compare_cont_refl. reflexivity.
Qed.

Lemma add_one n :
  0 <= n < 2 ^ 53 -> Number.add (Number.ofZ n) Number.one = Number.ofZ (n + 1).
Proof. intros H. change Number.one with (Number.ofZ 1). apply add_ofZ; lia. Qed.

Close Scope Z_scope.

(** ** The token counter *)

(** As long as the counts are integers and the tokens do not exceed
    2^53, the counters hold the sums of the counts. *)
Lemma run_exact script : forall i o c,
  (0 <= i)%Z -> (0 <= o)%Z -> (i + o <= MAX_EXACT)%Z ->
  TokenCounter.inputTokens (TokenCounter.stats c) = Number.ofZ i ->
  TokenCounter.outputTokens (TokenCounter.stats c) = Number.ofZ o ->
  TokenCounter.totalTokens (TokenCounter.stats c) = Number.ofZ (i + o) ->
  exactFrom (i + o) script ->
  exists i' o',
    (0 <= i')%Z /\ (0 <= o')%Z /\ (i' + o' <= MAX_EXACT)%Z
    /\ TokenCounter.inputTokens
         (TokenCounter.stats (TokenCounter.run (operation <$> script) c)) = Number.ofZ i'
    /\ TokenCounter.outputTokens
         (TokenCounter.stats (TokenCounter.run (operation <$> script) c)) = Number.ofZ o'
    /\ TokenCounter.totalTokens
         (TokenCounter.stats (TokenCounter.run (operation <$> script) c))
       = Number.ofZ (i' + o').
Proof.
  induction script as [|op script IH]; intros i o c Hi Ho Hmax Hin Hout Htot Hs.
  - exists i, o. auto 10.
  - change (TokenCounter.run (operation <$> op :: script) c)
      with (TokenCounter.run (operation <$> script) (TokenCounter.apply c (operation op))).
    destruct op as [a b|now]; cbn [exactFrom] in Hs.
    + destruct Hs as (Ha & Hb & Hm & Hr). unfold MAX_EXACT in Hmax, Hm.
      apply (IH (i + a)%Z (o + b)%Z); try lia.
      * unfold MAX_EXACT. lia.
      * cbn. rewrite Hin. apply add_ofZ; lia.
      * cbn. rewrite Hout. apply add_ofZ; lia.
      * cbn. rewrite Htot, (add_ofZ a b) by lia. rewrite add_ofZ by lia. f_equal. lia.
      * replace (i + a + (o + b))%Z with (i + o + (a + b))%Z by lia. exact Hr.
    + apply (IH 0%Z 0%Z); try reflexivity; try lia. exact Hs.
Qed.

(** C10 (as amended). Starting from the reset state, after any sequence
    of [addTokens] and [resetStats] in which the token counts are
    integers that are not negative, and as long as the tokens counted
    since the last reset do not exceed 2^53, the counters of the tokens
    are integers and the statistics satisfy
    totalTokens = inputTokens + outputTokens; each [addTokens] adds its
    two arguments to the input and output counters and their sum to the
    total, and increments a requestCount that is an integer below 2^53
    by exactly one; [resetStats] returns all four counters to zero. *)
Theorem token_counter_invariant :
  (forall (t0 : Z) (c0 : TokenCounter.t) (script : list integerOp),
      exactFrom 0 script ->
      let s := TokenCounter.getStats
                 (TokenCounter.run (operation <$> script) (TokenCounter.resetStats t0 c0)) in
      TokenCounter.totalTokens s
      = Number.add (TokenCounter.inputTokens s) (TokenCounter.outputTokens s)
      /\ TokenCounter.consistent s = true
      /\ exists i o : Z,
           (0 <= i)%Z /\ (0 <= o)%Z /\ (i + o <= 2 ^ 53)%Z
           /\ TokenCounter.inputTokens s = Number.ofZ i
           /\ TokenCounter.outputTokens s = Number.ofZ o
           /\ TokenCounter.totalTokens s = Number.ofZ (i + o))
  /\ (forall (i o : Number.number) (c : TokenCounter.t),
         let s := TokenCounter.getStats c in
         let s' := TokenCounter.getStats (TokenCounter.addTokens i o c) in
         TokenCounter.inputTokens s' = Number.add (TokenCounter.inputTokens s) i
         /\ TokenCounter.outputTokens s' = Number.add (TokenCounter.outputTokens s) o
         /\ TokenCounter.totalTokens s'
            = Number.add (TokenCounter.totalTokens s) (Number.add i o)
         /\ forall n : Z,
              (0 <= n < 2 ^ 53)%Z ->
              TokenCounter.requestCount s = Number.ofZ n ->
              TokenCounter.requestCount s' = Number.ofZ (n + 1))
  /\ (forall (t : Z) (c : TokenCounter.t),
         let s' := TokenCounter.getStats (TokenCounter.resetStats t c) in
         TokenCounter.inputTokens s' = Number.ofZ 0
         /\ TokenCounter.outputTokens s' = Number.ofZ 0
         /\ TokenCounter.totalTokens s' = Number.ofZ 0
         /\ TokenCounter.requestCount s' = Number.ofZ 0).
Proof.
  split; [|split].
  - intros t0 c0 script Hs s.
    destruct (run_exact script 0 0 (TokenCounter.resetStats t0 c0))
      as (i & o & Hi & Ho & Hmax & Hin & Hout & Htot); try reflexivity; try lia.
    { vm_compute. discriminate. }
    { exact Hs. }
    subst s. unfold TokenCounter.consistent, TokenCounter.getStats, MAX_EXACT in *.
    rewrite Hin, Hout, Htot, add_ofZ by lia.
    split; [reflexivity|]. split; [apply strictEq_ofZ; lia|].
    exists i, o. auto 10.
  - intros i o c s s'. subst s s'. unfold TokenCounter.getStats.
    split; [reflexivity|]. split; [reflexivity|]. split; [reflexivity|].
    intros n Hn H. cbn. rewrite H. apply add_one. exact Hn.
  - intros t c. cbn. auto.
Qed.

(** C10 as stated fails: the counters are doubles.  After
    addTokens(2^53, 0) and addTokens(1, 1) the input counter is still
    2^53 and the total is 2^53 + 2, which is not the sum of the input
    and output counters; and a requestCount of 2^53 is not incremented
    any more. *)
Lemma large_counts_are_rounded :
  exists c : TokenCounter.t,
    TokenCounter.run [TokenCounter.AddTokens (Number.ofZ (2 ^ 53)) (Number.ofZ 0);
                      TokenCounter.AddTokens (Number.ofZ 1) (Number.ofZ 1)]
      (TokenCounter.loadStats 0 None) = c
    /\ TokenCounter.inputTokens (TokenCounter.getStats c) = Number.ofZ (2 ^ 53)
    /\ TokenCounter.outputTokens (TokenCounter.getStats c) = Number.ofZ 1
    /\ TokenCounter.totalTokens (TokenCounter.getStats c) = Number.ofZ (2 ^ 53 + 2)
    /\ Number.add (TokenCounter.inputTokens (TokenCounter.getStats c))
         (TokenCounter.outputTokens (TokenCounter.getStats c)) = Number.ofZ (2 ^ 53)
    /\ TokenCounter.consistent (TokenCounter.getStats c) = false
    /\ TokenCounter.requestCount
         (TokenCounter.getStats
            (TokenCounter.addTokens (Number.ofZ 1) (Number.ofZ 1)
               (TokenCounter.loadStats 0
                  (Some (TokenCounter.mkStats Number.zero Number.zero Number.zero
                           (Number.ofZ (2 ^ 53)) 0)))))
       = Number.ofZ (2 ^ 53).
Proof.
  evaluate.
Qed.

(** C10 (as amended) on a script: two additions around a reset, and the
    first request counted. *)
Lemma token_counter_invariant_witness :
  exactFrom 0 [AddIntegers 3 4; ResetAt 9; AddIntegers 120 80; AddIntegers 5 6]
  /\ (let s := TokenCounter.getStats
                 (TokenCounter.run
                    (operation <$> [AddIntegers 3 4; ResetAt 9; AddIntegers 120 80;
                                    AddIntegers 5 6])
                    (TokenCounter.resetStats 0 (TokenCounter.loadStats 0 None))) in
      TokenCounter.totalTokens s = Number.ofZ 211
      /\ TokenCounter.totalTokens s
         = Number.add (TokenCounter.inputTokens s) (TokenCounter.outputTokens s)
      /\ TokenCounter.consistent s = true)
  /\ TokenCounter.requestCount
       (TokenCounter.getStats
          (TokenCounter.addTokens (Number.ofZ 3) (Number.ofZ 4)
             (TokenCounter.loadStats 0 None)))
     = Number.ofZ (0 + 1).
Proof.
  assert (exactFrom 0 [AddIntegers 3 4; ResetAt 9; AddIntegers 120 80; AddIntegers 5 6])
    as Hs by (cbn [exactFrom]; repeat split; vm_compute; discriminate).
  split; [exact Hs|]. split.
  - split; [vm_compute; reflexivity|].
    destruct (proj1 token_counter_invariant 0%Z (TokenCounter.loadStats 0 None) _ Hs)
      as (Hsum & Hc & _).
    split; [exact Hsum|exact Hc].
  - destruct (proj1 (proj2 token_counter_invariant) (Number.ofZ 3) (Number.ofZ 4)
                (TokenCounter.loadStats 0 None)) as (_ & _ & _ & Hrc).
    apply Hrc; [lia|reflexivity].
Defined.

(** ** The analyzer on the scenario of the specification *)

(** C8. For the document with language id python and lines
    [def add(a, b):], [    total = a + b], [    ] and the cursor at line 2,
    column 4, [analyzeContext] returns a context whose enclosing function
    scope has name add and parameters a, b, whose line kind is general
    and whose indentation is four spaces. *)
Theorem analyze_python_scenario :
  exists ctx fs,
    analyzeContext Scenario.addPy (mkPosition 2 4) = Some ctx
    /\ functionScope ctx = Some fs
    /\ name fs = "add"
    /\ parameters fs = ["a"; "b"]
    /\ codeType ctx = general
    /\ indentation ctx = "    ".
Proof.
  eexists _, _. vm_compute. repeat split; reflexivity.
Qed.

(** ** The matcher on runs of a character class *)

Lemma length_append (a b : string) :
  String.length (a +:+ b) = (String.length a + String.length b)%nat.
Proof. induction a as [|c a IH]; simpl; [reflexivity|]. rewrite IH. reflexivity. Qed.

Lemma substring0_append (a b : string) : substring0 (String.length a) (a +:+ b) = a.
Proof. induction a as [|c a IH]; simpl; [destruct b; reflexivity|]. rewrite IH. reflexivity. Qed.

Lemma consumed_append (a b : string) : consumed (a +:+ b) b = a.
Proof.
  unfold consumed. rewrite length_append.
  replace (String.length a + String.length b - String.length b)%nat
    with (String.length a) by lia.
  apply substring0_append.
Qed.

Lemma append_cons c (a b : string) : String c a +:+ b = String c (a +:+ b).
Proof. reflexivity. Qed.

Lemma append_assoc (a b c : string) : (a +:+ b) +:+ c = a +:+ (b +:+ c).
Proof.
  induction a as [|x a IH]; [reflexivity|]. rewrite !append_cons, IH. reflexivity.
Qed.

Lemma stopsAt_cons cl c s : cls_mem cl c = false -> stopsAt cl (String c s).
Proof. intros H. exact H. Qed.

Lemma stopsAt_append cl (p : ascii -> bool) (a b : string) :
  (forall c, p c = true -> cls_mem cl c = false) ->
  allb p a = true -> stopsAt cl b -> stopsAt cl (a +:+ b).
Proof.
  intros Hp Ha Hb. destruct a as [|c a]; [exact Hb|].
  simpl in Ha. apply andb_prop in Ha as [Hc _]. apply Hp, Hc.
Qed.

Lemma stopsAt_nonempty cl (p : ascii -> bool) (a b : string) :
  (forall c, p c = true -> cls_mem cl c = false) ->
  a <> EmptyString -> allb p a = true -> stopsAt cl (a +:+ b).
Proof.
  intros Hp Hne Ha. destruct a as [|c a]; [congruence|].
  simpl in Ha. apply andb_prop in Ha as [Hc _]. apply Hp, Hc.
Qed.

(** A greedy repetition of a class over a run of its members that ends
    where the class stops: when the rest of the pattern matches from the
    end of the run, that is the match. *)
Lemma star_loop_run cl (k : cont) (m : captures) (rest : string) (caps : captures) :
  stopsAt cl rest ->
  (forall p, k p rest caps = Some m) ->
  forall (seg : string) (fuel : nat) (prev : option ascii),
    allb (cls_mem cl) seg = true ->
    (String.length seg <= fuel)%nat ->
    star_loop (rmatch (Cls cl)) k fuel prev (seg +:+ rest) caps = Some m.
Proof.
  intros Hstop Hk seg. induction seg as [|c seg IH]; intros fuel prev Hseg Hfuel.
  - simpl. destruct fuel as [|fuel]; simpl; [apply Hk|].
    destruct rest as [|c r]; simpl; [apply Hk|].
    unfold stopsAt in Hstop. simpl in Hstop. rewrite Hstop. apply Hk.
  - simpl in Hseg. apply andb_prop in Hseg as [Hc Hseg].
    destruct fuel as [|fuel]; simpl in Hfuel; [lia|]. simpl.
    rewrite Hc.
    destruct (Nat.ltb_spec (String.length (seg +:+ rest)) (S (String.length (seg +:+ rest))));
      [|lia].
    rewrite IH by (assumption || lia). reflexivity.
Qed.

Lemma rmatch_star_run cl (k : cont) (m : captures) (seg rest : string)
    (prev : option ascii) (caps : captures) :
  allb (cls_mem cl) seg = true ->
  stopsAt cl rest ->
  (forall p, k p rest caps = Some m) ->
  rmatch (Star (Cls cl)) prev (seg +:+ rest) caps k = Some m.
Proof.
  intros Hseg Hstop Hk. simpl. apply star_loop_run; try assumption.
  rewrite length_append. lia.
Qed.

Lemma rmatch_plus_run cl (k : cont) (m : captures) (seg rest : string)
    (prev : option ascii) (caps : captures) :
  seg <> EmptyString ->
  allb (cls_mem cl) seg = true ->
  stopsAt cl rest ->
  (forall p, k p rest caps = Some m) ->
  rmatch (Plus (Cls cl)) prev (seg +:+ rest) caps k = Some m.
Proof.
  intros Hne Hseg Hstop Hk. destruct seg as [|c seg]; [congruence|].
  simpl in Hseg. apply andb_prop in Hseg as [Hc Hseg].
  unfold Plus. simpl. rewrite Hc.
  apply star_loop_run; try assumption. rewrite length_append. lia.
Qed.

(** The other forms, one step each. *)
Lemma rmatch_seq r1 r2 prev s caps k :
  rmatch (Seq r1 r2) prev s caps k
  = rmatch r1 prev s caps (fun prev' s' caps' => rmatch r2 prev' s' caps' k).
Proof. reflexivity. Qed.

Lemma rmatch_grp n r prev s caps k :
  rmatch (Grp n r) prev s caps k
  = rmatch r prev s caps
      (fun prev' s' caps' => k prev' s' (<[n := Some (consumed s s')]> caps')).
Proof. reflexivity. Qed.

Lemma rmatch_eps prev s caps k : rmatch Eps prev s caps k = k prev s caps.
Proof. reflexivity. Qed.

Lemma rmatch_bol s caps k : rmatch Bol None s caps k = k None s caps.
Proof. reflexivity. Qed.

Lemma rmatch_chr c prev s caps (k : cont) m :
  (forall p, k p s caps = Some m) ->
  rmatch (Chr c) prev (String c EmptyString +:+ s) caps k = Some m.
Proof. intros Hk. simpl. rewrite Ascii.eqb_refl. apply Hk. Qed.

Lemma rmatch_lit (l : string) : forall prev s caps (k : cont) m,
  (forall p, k p s caps = Some m) ->
  rmatch (Lit l) prev (l +:+ s) caps k = Some m.
Proof.
  induction l as [|c l IH]; intros prev s caps k m Hk; [apply Hk|].
  destruct l as [|c' l].
  - simpl. rewrite Ascii.eqb_refl. apply Hk.
  - change (Lit (String c (String c' l))) with (Seq (Chr c) (Lit (String c' l))).
    rewrite rmatch_seq. change (String c (String c' l) +:+ s) with (String c (String c' l +:+ s)).
    simpl rmatch at 1. rewrite Ascii.eqb_refl. apply IH, Hk.
Qed.

Lemma rmatch_alt_l r1 r2 prev s caps k m :
  rmatch r1 prev s caps k = Some m -> rmatch (Alt r1 r2) prev s caps k = Some m.
Proof. intros H. simpl. rewrite H. reflexivity. Qed.

Lemma rmatch_alt_r r1 r2 prev s caps k :
  rmatch r1 prev s caps k = None ->
  rmatch (Alt r1 r2) prev s caps k = rmatch r2 prev s caps k.
Proof. intros H. simpl. rewrite H. reflexivity. Qed.

Lemma exec_here p s m : matchHere p None s = Some m -> exec p s = Some m.
Proof. intros H. unfold exec. destruct s; simpl; rewrite H; reflexivity. Qed.

(** Word characters and white space are disjoint; neither contains the
    punctuation of the declarations. *)
Lemma isWord_not_isSpace c : isWord c = true -> isSpace c = false.
Proof.
  destruct c as [b0 b1 b2 b3 b4 b5 b6 b7].
  destruct b0, b1, b2, b3, b4, b5, b6, b7; vm_compute; congruence.
Qed.

Lemma isSpace_not_isWord c : isSpace c = true -> isWord c = false.
Proof.
  destruct c as [b0 b1 b2 b3 b4 b5 b6 b7].
  destruct b0, b1, b2, b3, b4, b5, b6, b7; vm_compute; congruence.
Qed.

Lemma noneOf_run c (s : string) :
  includes c s = false -> allb (cls_mem (CNoneOf [c])) s = true.
Proof.
  induction s as [|x s IH]; simpl; [reflexivity|].
  intros H. apply orb_false_iff in H as [Hx Hs].
  rewrite (Ascii.eqb_sym x c), Hx. simpl. apply IH, Hs.
Qed.

(** ** The function pattern of JavaScript on the two declaration forms *)

(** One step of the matcher on the goal; the runs of a class are left
    to the caller. *)
Ltac rx_step :=
  cbv beta;
  lazymatch goal with
  | |- rmatch (Plus _) _ _ _ _ = _ => fail
  | |- rmatch (Seq _ _) _ _ _ _ = _ => rewrite rmatch_seq
  | |- rmatch (Grp _ _) _ _ _ _ = _ => rewrite rmatch_grp
  | |- rmatch Eps _ _ _ _ = _ => rewrite rmatch_eps
  | |- rmatch Bol _ _ _ _ = _ => rewrite rmatch_bol
  | |- rmatch (Lit _) _ _ _ _ = _ => apply rmatch_lit; intros ?
  | |- rmatch (Chr _) _ _ _ _ = _ => apply rmatch_chr; intros ?
  | |- rmatch (Alt _ _) _ _ _ _ = _ =>
      first [ rewrite rmatch_alt_r by reflexivity | apply rmatch_alt_l ]
  end.

Ltac rx := repeat rx_step; cbv beta.

(** A run of white space, a run of word characters. *)
Ltac rx_plus := apply rmatch_plus_run; [assumption | assumption | | intros ?]; cbv beta.

Ltac rx_star := apply rmatch_star_run; [assumption | | intros ?]; cbv beta.

Ltac unfold_pattern :=
  apply exec_here; unfold matchHere;
  cbv [js_functionPattern rx ngroups Seqs Alts asyncPrefix Opt ws wd notChr].

(** The function pattern of JavaScript on the keyword form: group 1 is
    the name, groups 2 and 3 take no part. *)
Lemma exec_keywordForm nm lineText :
  keywordForm nm lineText ->
  exists whole,
    exec js_functionPattern lineText = Some [Some whole; Some nm; None; None].
Proof.
  intros [a sp rest Ha Hsp1 Hsp [Hn1 Hn] Hrest].
  assert (stopsAt CSpace (nm +:+ rest)) as Hstop
    by (eapply stopsAt_nonempty; [apply isWord_not_isSpace|assumption|exact Hn]).
  destruct Ha as [|sp0 Hsp01 Hsp0]; eexists.
  - change ("" +:+ "function" +:+ sp +:+ nm +:+ rest)
      with ("function" +:+ sp +:+ nm +:+ rest).
    unfold_pattern. rx. rx_plus; [exact Hstop|]. rx. rx_plus; [exact Hrest|].
    rewrite consumed_append. reflexivity.
  - rewrite append_assoc.
    unfold_pattern. rx. rx_plus; [apply stopsAt_cons; reflexivity|].
    rx. rx_plus; [exact Hstop|]. rx. rx_plus; [exact Hrest|].
    rewrite consumed_append. reflexivity.
Qed.

(** The function pattern on the arrow form: group 2 is the name of the
    constant, groups 1 and 3 take no part. *)
Lemma exec_arrowForm nm lineText :
  arrowForm nm lineText ->
  exists whole,
    exec js_functionPattern lineText = Some [Some whole; None; Some nm; None].
Proof.
  intros [a sp1 sp2 sp3 b params sp4 rest Ha Hsp11 Hsp1 [Hn1 Hn] Hsp2 Hsp3 Hb Hparams Hsp4].
  apply noneOf_run in Hparams.
  assert (stopsAt CSpace (nm +:+ sp2 +:+ "=" +:+ sp3 +:+ b +:+ "(" +:+ params +:+ ")"
                            +:+ sp4 +:+ "=>" +:+ rest)) as Hstop1
    by (eapply stopsAt_nonempty; [apply isWord_not_isSpace|assumption|exact Hn]).
  assert (stopsAt CWord (sp2 +:+ "=" +:+ sp3 +:+ b +:+ "(" +:+ params +:+ ")"
                           +:+ sp4 +:+ "=>" +:+ rest)) as Hstop2
    by (eapply stopsAt_append; [apply isSpace_not_isWord|exact Hsp2|];
        apply stopsAt_cons; reflexivity).
  assert (stopsAt CSpace (b +:+ "(" +:+ params +:+ ")" +:+ sp4 +:+ "=>" +:+ rest))
    as Hstop3 by (destruct Hb; apply stopsAt_cons; reflexivity).
  destruct Ha as [|sp0 Hsp01 Hsp0], Hb as [|sp5 Hsp51 Hsp5];
    eexists;
    rewrite ?append_assoc;
    repeat match goal with
           | |- context [EmptyString +:+ ?x] => change (EmptyString +:+ x) with x
           end;
    unfold_pattern; rx.
  - rx_plus; [exact Hstop1|]. rx. rx_plus; [exact Hstop2|].
    rewrite consumed_append. rx.
    rx_star; [apply stopsAt_cons; reflexivity|]. rx.
    rx_star; [exact Hstop3|]. rx.
    rx_star; [apply stopsAt_cons; reflexivity|]. rx.
    rx_star; [apply stopsAt_cons; reflexivity|]. rx. reflexivity.
  - rx_plus; [exact Hstop1|]. rx. rx_plus; [exact Hstop2|].
    rewrite consumed_append. rx.
    rx_star; [apply stopsAt_cons; reflexivity|]. rx.
    rx_star; [exact Hstop3|]. rewrite ?append_assoc. rx.
    rx_plus; [apply stopsAt_cons; reflexivity|]. rx.
    rx_star; [apply stopsAt_cons; reflexivity|]. rx.
    rx_star; [apply stopsAt_cons; reflexivity|]. rx. reflexivity.
  - rx_plus; [apply stopsAt_cons; reflexivity|]. rx.
    rx_plus; [exact Hstop1|]. rx. rx_plus; [exact Hstop2|].
    rewrite consumed_append. rx.
    rx_star; [apply stopsAt_cons; reflexivity|]. rx.
    rx_star; [exact Hstop3|]. rx.
    rx_star; [apply stopsAt_cons; reflexivity|]. rx.
    rx_star; [apply stopsAt_cons; reflexivity|]. rx. reflexivity.
  - rx_plus; [apply stopsAt_cons; reflexivity|]. rx.
    rx_plus; [exact Hstop1|]. rx. rx_plus; [exact Hstop2|].
    rewrite consumed_append. rx.
    rx_star; [apply stopsAt_cons; reflexivity|]. rx.
    rx_star; [exact Hstop3|]. rewrite ?append_assoc. rx.
    rx_plus; [apply stopsAt_cons; reflexivity|]. rx.
    rx_star; [apply stopsAt_cons; reflexivity|]. rx.
    rx_star; [apply stopsAt_cons; reflexivity|]. rx. reflexivity.
Qed.

(** ** Parameter extraction *)

Lemma split_absent sep (s : string) : includes sep s = false -> split sep s = [s].
Proof.
  induction s as [|c s IH]; simpl; [reflexivity|].
  intros H. apply orb_false_iff in H as [Hc Hs].
  rewrite (Ascii.eqb_sym c sep), Hc, (IH Hs). reflexivity.
Qed.

Lemma includes_outside (p : ascii -> bool) sep (s : string) :
  p sep = false -> allb p s = true -> includes sep s = false.
Proof.
  intros Hsep. induction s as [|c s IH]; simpl; [reflexivity|].
  intros H. apply andb_prop in H as [Hc Hs]. rewrite (IH Hs), orb_false_r.
  destruct (Ascii.eqb_spec sep c) as [->|]; [congruence|reflexivity].
Qed.

Lemma trimEnd_word (s : string) : allb isWord s = true -> trimEnd s = s.
Proof.
  induction s as [|c s IH]; simpl; [reflexivity|].
  intros H. apply andb_prop in H as [Hc Hs]. rewrite (IH Hs).
  destruct s; [rewrite (isWord_not_isSpace c Hc)|]; reflexivity.
Qed.

Lemma trim_word (s : string) : allb isWord s = true -> trim s = s.
Proof.
  intros H. unfold trim.
  assert (trimStart s = s) as ->; [|apply trimEnd_word, H].
  destruct s as [|c s]; [reflexivity|]. simpl in *.
  apply andb_prop in H as [Hc _]. rewrite (isWord_not_isSpace c Hc). reflexivity.
Qed.

(** The parameters extracted from an identifier are the identifier. *)
Lemma extractParameters_identifier nm : identifier nm -> extractParameters nm = [nm].
Proof.
  intros [Hne Hw].
  assert (forall sep, isWord sep = false -> split sep nm = [nm]) as Hsplit
    by (intros sep Hsep; apply split_absent; eapply includes_outside; eassumption).
  assert (truthy nm = true) as Htruthy by (destruct nm; [congruence|reflexivity]).
  unfold extractParameters. rewrite (Hsplit ","%char eq_refl).
  cbn [map]. rewrite (trim_word nm Hw). cbn [List.filter]. rewrite Htruthy.
  cbn [map]. rewrite (Hsplit "="%char eq_refl). cbn [hd].
  rewrite (Hsplit ":"%char eq_refl). cbn [hd]. rewrite (trim_word nm Hw). reflexivity.
Qed.

(** ** Scope resolution *)

Lemma scanUp_found {A} (f : nat -> string -> option A) d : forall from a,
  scanUp f d from = Some (Some a) ->
  exists l lineText, (l <= from)%nat /\ lineAt d l = Some lineText /\ f l lineText = Some a.
Proof.
  induction from as [|from IH]; intros a H; simpl in H.
  - destruct (lineAt d 0) as [txt|] eqn:Hl; simpl in H; [|discriminate].
    destruct (f 0%nat txt) as [a'|] eqn:Hf; [|discriminate].
    injection H as <-. exists 0%nat, txt. auto.
  - destruct (lineAt d (S from)) as [txt|] eqn:Hl; simpl in H; [|discriminate].
    destruct (f (S from) txt) as [a'|] eqn:Hf.
    + injection H as <-. exists (S from), txt. auto.
    + destruct (IH a H) as (l & t & Hle & Hlt & Hfl). exists l, t. auto.
Qed.

Lemma scanUp_here {A} (f : nat -> string -> option A) d from lineText a :
  lineAt d from = Some lineText -> f from lineText = Some a ->
  scanUp f d from = Some (Some a).
Proof. intros Hl Hf. destruct from; simpl; rewrite Hl; simpl; rewrite Hf; reflexivity. Qed.

Lemma functionAt_startLine config l lineText fs :
  functionAt config l lineText = Some fs -> startLine fs = l.
Proof.
  unfold functionAt. destruct (exec _ _); simpl; [|discriminate].
  intros [= <-]. reflexivity.
Qed.

Lemma javascript_config : languageConfigs !! "javascript" = Some javascript.
Proof. vm_compute. reflexivity. Qed.

(** The scope found in a JavaScript document is the one that
    [functionAt] reads off its declaration line. *)
Lemma analyzeFunctionScope_javascript d position fs lineText :
  languageId d = "javascript" ->
  analyzeFunctionScope d position = Some (Some fs) ->
  lineAt d (startLine fs) = Some lineText ->
  functionAt javascript (startLine fs) lineText = Some fs.
Proof.
  intros Hlang H Hline. unfold analyzeFunctionScope in H.
  rewrite Hlang, javascript_config in H.
  apply scanUp_found in H as (l & txt & _ & Hl & Hf).
  pose proof (functionAt_startLine _ _ _ _ Hf) as Hs. rewrite Hs in Hline.
  rewrite Hl in Hline. injection Hline as <-. rewrite Hs. exact Hf.
Qed.

Lemma functionAt_keywordForm l lineText nm :
  keywordForm nm (trim lineText) ->
  exists fs, functionAt javascript l lineText = Some fs
             /\ name fs = nm /\ parameters fs = [] /\ startLine fs = l.
Proof.
  intros H. pose proof H as [a sp rest _ _ _ [Hne _] _].
  apply exec_keywordForm in H as [whole H].
  unfold functionAt. cbn [functionPattern javascript]. rewrite H.
  eexists. split; [reflexivity|]. cbn.
  destruct nm; [congruence|]. auto.
Qed.

Lemma functionAt_arrowForm l lineText nm :
  arrowForm nm (trim lineText) ->
  exists fs, functionAt javascript l lineText = Some fs
             /\ name fs = "anonymous" /\ parameters fs = [nm] /\ startLine fs = l.
Proof.
  intros H.
  assert (identifier nm) as Hid by (destruct H; assumption).
  apply exec_arrowForm in H as [whole H].
  unfold functionAt. cbn [functionPattern javascript]. rewrite H.
  eexists. split; [reflexivity|]. cbn [name parameters startLine group].
  split; [reflexivity|]. split; [|reflexivity].
  change (orElse (group [Some whole; None; Some nm; None] 2) "") with (orElse (Some nm) "").
  destruct Hid as [Hne Hw]. unfold orElse.
  destruct nm; [congruence|]. apply extractParameters_identifier. split; assumption.
Qed.

(** C9. In every JavaScript document, the scope of a function declared
    in the keyword form [function name...] has that name and an empty
    list of parameters, and the scope of a function declared as
    [const name = (...) =>] has the name anonymous and the list of
    parameters that holds just the name of the constant; a line of
    either form at the cursor is the declaration that the analyzer
    finds. *)
Theorem javascript_scope_extraction :
  forall d position,
    languageId d = "javascript" ->
    (forall fs lineText,
        analyzeFunctionScope d position = Some (Some fs) ->
        lineAt d (startLine fs) = Some lineText ->
        (forall nm, keywordForm nm (trim lineText) ->
                    name fs = nm /\ parameters fs = [])
        /\ (forall nm, arrowForm nm (trim lineText) ->
                       name fs = "anonymous" /\ parameters fs = [nm]))
    /\ (forall lineText nm,
           lineAt d (line position) = Some lineText ->
           keywordForm nm (trim lineText) \/ arrowForm nm (trim lineText) ->
           exists fs, analyzeFunctionScope d position = Some (Some fs)
                      /\ startLine fs = line position).
Proof.
  intros d position Hlang. split.
  - intros fs lineText Hfs Hline.
    pose proof (analyzeFunctionScope_javascript _ _ _ _ Hlang Hfs Hline) as Hat.
    split; intros nm Hform.
    + destruct (functionAt_keywordForm (startLine fs) lineText nm Hform)
        as (fs' & Hfs' & Hn & Hp & _).
      rewrite Hat in Hfs'. injection Hfs' as <-. auto.
    + destruct (functionAt_arrowForm (startLine fs) lineText nm Hform)
        as (fs' & Hfs' & Hn & Hp & _).
      rewrite Hat in Hfs'. injection Hfs' as <-. auto.
  - intros lineText nm Hline Hform.
    assert (exists fs, functionAt javascript (line position) lineText = Some fs
                       /\ startLine fs = line position) as (fs & Hfs & Hs).
    { destruct Hform as [Hform|Hform].
      - destruct (functionAt_keywordForm (line position) lineText nm Hform)
          as (fs & Hfs & _ & _ & Hs). eauto.
      - destruct (functionAt_arrowForm (line position) lineText nm Hform)
          as (fs & Hfs & _ & _ & Hs). eauto. }
    exists fs. split; [|exact Hs].
    unfold analyzeFunctionScope. rewrite Hlang, javascript_config.
    eapply scanUp_here; eassumption.
Qed.

(** C9 on a document with a declaration of each form. *)
Lemma javascript_scope_extraction_witness :
  languageId Scenario.mathJs = "javascript"
  /\ keywordForm "add" (trim "function add(a, b) {")
  /\ arrowForm "mul" (trim "const mul = async (a, b) => a * b;")
  /\ (exists fs, analyzeFunctionScope Scenario.mathJs (mkPosition 1 4) = Some (Some fs)
                 /\ name fs = "add" /\ parameters fs = [])
  /\ (exists fs, analyzeFunctionScope Scenario.mathJs (mkPosition 3 10) = Some (Some fs)
                 /\ name fs = "anonymous" /\ parameters fs = ["mul"]).
Proof.
  assert (keywordForm "add" (trim "function add(a, b) {")) as Hk.
  { apply (KeywordForm "add" "" " " "(a, b) {").
    - constructor.
    - discriminate.
    - reflexivity.
    - split; [discriminate|reflexivity].
    - reflexivity. }
  assert (arrowForm "mul" (trim "const mul = async (a, b) => a * b;")) as Ha.
  { apply (ArrowForm "mul" "" " " " " " " "async " "a, b" " " " a * b;").
    - constructor.
    - discriminate.
    - reflexivity.
    - split; [discriminate|reflexivity].
    - reflexivity.
    - reflexivity.
    - apply (Async " "); [discriminate|reflexivity].
    - reflexivity.
    - reflexivity. }
  split; [reflexivity|]. split; [exact Hk|]. split; [exact Ha|]. split.
  - assert (analyzeFunctionScope Scenario.mathJs (mkPosition 1 4)
            = Some (Some (mkFunctionScope "add" [] None 0 false))) as E
      by (vm_compute; reflexivity).
    eexists. split; [exact E|].
    apply (proj1 (proj1 (javascript_scope_extraction Scenario.mathJs (mkPosition 1 4) eq_refl)
                    _ "function add(a, b) {" E eq_refl) "add" Hk).
  - assert (analyzeFunctionScope Scenario.mathJs (mkPosition 3 10)
            = Some (Some (mkFunctionScope "anonymous" ["mul"] None 3 true))) as E
      by (vm_compute; reflexivity).
    eexists. split; [exact E|].
    apply (proj2 (proj1 (javascript_scope_extraction Scenario.mathJs (mkPosition 3 10) eq_refl)
                    _ "const mul = async (a, b) => a * b;" E eq_refl) "mul" Ha).
Defined.

(** ** One turn of the event loop *)

Lemma step_request w d position token w' :
  step w (Request d position token) = Some w' ->
  exists document,
    documents w !! d = Some document
    /\ w' = provideCompletionItems (nextId w) d document position token
              (setNextId (S (nextId w)) w).
Proof.
  simpl. destruct (documents w !! d) as [document|]; simpl; [|discriminate].
  intros [= <-]. eauto.
Qed.

Lemma step_fire w id w' :
  step w (Fire id) = Some w' ->
  exists tm,
    timers w !! id = Some tm /\ (due tm <= now w)%Z
    /\ w' = timerCallback id tm (setTimers (delete id (timers w)) w).
Proof.
  simpl. destruct (timers w !! id) as [tm|]; simpl; [|discriminate].
  destruct (Z.leb_spec (due tm) (now w)); [|discriminate].
  intros [= <-]. eauto.
Qed.

Lemma step_respond w id o w' :
  step w (Respond id o) = Some w' ->
  exists c,
    inflight w !! id = Some c
    /\ w' = resume id c o (setInflight (delete id (inflight w)) w).
Proof.
  simpl. destruct (inflight w !! id) as [c|]; simpl; [|discriminate].
  intros [= <-]. eauto.
Qed.

Lemma getCompletionSuggestions_hit id d document position token w K e :
  buildCacheKey document position = Some K ->
  cache w !! K = Some e ->
  (now w - timestamp e < CACHE_DURATION)%Z ->
  getCompletionSuggestions id d document position token w
  = Some (resolve id [text e] w).
Proof.
  intros HK He Hage. unfold getCompletionSuggestions. rewrite HK. simpl.
  rewrite He. destruct (Z.ltb_spec (now w - timestamp e) CACHE_DURATION); [reflexivity|lia].
Qed.

(** What a request that finds no live entry does: cancel the timer
    registered for the key, if any, and register a new one. *)
Lemma getCompletionSuggestions_miss id d document position token w K :
  buildCacheKey document position = Some K ->
  (forall e, cache w !! K = Some e -> (CACHE_DURATION <= now w - timestamp e)%Z) ->
  getCompletionSuggestions id d document position token w
  = Some (scheduled id d position token K w).
Proof.
  intros HK Hstale. unfold getCompletionSuggestions, scheduled. rewrite HK. simpl.
  destruct (cache w !! K) as [e|] eqn:He.
  - specialize (Hstale e eq_refl).
    destruct (Z.ltb_spec (now w - timestamp e) CACHE_DURATION); [lia|].
    destruct (debounceMap w !! K); reflexivity.
  - destruct (debounceMap w !! K); reflexivity.
Qed.

Lemma provideCompletionItems_shape id d document position token w :
  (exists v, provideCompletionItems id d document position token w = resolve id v w)
  \/ (exists K,
        buildCacheKey document position = Some K
        /\ enabled (config w) = true
        /\ isCancellationRequested token w = false
        /\ (forall e, cache w !! K = Some e -> (CACHE_DURATION <= now w - timestamp e)%Z)
        /\ provideCompletionItems id d document position token w
           = scheduled id d position token K w).
Proof.
  unfold provideCompletionItems.
  destruct (enabled (config w)) eqn:Hen; simpl; [|eauto].
  destruct (isCancellationRequested token w) eqn:Hc; [eauto|].
  destruct (buildCacheKey document position) as [K|] eqn:HK.
  - destruct (cache w !! K) as [e|] eqn:He.
    + destruct (Z.ltb_spec (now w - timestamp e) CACHE_DURATION) as [Hlt|Hge].
      * left. exists [text e].
        rewrite (getCompletionSuggestions_hit _ _ _ _ _ _ K e HK He Hlt). reflexivity.
      * right. exists K. repeat split; try assumption.
        -- intros e' He'. assert (e' = e) as -> by congruence. exact Hge.
        -- rewrite (getCompletionSuggestions_miss _ _ _ _ _ _ K HK); [reflexivity|].
           intros e' He'. assert (e' = e) as -> by congruence. exact Hge.
    + right. exists K. repeat split; try assumption.
      * intros e' He'. congruence.
      * rewrite (getCompletionSuggestions_miss _ _ _ _ _ _ K HK); [reflexivity|].
        intros e' He'. congruence.
  - left. exists []. unfold getCompletionSuggestions. rewrite HK. reflexivity.
Qed.

Lemma provideCompletionItems_tokenCounter id d document position token w :
  tokenCounter (provideCompletionItems id d document position token w)
  = tokenCounter w.
Proof.
  unfold provideCompletionItems, getCompletionSuggestions.
  destruct (negb (enabled (config w))); [reflexivity|].
  destruct (isCancellationRequested token w); [reflexivity|].
  destruct (buildCacheKey document position) as [k|]; simpl; [|reflexivity].
  destruct (cache w !! k) as [e|]; [destruct (_ <? _)%Z|]; try reflexivity;
    destruct (debounceMap w !! k); reflexivity.
Qed.

Lemma timerCallback_shape id tm w :
  timerCallback id tm w = finally (timerKey tm) (resolve id [] w)
  \/ (exists request,
        isCancellationRequested (timerToken tm) w = false
        /\ requestAt w (timerDocument tm) (timerPosition tm) = Some request
        /\ truthy (trim (prompt request)) = true
        /\ timerCallback id tm w = issued id (timerKey tm) request w).
Proof.
  unfold timerCallback, requestAt.
  destruct (isCancellationRequested (timerToken tm) w); [auto|].
  destruct (_ ≫= _) as [request|]; [|auto].
  destruct (truthy (trim (prompt request))) eqn:Hp; simpl; [|auto].
  right. exists request. auto.
Qed.

Lemma timerCallback_cancelled id tm w :
  isCancellationRequested (timerToken tm) w = true ->
  timerCallback id tm w = finally (timerKey tm) (resolve id [] w).
Proof. intros H. unfold timerCallback. rewrite H. reflexivity. Qed.

Lemma timerCallback_tokenCounter id tm w :
  tokenCounter (timerCallback id tm w) = tokenCounter w.
Proof.
  unfold timerCallback.
  destruct (isCancellationRequested _ w); [reflexivity|].
  destruct (_ ≫= _) as [rq|]; [|reflexivity].
  destruct (negb _); reflexivity.
Qed.

(** What the continuation of a callback leaves alone. *)
Lemma resume_frame id c o w :
  timers (resume id c o w) = timers w
  /\ inflight (resume id c o w) = inflight w
  /\ debounceMap (resume id c o w) = delete (callKey c) (debounceMap w)
  /\ nextId (resume id c o w) = nextId w
  /\ calls (resume id c o w) = calls w
  /\ cancelled (resume id c o w) = cancelled w
  /\ documents (resume id c o w) = documents w
  /\ now (resume id c o w) = now w.
Proof.
  unfold resume. destruct o as [r|]; [|simpl; auto 10].
  destruct (success r && truthy (trim (respText r))); [|simpl; auto 10].
  destruct (truthyNum (inputTokens r) && truthyNum (outputTokens r)); simpl; auto 10.
Qed.

Lemma resume_settled id c o w :
  settled (resume id c o w) = <[id := suggestions o]> (settled w).
Proof.
  unfold resume, suggestions. destruct o as [r|]; [|reflexivity].
  destruct (success r && truthy (trim (respText r))); [|reflexivity].
  destruct (truthyNum (inputTokens r) && truthyNum (outputTokens r)); reflexivity.
Qed.

(** The token counter after the continuation of a callback. *)
Lemma resume_tokenCounter id c o w :
  tokenCounter (resume id c o w)
  = match o with
    | Fulfilled r =>
        match usage r with
        | Some (i, o) => TokenCounter.addTokens i o (tokenCounter w)
        | None => tokenCounter w
        end
    | Rejected => tokenCounter w
    end.
Proof.
  unfold resume, usage. destruct o as [r|]; [|reflexivity].
  destruct (success r && truthy (trim (respText r))); [|reflexivity].
  destruct (inputTokens r) as [i|], (outputTokens r) as [o|]; simpl;
    try reflexivity; try (destruct (Number.truthy i); reflexivity).
  destruct (Number.truthy i), (Number.truthy o); reflexivity.
Qed.

(** The cache after the continuation of a callback whose call succeeded
    with a text that is not blank. *)
Lemma resume_cache_written id c r w :
  success r = true -> truthy (trim (respText r)) = true ->
  cache (resume id c (Fulfilled r) w)
  = filter (fun kv : string * CompletionCache =>
              (now w - timestamp kv.2 <= CACHE_DURATION)%Z)
      (<[callKey c := mkCompletionCache (respText r) (now w) (reqContext (callRequest c))]>
         (cache w)).
Proof.
  intros Hs Ht. unfold resume. rewrite Hs, Ht. simpl.
  destruct (truthyNum (inputTokens r) && truthyNum (outputTokens r)); reflexivity.
Qed.

Lemma resume_cache_unwritten id c o w :
  suggestions o = [] -> cache (resume id c o w) = cache w.
Proof.
  unfold resume, suggestions. destruct o as [r|]; [|reflexivity].
  destruct (success r && truthy (trim (respText r))); [discriminate|reflexivity].
Qed.

Lemma resume_setCancelled id c o toks w :
  resume id c o (setCancelled toks w) = setCancelled toks (resume id c o w).
Proof.
  unfold resume. destruct o as [r|]; [|reflexivity].
  destruct (success r && truthy (trim (respText r))); [|reflexivity].
  destruct (truthyNum (inputTokens r) && truthyNum (outputTokens r)); reflexivity.
Qed.

(** [clearCache] only removes timers. *)
Lemma clearCache_timers w id tm :
  timers (clearCache w) !! id = Some tm -> timers w !! id = Some tm.
Proof.
  unfold clearCache. simpl.
  apply (map_fold_weak_ind
           (fun (r : gmap nat Timer) (_ : gmap string nat) =>
              r !! id = Some tm -> timers w !! id = Some tm)).
  - auto.
  - intros k h m r _ IH H. apply lookup_delete_Some in H as [_ H]. auto.
Qed.

Lemma clearCache_registered w k h :
  debounceMap w !! k = Some h -> timers (clearCache w) !! h = None.
Proof.
  unfold clearCache. simpl. revert k h.
  apply (map_fold_weak_ind
           (fun (r : gmap nat Timer) (m : gmap string nat) =>
              forall k h, m !! k = Some h -> r !! h = None)).
  - intros k h H. rewrite lookup_empty in H. discriminate.
  - intros i x m r _ IH k h H. apply lookup_delete_None.
    destruct (decide (x = h)) as [|Hne]; [auto|]. right.
    apply lookup_insert_Some in H as [[_ ?]|[_ H]]; [congruence|]. eauto.
Qed.

(** The clock does not go back. *)
Lemma step_now w e w' : step w e = Some w' -> (now w <= now w')%Z.
Proof.
  intros H. destruct e as [d pos tok|id|id o|tok|dt|d doc|c|].
  - apply step_request in H as (doc & _ & ->).
    unfold provideCompletionItems, getCompletionSuggestions.
    destruct (negb _); [reflexivity|]. destruct (isCancellationRequested _ _); [reflexivity|].
    destruct (buildCacheKey doc pos) as [k|]; simpl; [|reflexivity].
    destruct (cache w !! k) as [en|]; [destruct (_ <? _)%Z|]; try reflexivity;
      destruct (debounceMap w !! k); reflexivity.
  - apply step_fire in H as (tm & _ & _ & ->). unfold timerCallback.
    destruct (isCancellationRequested _ _); [reflexivity|].
    destruct (_ ≫= _) as [rq|]; [|reflexivity]. destruct (negb _); reflexivity.
  - apply step_respond in H as (c & _ & ->). unfold resume.
    destruct o as [r|]; [|reflexivity].
    destruct (success r && truthy (trim (respText r))); [|reflexivity].
    destruct (truthyNum (inputTokens r) && truthyNum (outputTokens r)); reflexivity.
  - simpl in H. injection H as <-. reflexivity.
  - simpl in H. destruct (Z.leb_spec 0 dt); [|discriminate]. injection H as <-. simpl. lia.
  - simpl in H. injection H as <-. reflexivity.
  - simpl in H. injection H as <-. reflexivity.
  - simpl in H. injection H as <-. reflexivity.
Qed.

Lemma runAvoiding_now bad es : forall w w',
  runAvoiding bad w es = Some w' -> (now w <= now w')%Z.
Proof.
  induction es as [|e es IH]; intros w w' H; simpl in H.
  - injection H as <-. reflexivity.
  - destruct (bad w e); [discriminate|].
    destruct (step w e) as [w1|] eqn:E; simpl in H; [|discriminate].
    pose proof (step_now _ _ _ E). pose proof (IH _ _ H). lia.
Qed.

(** ** The settings that the provider reads *)

(** Of the settings, the provider only reads [enabled]: changing
    [delay] and [cacheEnabled] changes nothing in what any event does. *)
Lemma step_ignores_other_settings w e c :
  enabled c = enabled (config w) ->
  step (setConfig c w) e
  = (match e with Configure _ => fun w' => w' | _ => setConfig c end) <$> step w e.
Proof.
  intros Hen. destruct e as [d p t|id|id o|t|dt|d doc|c'|]; simpl.
  - destruct (documents w !! d) as [doc|]; simpl; [|reflexivity]. f_equal.
    unfold provideCompletionItems, getCompletionSuggestions. simpl. rewrite Hen.
    destruct (negb (enabled (config w))); [reflexivity|].
    unfold isCancellationRequested. simpl.
    destruct (bool_decide (t ∈ cancelled w)); [reflexivity|].
    destruct (buildCacheKey doc p) as [k|]; simpl; [|reflexivity].
    destruct (cache w !! k) as [en|]; [destruct (_ <? _)%Z|]; try reflexivity;
      destruct (debounceMap w !! k); reflexivity.
  - destruct (timers w !! id) as [tm|]; simpl; [|reflexivity].
    destruct (due tm <=? now w)%Z; [|reflexivity]. simpl. f_equal.
    unfold timerCallback, isCancellationRequested. simpl.
    destruct (bool_decide (timerToken tm ∈ cancelled w)); [reflexivity|].
    destruct (_ ≫= _) as [rq|]; [|reflexivity].
    destruct (negb _); reflexivity.
  - destruct (inflight w !! id) as [cl|]; simpl; [|reflexivity]. f_equal.
    unfold resume. destruct o as [r|]; [|reflexivity]. simpl.
    destruct (success r && truthy (trim (respText r))); [|reflexivity].
    destruct (truthyNum (inputTokens r) && truthyNum (outputTokens r)); reflexivity.
  - reflexivity.
  - destruct (0 <=? dt)%Z; reflexivity.
  - reflexivity.
  - reflexivity.
  - reflexivity.
Qed.

(** C3, on the code: with [cacheEnabled] false a successful response is
    written to the cache all the same, and the next request for the key
    is answered from the cache, without a timer and without a backend
    call. *)
Theorem cache_used_although_disabled :
  let c := mkConfig true 500 false in
  exists w1 w2,
    run (Scenario.world c)
      [Request 0 Scenario.cursor 0; Tick 500; Fire 0;
       Respond 0 (Fulfilled (Scenario.answer "x" (Some 3%Z) (Some 4%Z)))] = Some w1
    /\ cacheEnabled (config w1) = false
    /\ text <$> cache w1 !! Scenario.typingKey = Some "x"
    /\ step w1 (Request 0 Scenario.cursor 1) = Some w2
    /\ cacheEnabled (config w2) = false
    /\ settled w2 !! 1%nat = Some ["x"]
    /\ calls w2 = calls w1
    /\ timers w2 = ∅.
Proof.
  evaluate.
Qed.

(** C4, on the code: with the valid setting [delay] = 1000 a request
    made at time 0 gets a timer due at time 500, which fires and calls
    the backend at time 500. *)
Theorem debounce_delay_is_fixed :
  let c := mkConfig true 1000 true in
  ConfigManager.validDelay (delay c) = true
  /\ exists w1 w2,
       step (Scenario.world c) (Request 0 Scenario.cursor 0) = Some w1
       /\ due <$> timers w1 !! 0%nat = Some 500%Z
       /\ run w1 [Tick 500; Fire 0] = Some w2
       /\ now w2 = 500%Z
       /\ delay (config w2) = 1000%Z
       /\ length (calls w2) = 1%nat.
Proof.
  split; [reflexivity|]. evaluate.
Qed.

(** ** The cache *)

Lemma cleanCache_lookup w k e :
  cache (cleanCache w) !! k = Some e
  <-> cache w !! k = Some e /\ (now w - timestamp e <= CACHE_DURATION)%Z.
Proof. unfold cleanCache. simpl. rewrite map_lookup_filter_Some. reflexivity. Qed.

(** An entry that is not older than the time-to-live survives every
    event but the clearing of the cache and a new write under its key. *)
Lemma entry_step K en w e w' :
  cache w !! K = Some en ->
  clears e || writesKey K w e = false ->
  step w e = Some w' ->
  (now w - timestamp en <= CACHE_DURATION)%Z ->
  cache w' !! K = Some en.
Proof.
  intros Hen Hbad H Hage. apply orb_false_iff in Hbad as [Hclear Hwrite].
  destruct e as [d pos tok|id|id o|tok|dt|d doc|c|].
  - apply step_request in H as (doc & _ & ->).
    unfold provideCompletionItems, getCompletionSuggestions.
    destruct (negb _); [exact Hen|]. destruct (isCancellationRequested _ _); [exact Hen|].
    destruct (buildCacheKey doc pos) as [k|]; simpl; [|exact Hen].
    destruct (cache w !! k) as [en'|]; [destruct (_ <? _)%Z|]; try exact Hen;
      destruct (debounceMap w !! k); exact Hen.
  - apply step_fire in H as (tm & _ & _ & ->). unfold timerCallback.
    destruct (isCancellationRequested _ _); [exact Hen|].
    destruct (_ ≫= _) as [rq|]; [|exact Hen]. destruct (negb _); exact Hen.
  - apply step_respond in H as (c & Hc & ->). simpl in Hwrite. rewrite Hc in Hwrite.
    destruct o as [r|]; [|exact Hen].
    destruct (success r && truthy (trim (respText r))) eqn:Hs.
    + apply andb_prop in Hs as [Hs Ht].
      rewrite resume_cache_written by assumption. simpl.
      rewrite Hs, Ht, !andb_true_r in Hwrite. apply bool_decide_eq_false in Hwrite.
      apply map_lookup_filter_Some. rewrite lookup_insert_ne by exact Hwrite.
      split; [exact Hen|exact Hage].
    + rewrite resume_cache_unwritten; [exact Hen|]. simpl. rewrite Hs. reflexivity.
  - simpl in H. injection H as <-. exact Hen.
  - simpl in H. destruct (0 <=? dt)%Z; [|discriminate]. injection H as <-. exact Hen.
  - simpl in H. injection H as <-. exact Hen.
  - simpl in H. injection H as <-. exact Hen.
  - discriminate.
Qed.

Lemma entry_run K en es : forall w w',
  cache w !! K = Some en ->
  runAvoiding (fun w e => clears e || writesKey K w e) w es = Some w' ->
  (now w' - timestamp en <= CACHE_DURATION)%Z ->
  cache w' !! K = Some en.
Proof.
  induction es as [|e es IH]; intros w w' Hen H Hage; simpl in H.
  - injection H as <-. exact Hen.
  - destruct (clears e || writesKey K w e) eqn:Hbad; [discriminate|].
    destruct (step w e) as [w1|] eqn:E; simpl in H; [|discriminate].
    pose proof (runAvoiding_now _ _ _ _ H) as Hnow1.
    pose proof (step_now _ _ _ E) as Hnow.
    eapply IH; [|exact H|exact Hage].
    eapply entry_step; try eassumption. lia.
Qed.

(** A successful response with a text that is not blank is stored under
    the key of its call, stamped with the current time; the other
    entries survive when they are not older than the time-to-live. *)
Lemma respond_success_cache w id c r w' :
  inflight w !! id = Some c ->
  success r = true -> truthy (trim (respText r)) = true ->
  step w (Respond id (Fulfilled r)) = Some w' ->
  cache w' !! callKey c
  = Some (mkCompletionCache (respText r) (now w) (reqContext (callRequest c)))
  /\ forall k e, k <> callKey c ->
       (cache w' !! k = Some e
        <-> cache w !! k = Some e /\ (now w - timestamp e <= 30000)%Z).
Proof.
  intros Hc Hs Ht H.
  apply step_respond in H as (c' & Hc' & ->).
  rewrite Hc in Hc'. injection Hc' as <-.
  rewrite resume_cache_written by assumption. simpl. split.
  - apply map_lookup_filter_Some. split; [apply lookup_insert_eq|].
    simpl. unfold CACHE_DURATION. lia.
  - intros k e Hk. rewrite map_lookup_filter_Some.
    rewrite lookup_insert_ne by congruence. reflexivity.
Qed.

(** C6 (as amended). A cache entry written at time T under key K stays
    in the cache up to time T + 30000 unless the cache is cleared or a
    newer answer is written under K; as long as it is in the cache, a
    lookup of K at a time T' with T' - T < 30000 returns it verbatim,
    with no backend call; for T' - T >= 30000 it is treated as absent
    and a new timer is registered for K; every successful write purges
    the entries older than the time-to-live (and keeps the others). *)
Theorem cache_time_to_live :
  (forall w id c r w',
      inflight w !! id = Some c ->
      success r = true -> truthy (trim (respText r)) = true ->
      step w (Respond id (Fulfilled r)) = Some w' ->
      cache w' !! callKey c
      = Some (mkCompletionCache (respText r) (now w) (reqContext (callRequest c)))
      /\ forall k e, k <> callKey c ->
           (cache w' !! k = Some e
            <-> cache w !! k = Some e /\ (now w - timestamp e <= 30000)%Z))
  /\ (forall K e w es w',
         cache w !! K = Some e ->
         runAvoiding (fun w ev => clears ev || writesKey K w ev) w es = Some w' ->
         (now w' - timestamp e <= 30000)%Z ->
         cache w' !! K = Some e)
  /\ (forall w id d document position token K e,
         buildCacheKey document position = Some K ->
         cache w !! K = Some e ->
         (now w - timestamp e < 30000)%Z ->
         getCompletionSuggestions id d document position token w
         = Some (resolve id [text e] w)
         /\ calls (resolve id [text e] w) = calls w
         /\ timers (resolve id [text e] w) = timers w)
  /\ (forall w id d document position token K e,
         buildCacheKey document position = Some K ->
         cache w !! K = Some e ->
         (30000 <= now w - timestamp e)%Z ->
         exists w',
           getCompletionSuggestions id d document position token w = Some w'
           /\ timers w' !! id = Some (mkTimer K d position token (now w + DEBOUNCE_DELAY))
           /\ debounceMap w' !! K = Some id
           /\ settled w' = settled w
           /\ calls w' = calls w).
Proof.
  split; [|split; [|split]].
  - intros w id c r w' Hc Hs Ht H. eapply respond_success_cache; eassumption.
  - intros K e w es w' He Hrun Hage. eapply entry_run; eassumption.
  - intros w id d document position token K e HK He Hage. split; [|split].
    + eapply getCompletionSuggestions_hit; eassumption.
    + reflexivity.
    + reflexivity.
  - intros w id d document position token K e HK He Hage.
    eexists. split.
    + apply getCompletionSuggestions_miss; [exact HK|].
      intros e' He'. rewrite He in He'. injection He' as <-. exact Hage.
    + simpl. rewrite !lookup_insert_eq. auto.
Qed.

(** C6 as stated fails: the entry written at time 500 is dropped when
    a document is closed, and a lookup of its key one millisecond after
    the write is not answered from the cache: a timer is set. *)
Lemma cleared_entry_is_not_served :
  exists ctx w w',
    cache Scenario.answered !! Scenario.typingKey = Some (mkCompletionCache "x" 500 ctx)
    /\ run Scenario.answered [ClearCache; Tick 1] = Some w
    /\ now w = 501%Z
    /\ cache w !! Scenario.typingKey = None
    /\ step w (Request 0 Scenario.cursor 1) = Some w'
    /\ settled w' !! 1%nat = None
    /\ due <$> timers w' !! 1%nat = Some 1001%Z
    /\ calls w' = calls Scenario.answered.
Proof.
  evaluate.
Qed.

(** C6 (as amended) on a run: an answer written at time 500 is served
    at time 30499 and not at time 30500. *)
Lemma cache_time_to_live_witness :
  run (Scenario.world ConfigManager.defaultConfig)
    [Request 0 Scenario.cursor 0; Tick 500; Fire 0] = Some Scenario.asked
  /\ step Scenario.asked (Respond 0 (Fulfilled (Scenario.answer "x" (Some 3%Z) (Some 4%Z))))
     = Some Scenario.answered
  /\ (exists ctx, cache Scenario.answered !! Scenario.typingKey
                  = Some (mkCompletionCache "x" 500 ctx))
  /\ runAvoiding (fun w ev => clears ev || writesKey Scenario.typingKey w ev)
       Scenario.answered [Tick 29999] = Some (setNow 30499 Scenario.answered)
  /\ (exists ctx, cache (setNow 30499 Scenario.answered) !! Scenario.typingKey
                  = Some (mkCompletionCache "x" 500 ctx))
  /\ getCompletionSuggestions 1 0 Scenario.typing Scenario.cursor 1
       (setNow 30499 Scenario.answered)
     = Some (resolve 1 ["x"] (setNow 30499 Scenario.answered))
  /\ (exists w',
        getCompletionSuggestions 1 0 Scenario.typing Scenario.cursor 1
          (setNow 30500 Scenario.answered) = Some w'
        /\ due <$> timers w' !! 1%nat = Some 31000%Z).
Proof.
  assert (runAvoiding (fun w ev => clears ev || writesKey Scenario.typingKey w ev)
            Scenario.answered [Tick 29999] = Some (setNow 30499 Scenario.answered))
    as Hrun by (vm_compute; reflexivity).
  split; [vm_compute; reflexivity|]. split; [vm_compute; reflexivity|].
  split; [|split; [exact Hrun|split; [|split]]].
  - eexists.
    refine (proj1 (proj1 cache_time_to_live Scenario.asked 0%nat Scenario.theCall
                     (Scenario.answer "x" (Some 3%Z) (Some 4%Z)) Scenario.answered
                     _ _ _ _));
      vm_compute; reflexivity.
  - eexists.
    refine (proj1 (proj2 cache_time_to_live) Scenario.typingKey
              (mkCompletionCache "x" 500 (reqContext (callRequest Scenario.theCall)))
              Scenario.answered [Tick 29999] (setNow 30499 Scenario.answered) _ Hrun _).
    + vm_compute; reflexivity.
    + vm_compute. discriminate.
  - refine (proj1 (proj1 (proj2 (proj2 cache_time_to_live)) (setNow 30499 Scenario.answered)
                     1%nat 0%nat Scenario.typing Scenario.cursor 1%nat
                     Scenario.typingKey
                     (mkCompletionCache "x" 500 (reqContext (callRequest Scenario.theCall)))
                     _ _ _));
      vm_compute; reflexivity.
  - destruct (proj2 (proj2 (proj2 cache_time_to_live)) (setNow 30500 Scenario.answered)
                1%nat 0%nat Scenario.typing Scenario.cursor 1%nat
                Scenario.typingKey
                (mkCompletionCache "x" 500 (reqContext (callRequest Scenario.theCall))))
      as (w' & H & Ht & _).
    + vm_compute; reflexivity.
    + vm_compute; reflexivity.
    + vm_compute. discriminate.
    + exists w'. split; [exact H|]. rewrite Ht. reflexivity.
Defined.

(** ** Token usage *)

(** C7 (as amended). The token counter is invoked exactly once, with the
    response's input and output token counts, for every backend response
    that is successful, whose text is not blank and whose two counts are
    present and truthy (neither zero nor NaN); it is not invoked for any
    other response, and
    no other event invokes it: in particular not a request, whether it
    is answered from the cache or not. *)
Theorem token_usage_accounting :
  (forall w id r w',
      step w (Respond id (Fulfilled r)) = Some w' ->
      tokenCounter w'
      = match usage r with
        | Some (i, o) => TokenCounter.addTokens i o (tokenCounter w)
        | None => tokenCounter w
        end)
  /\ (forall w e w',
         step w e = Some w' ->
         (forall id r, e <> Respond id (Fulfilled r)) ->
         tokenCounter w' = tokenCounter w).
Proof.
  split.
  - intros w id r w' H. apply step_respond in H as (c & _ & ->).
    rewrite resume_tokenCounter. reflexivity.
  - intros w e w' H Hne. destruct e as [d p t|id|id o|t|dt|d doc|c|].
    + apply step_request in H as (doc & _ & ->).
      rewrite provideCompletionItems_tokenCounter. reflexivity.
    + apply step_fire in H as (tm & _ & _ & ->).
      rewrite timerCallback_tokenCounter. reflexivity.
    + apply step_respond in H as (c & _ & ->).
      rewrite resume_tokenCounter. destruct o as [r|]; [|reflexivity].
      exfalso. eapply Hne. reflexivity.
    + simpl in H. injection H as <-. reflexivity.
    + simpl in H. destruct (0 <=? dt)%Z; [|discriminate]. injection H as <-. reflexivity.
    + simpl in H. injection H as <-. reflexivity.
    + simpl in H. injection H as <-. reflexivity.
    + simpl in H. injection H as <-. reflexivity.
Qed.

(** C7 as stated fails: a successful response that carries no usage
    (both counts 0, as the service reports them then) is returned to the
    caller and the token counter is not invoked. *)
Lemma successful_response_not_counted :
  exists w w',
    run (Scenario.world ConfigManager.defaultConfig)
      [Request 0 Scenario.cursor 0; Tick 500; Fire 0] = Some w
    /\ success (Scenario.answer "x" (Some 0%Z) (Some 0%Z)) = true
    /\ step w (Respond 0 (Fulfilled (Scenario.answer "x" (Some 0%Z) (Some 0%Z)))) = Some w'
    /\ settled w' !! 0%nat = Some ["x"]
    /\ tokenCounter w' = tokenCounter w.
Proof.
  evaluate.
Qed.

(** C7 (as amended) on a run: an answer with the usage 3 and 4 is
    counted once, the request served from the cache is not. *)
Lemma token_usage_accounting_witness :
  step Scenario.asked (Respond 0 (Fulfilled (Scenario.answer "x" (Some 3%Z) (Some 4%Z))))
  = Some Scenario.answered
  /\ tokenCounter Scenario.answered
     = TokenCounter.addTokens (Number.ofZ 3) (Number.ofZ 4) (tokenCounter Scenario.asked)
  /\ step Scenario.answered (Request 0 Scenario.cursor 1) = Some Scenario.served
  /\ settled Scenario.served !! 1%nat = Some ["x"]
  /\ tokenCounter Scenario.served = tokenCounter Scenario.answered.
Proof.
  split; [vm_compute; reflexivity|]. split.
  { apply (proj1 token_usage_accounting Scenario.asked 0%nat
             (Scenario.answer "x" (Some 3%Z) (Some 4%Z)) Scenario.answered).
    vm_compute; reflexivity. }
  split; [vm_compute; reflexivity|]. split; [vm_compute; reflexivity|].
  apply (proj2 token_usage_accounting Scenario.answered (Request 0 Scenario.cursor 1)
           Scenario.served).
  - vm_compute; reflexivity.
  - intros id r. discriminate.
Defined.

(** ** Cancellation *)

(** C2 (as amended). The signal is read when the scheduled execution
    fires, before the backend is called: if it is set then, the pipeline
    calls no backend, writes nothing to the cache, does not invoke the
    token counter and resolves with the empty sequence.  Once the call
    is issued the signal is not read again: the response is handled in
    the same way whatever signals are set, and a successful response
    with a text that is not blank is cached and resolves the promise
    with that text. *)
Theorem cancellation_is_checked_before_the_call :
  (forall w id tm w',
      timers w !! id = Some tm ->
      isCancellationRequested (timerToken tm) w = true ->
      step w (Fire id) = Some w' ->
      calls w' = calls w /\ inflight w' = inflight w /\ cache w' = cache w
      /\ tokenCounter w' = tokenCounter w /\ settled w' !! id = Some [])
  /\ (forall w id o toks,
         step (setCancelled toks w) (Respond id o)
         = setCancelled toks <$> step w (Respond id o))
  /\ (forall w id c r w',
         inflight w !! id = Some c ->
         success r = true -> truthy (trim (respText r)) = true ->
         step w (Respond id (Fulfilled r)) = Some w' ->
         cache w' !! callKey c
         = Some (mkCompletionCache (respText r) (now w) (reqContext (callRequest c)))
         /\ settled w' !! id = Some [respText r]).
Proof.
  split; [|split].
  - intros w id tm w' Htm Hc H.
    apply step_fire in H as (tm' & Htm' & _ & ->).
    rewrite Htm in Htm'. injection Htm' as <-.
    rewrite timerCallback_cancelled by exact Hc. simpl.
    rewrite lookup_insert_eq. auto.
  - intros w id o toks. simpl.
    destruct (inflight w !! id) as [c|]; simpl; [|reflexivity].
    f_equal. apply (resume_setCancelled id c o toks (setInflight _ w)).
  - intros w id c r w' Hc Hs Ht H.
    split; [exact (proj1 (respond_success_cache _ _ _ _ _ Hc Hs Ht H))|].
    apply step_respond in H as (c' & _ & ->).
    rewrite resume_settled. unfold suggestions. rewrite Hs, Ht. simpl.
    apply lookup_insert_eq.
Qed.

(** C2 as stated fails: the signal is set after the call was issued and
    before the response arrives, and the response is cached, counted and
    returned. *)
Lemma response_after_cancellation_is_kept :
  exists w w',
    run (Scenario.world ConfigManager.defaultConfig)
      [Request 0 Scenario.cursor 7; Tick 500; Fire 0; Cancel 7] = Some w
    /\ isCancellationRequested 7 w = true
    /\ cache w !! Scenario.typingKey = None
    /\ TokenCounter.requestCount (TokenCounter.getStats (tokenCounter w)) = Number.ofZ 0
    /\ step w (Respond 0 (Fulfilled (Scenario.answer "x" (Some 3%Z) (Some 4%Z)))) = Some w'
    /\ text <$> cache w' !! Scenario.typingKey = Some "x"
    /\ TokenCounter.requestCount (TokenCounter.getStats (tokenCounter w')) = Number.ofZ 1
    /\ settled w' !! 0%nat = Some ["x"].
Proof.
  evaluate.
Qed.

(** C2 (as amended) on a run: the signal is set before the timer
    fires. *)
Lemma cancellation_is_checked_before_the_call_witness :
  run (Scenario.world ConfigManager.defaultConfig)
    [Request 0 Scenario.cursor 7; Cancel 7; Tick 500] = Some Scenario.cancelledEarly
  /\ timers Scenario.cancelledEarly !! 0%nat = Some Scenario.theTimer
  /\ isCancellationRequested (timerToken Scenario.theTimer) Scenario.cancelledEarly = true
  /\ exists w',
       step Scenario.cancelledEarly (Fire 0) = Some w'
       /\ calls w' = calls Scenario.cancelledEarly
       /\ inflight w' = inflight Scenario.cancelledEarly
       /\ cache w' = cache Scenario.cancelledEarly
       /\ tokenCounter w' = tokenCounter Scenario.cancelledEarly
       /\ settled w' !! 0%nat = Some [].
Proof.
  split; [vm_compute; reflexivity|]. split; [vm_compute; reflexivity|].
  split; [vm_compute; reflexivity|].
  eexists. split; [vm_compute; reflexivity|].
  apply (proj1 cancellation_is_checked_before_the_call Scenario.cancelledEarly 0%nat
           Scenario.theTimer);
    vm_compute; reflexivity.
Defined.

(** ** Promises *)

(** A promise that nothing can settle any more stays unsettled. *)
Lemma abandoned_step p w e w' :
  abandoned p w -> step w e = Some w' -> abandoned p w'.
Proof.
  intros (Hs & Ht & Hi & Hn) H. unfold abandoned.
  destruct e as [d pos tok|id|id o|tok|dt|d doc|c|].
  - apply step_request in H as (doc & _ & ->).
    destruct (provideCompletionItems_shape (nextId w) d doc pos tok
                (setNextId (S (nextId w)) w)) as [[v ->]|(K & _ & _ & _ & _ & ->)]; simpl.
    + rewrite lookup_insert_ne by lia. auto with lia.
    + rewrite lookup_insert_ne by lia.
      destruct (debounceMap w !! K); [rewrite lookup_delete_None|]; auto with lia.
  - apply step_fire in H as (tm & Htm & _ & ->).
    assert (id <> p) by congruence.
    destruct (timerCallback_shape id tm (setTimers (delete id (timers w)) w))
      as [->|(rq & _ & _ & _ & ->)]; simpl.
    + rewrite lookup_insert_ne, lookup_delete_None by assumption. auto.
    + rewrite lookup_insert_ne, lookup_delete_None by assumption. auto.
  - apply step_respond in H as (c & Hc & ->).
    assert (id <> p) by congruence.
    destruct (resume_frame id c o (setInflight (delete id (inflight w)) w))
      as (-> & -> & _ & -> & _).
    rewrite resume_settled. simpl.
    rewrite lookup_insert_ne, lookup_delete_None by assumption. auto.
  - simpl in H. injection H as <-. simpl. auto.
  - simpl in H. destruct (0 <=? dt)%Z; [|discriminate]. injection H as <-. simpl. auto.
  - simpl in H. injection H as <-. simpl. auto.
  - simpl in H. injection H as <-. simpl. auto.
  - simpl in H. injection H as <-. repeat split; try assumption.
    destruct (timers (clearCache w) !! p) as [tm|] eqn:E; [|reflexivity].
    apply clearCache_timers in E. congruence.
Qed.

Lemma abandoned_run p es : forall w w',
  abandoned p w -> run w es = Some w' -> abandoned p w'.
Proof.
  induction es as [|e es IH]; intros w w' Ha H; simpl in H.
  - injection H as <-. exact Ha.
  - destruct (step w e) as [w1|] eqn:E; simpl in H; [|discriminate].
    eapply IH; [|exact H]. eapply abandoned_step; eassumption.
Qed.

(** C5 (as amended). Every promise returned by the pipeline settles at
    once or has a scheduled execution.  When that execution fires, the
    promise settles at once to the empty sequence if the signal is set
    at that moment, and otherwise it settles at once to the empty
    sequence or a backend call is awaited; when the awaited call
    completes, the promise settles, whatever the signal: to the text of
    a successful response that is not blank, to the empty sequence
    otherwise.  A scheduled execution can fire once its delay has
    elapsed and an awaited call can complete with any outcome. *)
Theorem promise_settlement :
  (forall w d position token w',
      step w (Request d position token) = Some w' ->
      is_Some (settled w' !! nextId w) \/ is_Some (timers w' !! nextId w))
  /\ (forall w id tm w',
         timers w !! id = Some tm ->
         step w (Fire id) = Some w' ->
         (isCancellationRequested (timerToken tm) w = true -> settled w' !! id = Some [])
         /\ (settled w' !! id = Some [] \/ is_Some (inflight w' !! id)))
  /\ (forall w id c o w',
         inflight w !! id = Some c ->
         step w (Respond id o) = Some w' ->
         settled w' !! id = Some (suggestions o))
  /\ (forall w id tm,
         timers w !! id = Some tm ->
         exists w1 w2,
           step w (Tick (Z.max 0 (due tm - now w))) = Some w1
           /\ step w1 (Fire id) = Some w2)
  /\ (forall w id c o,
         inflight w !! id = Some c -> is_Some (step w (Respond id o))).
Proof.
  split; [|split; [|split; [|split]]].
  - intros w d pos tok w' H. apply step_request in H as (doc & _ & ->).
    destruct (provideCompletionItems_shape (nextId w) d doc pos tok
                (setNextId (S (nextId w)) w)) as [[v ->]|(K & _ & _ & _ & _ & ->)]; simpl.
    + left. rewrite lookup_insert_eq. eauto.
    + right. rewrite lookup_insert_eq. eauto.
  - intros w id tm w' Htm H. apply step_fire in H as (tm' & Htm' & _ & ->).
    rewrite Htm in Htm'. injection Htm' as <-. split.
    + intros Hc. rewrite timerCallback_cancelled by exact Hc. simpl.
      apply lookup_insert_eq.
    + destruct (timerCallback_shape id tm (setTimers (delete id (timers w)) w))
        as [->|(rq & _ & _ & _ & ->)]; simpl.
      * left. apply lookup_insert_eq.
      * right. rewrite lookup_insert_eq. eauto.
  - intros w id c o w' Hc H. apply step_respond in H as (c' & _ & ->).
    rewrite resume_settled. apply lookup_insert_eq.
  - intros w id tm Htm. simpl.
    destruct (Z.leb_spec 0 (Z.max 0 (due tm - now w))); [|lia].
    eexists _, _. split; [reflexivity|]. simpl. rewrite Htm. simpl.
    destruct (Z.leb_spec (due tm) (now w + Z.max 0 (due tm - now w))); [reflexivity|lia].
  - intros w id c o Hc. simpl. rewrite Hc. simpl. eauto.
Qed.

(** C5 as stated fails: the promise of a request whose execution is
    superseded by a newer request for the key is never settled,
    whatever happens next; and a promise whose signal is set after the
    backend call was issued settles with the suggestion, not with the
    empty sequence. *)
Lemma superseded_promise_never_settles :
  (run (Scenario.world ConfigManager.defaultConfig)
     [Request 0 Scenario.cursor 0; Tick 100; Request 0 Scenario.cursor 1]
   = Some Scenario.superseded
   /\ ~ exists es w', run Scenario.superseded es = Some w'
                      /\ is_Some (settled w' !! 0%nat))
  /\ (exists w w',
        run (Scenario.world ConfigManager.defaultConfig)
          [Request 0 Scenario.cursor 7; Tick 500; Fire 0; Cancel 7] = Some w
        /\ isCancellationRequested 7 w = true
        /\ step w (Respond 0 (Fulfilled (Scenario.answer "x" (Some 3%Z) (Some 4%Z))))
           = Some w'
        /\ settled w' !! 0%nat = Some ["x"]).
Proof.
  split; [split|].
  - vm_compute. reflexivity.
  - intros (es & w' & Hrun & Hs).
    assert (abandoned 0 Scenario.superseded) as Ha.
    { unfold abandoned. repeat split; try (vm_compute; reflexivity).
      vm_compute. lia. }
    destruct (abandoned_run 0 es _ _ Ha Hrun) as [Hn _].
    rewrite Hn in Hs. destruct Hs as [? ?]. discriminate.
  - evaluate.
Qed.

(** C5 (as amended) on two runs: a timer that fires with its signal
    set, and a backend call that completes. *)
Lemma promise_settlement_witness :
  timers Scenario.cancelledEarly !! 0%nat = Some Scenario.theTimer
  /\ isCancellationRequested (timerToken Scenario.theTimer) Scenario.cancelledEarly = true
  /\ (exists w', step Scenario.cancelledEarly (Fire 0) = Some w'
                 /\ settled w' !! 0%nat = Some [])
  /\ inflight Scenario.asked !! 0%nat = Some Scenario.theCall
  /\ step Scenario.asked (Respond 0 (Fulfilled (Scenario.answer "x" (Some 3%Z) (Some 4%Z))))
     = Some Scenario.answered
  /\ settled Scenario.answered !! 0%nat = Some ["x"].
Proof.
  assert (timers Scenario.cancelledEarly !! 0%nat = Some Scenario.theTimer) as H1
    by (vm_compute; reflexivity).
  assert (isCancellationRequested (timerToken Scenario.theTimer) Scenario.cancelledEarly
          = true) as H2 by (vm_compute; reflexivity).
  assert (inflight Scenario.asked !! 0%nat = Some Scenario.theCall) as H3
    by (vm_compute; reflexivity).
  assert (step Scenario.asked
            (Respond 0 (Fulfilled (Scenario.answer "x" (Some 3%Z) (Some 4%Z))))
          = Some Scenario.answered) as H4 by (vm_compute; reflexivity).
  destruct promise_settlement as (_ & Pfire & Prespond & Pcan & _).
  destruct (Pcan _ _ _ H1) as (wt & wf & _ & _).
  split; [exact H1|]. split; [exact H2|]. split.
  { eexists. split; [vm_compute; reflexivity|].
    eapply (proj1 (Pfire _ _ _ _ H1 ltac:(vm_compute; reflexivity))). exact H2. }
  split; [exact H3|]. split; [exact H4|].
  exact (Prespond _ _ _ _ _ H3 H4).
Defined.

(** ** Debouncing *)

Lemma quiet_lookup K w :
  quiet K w <->
  (forall id c, inflight w !! id = Some c -> callKey c <> K)
  /\ (forall id tm, timers w !! id = Some tm -> timerKey tm = K ->
                    debounceMap w !! K = Some id)
  /\ (forall K' id, debounceMap w !! K' = Some id ->
                    (id < nextId w)%nat
                    /\ (timerKey <$> timers w !! id = Some K -> K' = K)).
Proof. unfold quiet. rewrite !map_Forall_lookup. reflexivity. Qed.

Lemma quiet_new K c t0 tc ds : quiet K (setDocuments ds (initial c t0 tc)).
Proof.
  unfold quiet. simpl.
  split; [apply map_Forall_empty|split; apply map_Forall_empty].
Qed.

Lemma firesKey_false K w id tm :
  firesKey K w (Fire id) = false -> timers w !! id = Some tm -> timerKey tm <> K.
Proof.
  simpl. intros H Htm. rewrite Htm in H. apply bool_decide_eq_false in H. exact H.
Qed.

Lemma requestsKey_false K w d position token document K' :
  requestsKey K w (Request d position token) = false ->
  documents w !! d = Some document -> buildCacheKey document position = Some K' ->
  K' <> K.
Proof.
  simpl. unfold requestKey. intros H Hd HK. rewrite Hd in H. simpl in H.
  rewrite HK in H. apply bool_decide_eq_false in H. congruence.
Qed.

(** The invariant of the debounce table is kept by every event but the
    firing of a timer for the key. *)
Lemma quiet_step K w e w' :
  quiet K w -> firesKey K w e = false -> step w e = Some w' -> quiet K w'.
Proof.
  rewrite !quiet_lookup. intros (Q1 & Q2 & Q3) Hf H.
  destruct e as [d pos tok|id|id o|tok|dt|d doc|c|].
  - apply step_request in H as (doc & _ & ->).
    destruct (provideCompletionItems_shape (nextId w) d doc pos tok
                (setNextId (S (nextId w)) w)) as [[v ->]|(K2 & _ & _ & _ & _ & ->)]; simpl.
    + split; [exact Q1|]. split; [exact Q2|].
      intros K' id HK'. destruct (Q3 K' id HK'). auto with lia.
    + split; [exact Q1|]. split.
      * intros id tm Htm Hkey.
        apply lookup_insert_Some in Htm as [[<- <-]|[Hne Htm]].
        -- simpl in Hkey. subst K2. apply lookup_insert_eq.
        -- assert (timers w !! id = Some tm) as Htm'.
           { destruct (debounceMap w !! K2); [|exact Htm].
             apply lookup_delete_Some in Htm as [_ Htm]. exact Htm. }
           pose proof (Q2 id tm Htm' Hkey) as HK.
           destruct (decide (K2 = K)) as [->|HK2].
           ++ rewrite HK in Htm. apply lookup_delete_Some in Htm as [? _]. congruence.
           ++ rewrite lookup_insert_ne by exact HK2. exact HK.
      * intros K' id HK'.
        apply lookup_insert_Some in HK' as [[<- <-]|[Hne HK']].
        -- split; [lia|]. rewrite lookup_insert_eq. simpl. congruence.
        -- destruct (Q3 K' id HK') as [Hlt Hk]. split; [lia|].
           rewrite lookup_insert_ne by lia. intros Ht. apply Hk.
           destruct (debounceMap w !! K2); [|exact Ht].
           destruct (delete n (timers w) !! id) as [tm'|] eqn:E'; [|discriminate].
           apply lookup_delete_Some in E' as [_ E']. rewrite E'. exact Ht.
  - apply step_fire in H as (tm & Htm & _ & ->).
    pose proof (firesKey_false K w id tm Hf Htm) as Hkey.
    destruct (timerCallback_shape id tm (setTimers (delete id (timers w)) w))
      as [->|(rq & _ & _ & _ & ->)]; simpl.
    + split; [exact Q1|]. split.
      * intros id' tm' Htm' Hk'. apply lookup_delete_Some in Htm' as [_ Htm'].
        rewrite lookup_delete_ne by congruence. eauto.
      * intros K' id' HK'. apply lookup_delete_Some in HK' as [_ HK'].
        destruct (Q3 K' id' HK') as [Hlt Hk]. split; [exact Hlt|].
        intros Ht. apply Hk.
        destruct (delete id (timers w) !! id') as [tm'|] eqn:E'; [|discriminate].
        apply lookup_delete_Some in E' as [_ E']. rewrite E'. exact Ht.
    + split.
      * intros id' c Hc. apply lookup_insert_Some in Hc as [[_ <-]|[_ Hc]]; [exact Hkey|eauto].
      * split.
        -- intros id' tm' Htm' Hk'. apply lookup_delete_Some in Htm' as [_ Htm']. eauto.
        -- intros K' id' HK'. destruct (Q3 K' id' HK') as [Hlt Hk]. split; [exact Hlt|].
           intros Ht. apply Hk.
           destruct (delete id (timers w) !! id') as [tm'|] eqn:E'; [|discriminate].
           apply lookup_delete_Some in E' as [_ E']. rewrite E'. exact Ht.
  - apply step_respond in H as (c & Hc & ->).
    pose proof (Q1 id c Hc) as Hkey.
    destruct (resume_frame id c o (setInflight (delete id (inflight w)) w))
      as (-> & -> & -> & -> & _). simpl.
    split.
    + intros id' c' Hc'. apply lookup_delete_Some in Hc' as [_ Hc']. eauto.
    + split.
      * intros id' tm' Htm' Hk'. rewrite lookup_delete_ne by congruence. eauto.
      * intros K' id' HK'. apply lookup_delete_Some in HK' as [_ HK']. eauto.
  - simpl in H. injection H as <-. simpl. auto.
  - simpl in H. destruct (0 <=? dt)%Z; [|discriminate]. injection H as <-. simpl. auto.
  - simpl in H. injection H as <-. simpl. auto.
  - simpl in H. injection H as <-. simpl. auto.
  - simpl in H. injection H as <-. split; [exact Q1|]. split.
    + intros id tm Htm Hk. exfalso.
      pose proof (clearCache_timers _ _ _ Htm) as Htm'.
      pose proof (clearCache_registered w K id (Q2 id tm Htm' Hk)). congruence.
    + intros K' id HK'. simpl in HK'. rewrite lookup_empty in HK'. discriminate.
Qed.

Lemma callsFor_issued K id K' request w :
  callsFor K (issued id K' request w)
  = callsFor K w ++ (if decide (K' = K) then [request] else []).
Proof.
  unfold callsFor, issued. simpl. rewrite filter_app, fmap_app. f_equal.
  rewrite filter_cons, filter_nil. simpl.
  destruct (decide (K' = K)); reflexivity.
Qed.

(** The calls of a key only grow when one of its timers fires. *)
Lemma callsFor_step K w e w' :
  firesKey K w e = false -> step w e = Some w' -> callsFor K w' = callsFor K w.
Proof.
  intros Hf H.
  destruct e as [d pos tok|id|id o|tok|dt|d doc|c|].
  - apply step_request in H as (doc & _ & ->).
    destruct (provideCompletionItems_shape (nextId w) d doc pos tok
                (setNextId (S (nextId w)) w)) as [[v ->]|(K2 & _ & _ & _ & _ & ->)];
      reflexivity.
  - apply step_fire in H as (tm & Htm & _ & ->).
    pose proof (firesKey_false K w id tm Hf Htm) as Hkey.
    destruct (timerCallback_shape id tm (setTimers (delete id (timers w)) w))
      as [->|(rq & _ & _ & _ & ->)]; [reflexivity|].
    rewrite callsFor_issued. destruct (decide (timerKey tm = K)); [contradiction|].
    rewrite app_nil_r. reflexivity.
  - apply step_respond in H as (c & Hc & ->).
    unfold callsFor.
    destruct (resume_frame id c o (setInflight (delete id (inflight w)) w))
      as (_ & _ & _ & _ & -> & _). reflexivity.
  - simpl in H. injection H as <-. reflexivity.
  - simpl in H. destruct (0 <=? dt)%Z; [|discriminate]. injection H as <-. reflexivity.
  - simpl in H. injection H as <-. reflexivity.
  - simpl in H. injection H as <-. reflexivity.
  - simpl in H. injection H as <-. reflexivity.
Qed.

Lemma quiet_run K es : forall w w',
  quiet K w -> runAvoiding (firesKey K) w es = Some w' ->
  quiet K w' /\ callsFor K w' = callsFor K w.
Proof.
  induction es as [|e es IH]; intros w w' HQ H; simpl in H.
  - injection H as <-. auto.
  - destruct (firesKey K w e) eqn:Hf; [discriminate|].
    destruct (step w e) as [w1|] eqn:E; simpl in H; [|discriminate].
    destruct (IH w1 w' (quiet_step _ _ _ _ HQ Hf E) H) as [HQ' Hc].
    split; [exact HQ'|]. rewrite Hc. eapply callsFor_step; eassumption.
Qed.

(** The registered timer of the key stays pending as long as it does
    not fire, no request is made for the key and the cache is not
    cleared. *)
Lemma pending_step K w e w' n tm :
  quiet K w -> timers w !! n = Some tm -> timerKey tm = K ->
  firesKey K w e || requestsKey K w e || clears e = false ->
  step w e = Some w' ->
  timers w' !! n = Some tm.
Proof.
  intros HQ Hn Hkey Hbad H.
  apply orb_false_iff in Hbad as [Hbad Hclear].
  apply orb_false_iff in Hbad as [Hf Hr].
  apply quiet_lookup in HQ as (Q1 & Q2 & Q3).
  pose proof (Q2 n tm Hn Hkey) as Hreg.
  destruct (Q3 K n Hreg) as [Hlt _].
  destruct e as [d pos tok|id|id o|tok|dt|d doc|c|].
  - apply step_request in H as (doc & Hd & ->).
    destruct (provideCompletionItems_shape (nextId w) d doc pos tok
                (setNextId (S (nextId w)) w)) as [[v ->]|(K2 & HK2 & _ & _ & _ & ->)]; simpl.
    + exact Hn.
    + pose proof (requestsKey_false K w d pos tok doc K2 Hr Hd HK2) as Hne.
      rewrite lookup_insert_ne by lia.
      destruct (debounceMap w !! K2) as [h|] eqn:Hh; [|exact Hn].
      rewrite lookup_delete_ne; [exact Hn|]. intros ->.
      destruct (Q3 K2 n Hh) as [_ Hk]. apply Hne, Hk. rewrite Hn. simpl. congruence.
  - apply step_fire in H as (tm' & Htm' & _ & ->).
    assert (id <> n) as Hne.
    { intros ->. rewrite Hn in Htm'. injection Htm' as <-.
      exact (firesKey_false K w n tm Hf Hn Hkey). }
    destruct (timerCallback_shape id tm' (setTimers (delete id (timers w)) w))
      as [->|(rq & _ & _ & _ & ->)]; simpl; rewrite lookup_delete_ne by exact Hne;
      exact Hn.
  - apply step_respond in H as (c & Hc & ->).
    destruct (resume_frame id c o (setInflight (delete id (inflight w)) w))
      as (-> & _). exact Hn.
  - simpl in H. injection H as <-. exact Hn.
  - simpl in H. destruct (0 <=? dt)%Z; [|discriminate]. injection H as <-. exact Hn.
  - simpl in H. injection H as <-. exact Hn.
  - simpl in H. injection H as <-. exact Hn.
  - discriminate.
Qed.

Lemma pending_run K n tm es : forall w w',
  quiet K w -> timers w !! n = Some tm -> timerKey tm = K ->
  runAvoiding (fun w e => firesKey K w e || requestsKey K w e || clears e) w es = Some w' ->
  quiet K w' /\ timers w' !! n = Some tm /\ callsFor K w' = callsFor K w.
Proof.
  induction es as [|e es IH]; intros w w' HQ Hn Hkey H; simpl in H.
  - injection H as <-. auto.
  - destruct (firesKey K w e || requestsKey K w e || clears e) eqn:Hbad; [discriminate|].
    destruct (step w e) as [w1|] eqn:E; simpl in H; [|discriminate].
    assert (firesKey K w e = false) as Hf.
    { apply orb_false_iff in Hbad as [Hbad _]. apply orb_false_iff in Hbad as [? _].
      assumption. }
    destruct (IH w1 w' (quiet_step _ _ _ _ HQ Hf E)
                (pending_step _ _ _ _ _ _ HQ Hn Hkey Hbad E) Hkey H) as (HQ' & Hn' & Hc).
    split; [exact HQ'|]. split; [exact Hn'|].
    rewrite Hc. eapply callsFor_step; eassumption.
Qed.

Lemma idle_lookup K w :
  idle K w <-> forall id tm, timers w !! id = Some tm -> timerKey tm <> K.
Proof. unfold idle. rewrite map_Forall_lookup. reflexivity. Qed.

(** With no timer pending for the key and no request for it, no timer
    and no call for the key appear. *)
Lemma idle_step K w e w' :
  idle K w -> requestsKey K w e = false -> step w e = Some w' ->
  idle K w' /\ callsFor K w' = callsFor K w.
Proof.
  rewrite !idle_lookup. intros HI Hr H.
  assert (firesKey K w e = false) as Hf.
  { destruct e; try reflexivity. simpl.
    destruct (timers w !! id) as [tm|] eqn:E; [|reflexivity].
    apply bool_decide_eq_false. eauto. }
  split; [|eapply callsFor_step; eassumption].
  destruct e as [d pos tok|id|id o|tok|dt|d doc|c|].
  - apply step_request in H as (doc & Hd & ->).
    destruct (provideCompletionItems_shape (nextId w) d doc pos tok
                (setNextId (S (nextId w)) w)) as [[v ->]|(K2 & HK2 & _ & _ & _ & ->)]; simpl.
    + exact HI.
    + pose proof (requestsKey_false K w d pos tok doc K2 Hr Hd HK2) as Hne.
      intros id tm Htm. apply lookup_insert_Some in Htm as [[_ <-]|[_ Htm]]; [exact Hne|].
      destruct (debounceMap w !! K2); [|eauto].
      apply lookup_delete_Some in Htm as [_ Htm]. eauto.
  - apply step_fire in H as (tm' & Htm' & _ & ->).
    destruct (timerCallback_shape id tm' (setTimers (delete id (timers w)) w))
      as [->|(rq & _ & _ & _ & ->)]; simpl;
      intros id' tm Htm; apply lookup_delete_Some in Htm as [_ Htm]; eauto.
  - apply step_respond in H as (c & Hc & ->).
    destruct (resume_frame id c o (setInflight (delete id (inflight w)) w))
      as (-> & _). exact HI.
  - simpl in H. injection H as <-. exact HI.
  - simpl in H. destruct (0 <=? dt)%Z; [|discriminate]. injection H as <-. exact HI.
  - simpl in H. injection H as <-. exact HI.
  - simpl in H. injection H as <-. exact HI.
  - simpl in H. injection H as <-. intros id tm Htm.
    apply clearCache_timers in Htm. eauto.
Qed.

Lemma idle_run K es : forall w w',
  idle K w -> runAvoiding (requestsKey K) w es = Some w' ->
  callsFor K w' = callsFor K w.
Proof.
  induction es as [|e es IH]; intros w w' HI H; simpl in H.
  - injection H as <-. reflexivity.
  - destruct (requestsKey K w e) eqn:Hr; [discriminate|].
    destruct (step w e) as [w1|] eqn:E; simpl in H; [|discriminate].
    destruct (idle_step _ _ _ _ HI Hr E) as [HI' Hc].
    rewrite (IH w1 w' HI' H). exact Hc.
Qed.

(** A request that gets a timer. *)
Lemma step_schedules K w d position token w' :
  schedulesKey K w (Request d position token) = true ->
  step w (Request d position token) = Some w' ->
  w' = scheduled (nextId w) d position token K (setNextId (S (nextId w)) w).
Proof.
  simpl. intros Hs H. apply step_request in H as (doc & Hd & ->).
  apply andb_prop in Hs as [Hs Hlive]. apply andb_prop in Hs as [Hs HK].
  apply andb_prop in Hs as [Hen Hc].
  apply bool_decide_eq_true in HK. unfold requestKey in HK. rewrite Hd in HK. simpl in HK.
  unfold provideCompletionItems. simpl. rewrite Hen. simpl.
  apply negb_true_iff in Hc. unfold isCancellationRequested in *. simpl. rewrite Hc.
  rewrite (getCompletionSuggestions_miss _ _ _ _ _ _ K HK); [reflexivity|].
  simpl. intros e He. rewrite He in Hlive. apply negb_true_iff in Hlive.
  destruct (Z.ltb_spec (now w - timestamp e) CACHE_DURATION); [discriminate|assumption].
Qed.

(** C1 (as amended). Let no backend call for K be under way and the
    debounce table be in order.  If requests for K arrive, in any
    number and among any other events, each before the execution
    scheduled for K before it fires, and the last one gets a timer,
    then, as long as that timer has not fired, no further request for K
    arrives and the cache is not cleared: the execution of the last
    request is pending with its document, position and signal, it is
    the only one pending for K (every earlier one is cancelled), and no
    backend call was made for K.  When it fires, at most one backend
    call is made for K: exactly one, built from the document of the
    last request as it reads then and from its position, if its signal
    is not set at that moment and the line before the cursor is not
    blank; none otherwise.  No other call for K follows until the next
    request for K. *)
Theorem debounce_coalescing :
  forall K w0 earlier wa d position token wb later w1,
    quiet K w0 ->
    runAvoiding (firesKey K) w0 earlier = Some wa ->
    schedulesKey K wa (Request d position token) = true ->
    step wa (Request d position token) = Some wb ->
    runAvoiding (fun w e => firesKey K w e || requestsKey K w e || clears e) wb later
    = Some w1 ->
    let n := nextId wa in
    timers w1 !! n = Some (mkTimer K d position token (now wa + DEBOUNCE_DELAY))
    /\ (forall id tm, timers w1 !! id = Some tm -> timerKey tm = K -> id = n)
    /\ callsFor K w1 = callsFor K w0
    /\ forall w2,
         step w1 (Fire n) = Some w2 ->
         callsFor K w2
         = callsFor K w0
           ++ (if isCancellationRequested token w1 then []
               else match requestAt w1 d position with
                    | Some request =>
                        if truthy (trim (prompt request)) then [request] else []
                    | None => []
                    end)
         /\ forall rest w3,
              runAvoiding (requestsKey K) w2 rest = Some w3 ->
              callsFor K w3 = callsFor K w2.
Proof.
  intros K w0 earlier wa d position token wb later w1 HQ0 Hearlier Hs Hstep Hlater n.
  destruct (quiet_run K earlier w0 wa HQ0 Hearlier) as [HQa Hca].
  pose proof (quiet_step K wa (Request d position token) wb HQa eq_refl Hstep) as HQb.
  pose proof (callsFor_step K wa (Request d position token) wb eq_refl Hstep) as Hcb.
  pose proof (step_schedules K wa d position token wb Hs Hstep) as Hwb.
  assert (timers wb !! n = Some (mkTimer K d position token (now wa + DEBOUNCE_DELAY)))
    as Hn by (rewrite Hwb; simpl; apply lookup_insert_eq).
  destruct (pending_run K n _ later wb w1 HQb Hn eq_refl Hlater) as (HQ1 & Hn1 & Hc1).
  assert (forall id tm, timers w1 !! id = Some tm -> timerKey tm = K -> id = n) as Huniq.
  { apply quiet_lookup in HQ1 as (_ & Q2 & _). intros id tm Htm Hkey.
    pose proof (Q2 id tm Htm Hkey) as H1. pose proof (Q2 n _ Hn1 eq_refl) as H2.
    congruence. }
  split; [exact Hn1|]. split; [exact Huniq|].
  split; [congruence|].
  intros w2 Hfire. apply step_fire in Hfire as (tm & Htm & _ & ->).
  rewrite Hn1 in Htm. injection Htm as <-.
  assert (idle K (timerCallback n (mkTimer K d position token (now wa + DEBOUNCE_DELAY))
                    (setTimers (delete n (timers w1)) w1))) as HI.
  { apply idle_lookup. intros id tm Htm Hkey.
    assert (timers w1 !! id = Some tm /\ id <> n) as [Htm1 Hne].
    { destruct (timerCallback_shape n (mkTimer K d position token (now wa + DEBOUNCE_DELAY))
                  (setTimers (delete n (timers w1)) w1))
        as [E|(rq & _ & _ & _ & E)]; rewrite E in Htm; simpl in Htm;
        apply lookup_delete_Some in Htm as [? ?]; auto. }
    apply Hne. eapply Huniq; eassumption. }
  split; [|intros rest w3 Hrest; eapply idle_run; eassumption].
  assert (callsFor K w1 = callsFor K w0) as <- by congruence.
  unfold timerCallback, requestAt. simpl.
  replace (isCancellationRequested token (setTimers (delete n (timers w1)) w1))
    with (isCancellationRequested token w1) by reflexivity.
  destruct (isCancellationRequested token w1).
  { rewrite app_nil_r. reflexivity. }
  destruct (documents w1 !! d ≫= _) as [rq|].
  - destruct (truthy (trim (prompt rq))); simpl.
    + change (callsFor K (issued n K rq (setTimers (delete n (timers w1)) w1))
              = callsFor K w1 ++ [rq]).
      rewrite callsFor_issued. destruct (decide (K = K)); [|congruence].
      reflexivity.
    + rewrite app_nil_r. reflexivity.
  - rewrite app_nil_r. reflexivity.
Qed.

(** C1 as stated fails.  By design: one request on a blank line gets a
    timer, the timer fires and no backend call is made.  And two
    requests for a key, the second before the execution of the first
    fires, make two backend calls when a response for an older call of
    the key arrives between them: the finally block of that call
    removes the handle of the first request from the table, and the
    second request no longer cancels it. *)
Lemma burst_makes_no_call_or_two_calls :
  (exists w1 w,
      step (Scenario.blankWorld ConfigManager.defaultConfig) (Request 0 (mkPosition 2 4) 0)
      = Some w1
      /\ timerKey <$> timers w1 !! 0%nat = Some "/work/add.py:2:4:    "
      /\ run w1 [Tick 500; Fire 0] = Some w
      /\ calls w = [] /\ timers w = ∅ /\ inflight w = ∅
      /\ settled w !! 0%nat = Some [])
  /\ (exists w0 w1 w,
        run (Scenario.world ConfigManager.defaultConfig)
          [Request 0 Scenario.cursor 0; Tick 500; Fire 0] = Some w0
        /\ run w0 [Request 0 Scenario.cursor 1; Respond 0 (Fulfilled Scenario.failure);
                   Tick 100; Request 0 Scenario.cursor 2] = Some w1
        /\ timerKey <$> timers w1 !! 1%nat = Some Scenario.typingKey
        /\ timerKey <$> timers w1 !! 2%nat = Some Scenario.typingKey
        /\ run w1 [Tick 500; Fire 1; Fire 2] = Some w
        /\ length (callsFor Scenario.typingKey w)
           = (length (callsFor Scenario.typingKey w0) + 2)%nat).
Proof. evaluate. Qed.

(** C1 (as amended) on a run: three requests for a key, 100 ms apart;
    the timers of the first two are cancelled and the third makes the
    one backend call. *)
Lemma debounce_coalescing_witness :
  quiet Scenario.typingKey (Scenario.world ConfigManager.defaultConfig)
  /\ runAvoiding (firesKey Scenario.typingKey)
       (Scenario.world ConfigManager.defaultConfig) Scenario.burst
     = Some Scenario.beforeLast
  /\ schedulesKey Scenario.typingKey Scenario.beforeLast (Request 0 Scenario.cursor 2) = true
  /\ step Scenario.beforeLast (Request 0 Scenario.cursor 2) = Some Scenario.afterLast
  /\ runAvoiding
       (fun w e => firesKey Scenario.typingKey w e || requestsKey Scenario.typingKey w e
                   || clears e)
       Scenario.afterLast [Tick 500] = Some Scenario.ready
  /\ timers Scenario.ready !! 2%nat
     = Some (mkTimer Scenario.typingKey 0 Scenario.cursor 2 700)
  /\ timers Scenario.ready !! 0%nat = None
  /\ timers Scenario.ready !! 1%nat = None
  /\ step Scenario.ready (Fire 2) = Some Scenario.fired
  /\ callsFor Scenario.typingKey Scenario.fired = [Scenario.theRequest].
Proof.
  assert (H1 := quiet_new Scenario.typingKey ConfigManager.defaultConfig 0
                  Scenario.counter0 {[ 0%nat := Scenario.typing ]}).
  assert (runAvoiding (firesKey Scenario.typingKey)
            (Scenario.world ConfigManager.defaultConfig) Scenario.burst
          = Some Scenario.beforeLast) as H2 by (vm_compute; reflexivity).
  assert (schedulesKey Scenario.typingKey Scenario.beforeLast (Request 0 Scenario.cursor 2)
          = true) as H3 by (vm_compute; reflexivity).
  assert (step Scenario.beforeLast (Request 0 Scenario.cursor 2) = Some Scenario.afterLast)
    as H4 by (vm_compute; reflexivity).
  assert (runAvoiding
            (fun w e => firesKey Scenario.typingKey w e
                        || requestsKey Scenario.typingKey w e || clears e)
            Scenario.afterLast [Tick 500] = Some Scenario.ready)
    as H5 by (vm_compute; reflexivity).
  assert (step Scenario.ready (Fire 2) = Some Scenario.fired)
    as H6 by (vm_compute; reflexivity).
  destruct (debounce_coalescing _ _ _ _ _ _ _ _ _ _ H1 H2 H3 H4 H5)
    as (T & _ & _ & F).
  destruct (F _ H6) as [C _].
  do 5 (split; [assumption|]).
  split; [exact T|].
  split; [vm_compute; reflexivity|]. split; [vm_compute; reflexivity|].
  split; [exact H6|].
  rewrite C. vm_compute. reflexivity.
Defined.

(* ===================================================================== *)
(** * Further properties *)
(* ===================================================================== *)

Import Text Invariants.

(** ** Splitting and joining *)

Lemma split_nonempty sep s : split sep s <> [].
Proof.
  destruct s as [|c s]; simpl; [discriminate|].
  destruct (Ascii.eqb c sep); [discriminate|]. destruct (split sep s); discriminate.
Qed.

Lemma join_cons sep x y l : join sep (x :: y :: l) = x +:+ sep +:+ join sep (y :: l).
Proof. reflexivity. Qed.

Lemma join_split sep s : join (String sep "") (split sep s) = s.
Proof.
  induction s as [|c s IH]; [reflexivity|]. simpl.
  destruct (Ascii.eqb_spec c sep) as [->|Hne].
  - pose proof (split_nonempty sep s). destruct (split sep s) as [|y l] eqn:E; [congruence|].
    rewrite join_cons, IH. reflexivity.
  - pose proof (split_nonempty sep s). destruct (split sep s) as [|y l] eqn:E; [congruence|].
    destruct l as [|z l].
    + simpl in IH. simpl. rewrite IH. reflexivity.
    + rewrite join_cons in *. rewrite append_cons, IH. reflexivity.
Qed.

Lemma split_append sep (x s : string) :
  includes sep x = false -> split sep (x +:+ String sep s) = x :: split sep s.
Proof.
  induction x as [|c x IH]; intros H.
  - change ("" +:+ String sep s) with (String sep s). simpl. rewrite Ascii.eqb_refl. reflexivity.
  - simpl in H. apply orb_false_iff in H as [Hc Hx].
    rewrite append_cons. simpl. rewrite (Ascii.eqb_sym c sep), Hc, (IH Hx). reflexivity.
Qed.

Lemma split_join sep x l :
  Forall (fun y => includes sep y = false) (x :: l) ->
  split sep (join (String sep "") (x :: l)) = x :: l.
Proof.
  revert x. induction l as [|y l IH]; intros x H.
  - apply split_absent. inversion H; assumption.
  - rewrite join_cons. inversion H as [|? ? Hx Hl]; subst.
    change (String sep "" +:+ join (String sep "") (y :: l))
      with (String sep (join (String sep "") (y :: l))).
    rewrite split_append by exact Hx. rewrite (IH y Hl). reflexivity.
Qed.

(** ** Inserting a suggestion *)

Lemma imap_first_rest {A} (f : A -> A) (x : A) (l : list A) :
  imap (fun index y => if (index =? 0)%nat then y else f y) (x :: l) = x :: map f l.
Proof.
  simpl. f_equal. induction l as [|y l IH]; [reflexivity|].
  simpl. f_equal. exact IH.
Qed.

(** X1. [formatInsertText] returns a suggestion of one line as it is,
    and so it does with any suggestion when the text before the cursor
    does not begin with white space. *)
Theorem formatInsertText_unchanged suggestion d position lineText :
  lineAt d (line position) = Some lineText ->
  includes LF suggestion = false
  \/ leadingSpace (substring0 (character position) lineText) = "" ->
  formatInsertText suggestion d position = Some suggestion.
Proof.
  intros Hl H. unfold formatInsertText. rewrite Hl. simpl.
  destruct (includes LF suggestion) eqn:Hinc; [|reflexivity].
  destruct H as [H|H]; [discriminate|]. rewrite H. f_equal.
  pose proof (split_nonempty LF suggestion) as Hne.
  pose proof (join_split LF suggestion) as Hjs.
  destruct (split LF suggestion) as [|x l]; [congruence|].
  rewrite (imap_first_rest (fun y => "" +:+ y)).
  replace (map (fun y => "" +:+ y) l) with l; [exact Hjs|].
  clear. induction l as [|y l IH]; [reflexivity|]. simpl. rewrite <- IH. reflexivity.
Qed.

(** X1 on an example: a suggestion of one line, typed after four spaces. *)
Lemma formatInsertText_unchanged_witness :
  formatInsertText "urn total" Scenario.typing Scenario.cursor = Some "urn total".
Proof.
  apply (formatInsertText_unchanged "urn total" Scenario.typing Scenario.cursor "    ret");
    [reflexivity|left; reflexivity].
Defined.

Lemma includes_append c (a b : string) :
  includes c (a +:+ b) = includes c a || includes c b.
Proof.
  induction a as [|x a IH]; [reflexivity|].
  rewrite append_cons. simpl. rewrite IH, orb_assoc. reflexivity.
Qed.

Lemma includes_substring0 c n : forall s,
  includes c s = false -> includes c (substring0 n s) = false.
Proof.
  induction n as [|n IH]; intros [|x s] H; try reflexivity.
  simpl in *. apply orb_false_iff in H as [Hx Hs]. rewrite Hx, (IH s Hs). reflexivity.
Qed.

Lemma includes_leadingSpace c (s : string) :
  includes c s = false -> includes c (leadingSpace s) = false.
Proof.
  induction s as [|x s IH]; [reflexivity|]. simpl. intros H.
  apply orb_false_iff in H as [Hx Hs].
  destruct (isSpace x); [|reflexivity]. simpl. rewrite Hx, (IH Hs). reflexivity.
Qed.

Lemma split_parts sep s : Forall (fun y => includes sep y = false) (split sep s).
Proof.
  induction s as [|c s IH]; simpl; [repeat constructor|].
  destruct (Ascii.eqb_spec c sep) as [->|Hne]; [constructor; [reflexivity|exact IH]|].
  destruct (split sep s) as [|p ps]; [repeat constructor|].
  - simpl. rewrite orb_false_r. apply Ascii.eqb_neq. congruence.
  - inversion IH; subst. constructor; [|assumption].
    simpl. apply orb_false_iff. split; [apply Ascii.eqb_neq; congruence|assumption].
Qed.

(** X2. The lines of the text that [formatInsertText] returns are the
    lines of the suggestion, the first as it is and each later one after
    the white space that the text before the cursor begins with. *)
Theorem formatInsertText_lines suggestion d position lineText first rest :
  lineAt d (line position) = Some lineText ->
  includes LF lineText = false ->
  split LF suggestion = first :: rest ->
  exists inserted,
    formatInsertText suggestion d position = Some inserted
    /\ split LF inserted
       = first :: map (fun l => leadingSpace (substring0 (character position) lineText) +:+ l) rest.
Proof.
  intros Hl Hline Hsplit. unfold formatInsertText. rewrite Hl. simpl.
  set (indent := leadingSpace (substring0 (character position) lineText)).
  assert (includes LF indent = false) as Hindent
    by (apply includes_leadingSpace, includes_substring0, Hline).
  pose proof (split_parts LF suggestion) as Hparts. rewrite Hsplit in Hparts.
  destruct (includes LF suggestion) eqn:Hinc.
  - eexists. split; [reflexivity|]. rewrite Hsplit.
    rewrite (imap_first_rest (fun y => indent +:+ y)).
    apply split_join. inversion Hparts as [|? ? Hf Hr]; subst. constructor; [exact Hf|].
    clear -Hr Hindent. induction Hr as [|y l Hy _ IH]; simpl; constructor; [|exact IH].
    rewrite includes_append, Hindent. exact Hy.
  - eexists. split; [reflexivity|]. rewrite Hsplit.
    rewrite (split_absent _ _ Hinc) in Hsplit. injection Hsplit as <- <-. reflexivity.
Qed.

(** X2 on an example: a suggestion of two lines made after four spaces
    and three letters. *)
Lemma formatInsertText_lines_witness :
  exists inserted,
    formatInsertText ("if x:" +:+ newline +:+ "  y") Scenario.typing Scenario.cursor
    = Some inserted
    /\ split LF inserted = ["if x:"; "      y"].
Proof.
  apply (formatInsertText_lines ("if x:" +:+ newline +:+ "  y") Scenario.typing
           Scenario.cursor "    ret" "if x:" ["  y"]); reflexivity.
Defined.

(** ** The lines around the cursor *)

(** Reading the lines [a], ..., [a + n - 1] one by one: they are there
    when the document has [a + n] lines, and otherwise the first one
    that is not raises. *)
Lemma mapM_lineAt d n : forall a,
  mapM (lineAt d) (seq a n)
  = if decide (n = 0 \/ a + n <= lineCount d)%nat then Some (take n (drop a (lines d)))
    else None.
Proof.
  unfold lineAt, lineCount.
  induction n as [|n IH]; intros a.
  - cbn [seq mapM]. rewrite take_0.
    destruct (decide (0 = 0 \/ a + 0 <= length (lines d))%nat) as [_|H]; [reflexivity|].
    destruct H; auto.
  - cbn [seq mapM]. rewrite IH.
    destruct (lines d !! a) as [x|] eqn:Hx.
    + pose proof (lookup_lt_Some _ _ _ Hx).
      rewrite (drop_S _ _ _ Hx). cbn [take mbind option_bind].
      destruct (decide (n = 0%nat \/ (S a + n <= length (lines d))%nat)) as [H1|H1].
      * rewrite decide_True by (right; lia). reflexivity.
      * rewrite decide_False by lia. reflexivity.
    + apply lookup_ge_None in Hx. cbn [mbind option_bind].
      rewrite decide_False by lia. reflexivity.
Qed.

Lemma before_window d l :
  (l <= lineCount d)%nat ->
  mapM (lineAt d) (seq (l - 10) (l - (l - 10))) = Some (linesBefore d l).
Proof.
  intros H. rewrite mapM_lineAt, decide_True by lia. unfold linesBefore.
  rewrite take_drop_commute. do 3 f_equal. lia.
Qed.

Lemma after_window d l :
  mapM (lineAt d) (seq (S l) (Nat.min (lineCount d) (l + 10 + 1) - S l))
  = Some (linesAfter d l).
Proof.
  rewrite mapM_lineAt, decide_True by lia. unfold linesAfter, lineCount. f_equal.
  destruct (Nat.le_gt_cases (l + 11) (length (lines d))).
  - f_equal. lia.
  - rewrite !take_ge; [reflexivity|rewrite length_drop; lia|rewrite length_drop; lia].
Qed.

Lemma getContext_lines d position :
  getContext d position
  = (current ← lineAt d (line position);
     Some (linesBefore d (line position), linesAfter d (line position),
           join newline (linesBefore d (line position) ++ [current]
                           ++ linesAfter d (line position)))).
Proof.
  unfold getContext. cbv zeta.
  rewrite after_window.
  destruct (lineAt d (line position)) as [current|] eqn:Hc.
  - pose proof (lookup_lt_Some _ _ _ Hc).
    rewrite before_window by (unfold lineCount; lia).
    reflexivity.
  - destruct (mapM _ _); reflexivity.
Qed.

Lemma getSurroundingLines_lines d position :
  getSurroundingLines d position
  = if decide (line position <= lineCount d)%nat
    then Some (linesBefore d (line position), linesAfter d (line position))
    else None.
Proof.
  unfold getSurroundingLines. cbv zeta.
  replace (S (line position + 10)) with (line position + 10 + 1)%nat by lia.
  rewrite after_window.
  destruct (decide (line position <= lineCount d)%nat) as [H|H].
  - rewrite before_window by exact H. reflexivity.
  - rewrite mapM_lineAt, decide_False by lia. reflexivity.
Qed.

Lemma linesBefore_length d l :
  (l <= lineCount d)%nat -> length (linesBefore d l) = Nat.min 10 l.
Proof.
  intros H. unfold linesBefore, lineCount in *. rewrite length_drop, length_take. lia.
Qed.

Lemma linesAfter_length d l :
  length (linesAfter d l) = Nat.min 10 (lineCount d - S l).
Proof. unfold linesAfter, lineCount. rewrite length_take, length_drop. reflexivity. Qed.

(** X3. [getContext] returns the ten lines before the cursor line and
    the ten lines after it, or as many as there are, and the text made
    of them and of the cursor line, joined by line feeds; it raises when
    the cursor line is not in the document. *)
Theorem getContext_window d position :
  match lineAt d (line position) with
  | Some current =>
      exists before after,
        getContext d position
        = Some (before, after, join newline (before ++ [current] ++ after))
        /\ before = drop (line position - 10) (take (line position) (lines d))
        /\ after = take 10 (drop (S (line position)) (lines d))
        /\ length before = Nat.min 10 (line position)
        /\ length after = Nat.min 10 (lineCount d - S (line position))
  | None => getContext d position = None
  end.
Proof.
  rewrite getContext_lines.
  destruct (lineAt d (line position)) as [current|] eqn:Hc; [|reflexivity].
  apply lookup_lt_Some in Hc.
  eexists _, _. split; [reflexivity|]. split; [reflexivity|]. split; [reflexivity|].
  split; [apply linesBefore_length; unfold lineCount; lia|apply linesAfter_length].
Qed.

(** X3 on an example: the middle line of a document of three lines. *)
Lemma getContext_window_witness :
  exists before after,
    getContext Scenario.addPy (mkPosition 1 0)
    = Some (before, after, join newline (before ++ ["    total = a + b"] ++ after))
    /\ before = ["def add(a, b):"] /\ after = ["    "]
    /\ length before = 1%nat /\ length after = 1%nat.
Proof.
  exact (getContext_window Scenario.addPy (mkPosition 1 0)).
Defined.

(** X4. [getSurroundingLines] returns the same two lists as
    [getContext] for a cursor line of the document; unlike it, it also
    answers for a cursor on the line after the last one, and it raises
    beyond. *)
Theorem getSurroundingLines_window d position :
  (forall before after full,
      getContext d position = Some (before, after, full) ->
      getSurroundingLines d position = Some (before, after))
  /\ (line position = lineCount d ->
         getSurroundingLines d position
         = Some (drop (line position - 10) (lines d), []))
  /\ ((lineCount d < line position)%nat -> getSurroundingLines d position = None).
Proof.
  rewrite getSurroundingLines_lines, getContext_lines. split; [|split].
  - intros before after full H.
    destruct (lineAt d (line position)) as [current|] eqn:Hc; [|discriminate].
    apply lookup_lt_Some in Hc. injection H as <- <- _.
    rewrite decide_True by (unfold lineCount; lia). reflexivity.
  - intros H. rewrite decide_True by lia. unfold linesBefore, linesAfter, lineCount in *.
    rewrite (take_ge (lines d)) by lia. rewrite (drop_ge (lines d) (S _)) by lia. reflexivity.
  - intros H. rewrite decide_False by lia. reflexivity.
Qed.

(** X4 on an example: the middle line of a document of three lines, the
    line after the last one and the next one. *)
Lemma getSurroundingLines_window_witness :
  getSurroundingLines Scenario.addPy (mkPosition 1 0) = Some (["def add(a, b):"], ["    "])
  /\ getSurroundingLines Scenario.addPy (mkPosition 3 0)
     = Some (["def add(a, b):"; "    total = a + b"; "    "], [])
  /\ getSurroundingLines Scenario.addPy (mkPosition 4 0) = None.
Proof.
  split; [|split].
  - apply (proj1 (getSurroundingLines_window Scenario.addPy (mkPosition 1 0))
             ["def add(a, b):"] ["    "]
             (join newline ["def add(a, b):"; "    total = a + b"; "    "])).
    vm_compute. reflexivity.
  - apply (proj1 (proj2 (getSurroundingLines_window Scenario.addPy (mkPosition 3 0)))).
    reflexivity.
  - apply (proj2 (proj2 (getSurroundingLines_window Scenario.addPy (mkPosition 4 0)))).
    vm_compute. lia.
Defined.

(** X5. The request that [buildCompletionRequest] builds for the
    backend: the prompt is the text of the cursor line before the
    cursor, whatever kind of line [analyzeLineType] finds; the language
    is that of the document and the context is the text of the lines
    around the cursor.  No request is built for a line outside the
    document. *)
Theorem buildCompletionRequest_prompt d position :
  buildCompletionRequest d position
  = (lineText ← lineAt d (line position);
     Some {| prompt := substring0 (character position) lineText;
             reqLanguage := languageId d;
             reqContext :=
               join newline
                 (drop (line position - 10) (take (line position) (lines d))
                  ++ [lineText] ++ take 10 (drop (S (line position)) (lines d))) |}).
Proof.
  unfold buildCompletionRequest. rewrite getContext_lines.
  destruct (lineAt d (line position)) as [lineText|]; [|reflexivity].
  cbn [mbind option_bind]. unfold buildPrompt.
  destruct (analyzeLineType _); reflexivity.
Qed.

(** ** The cache key *)

Lemma pretty_N_char_digit x : isDigit (pretty_N_char x) = true.
Proof. unfold pretty_N_char. repeat case_match; reflexivity. Qed.

Lemma pretty_N_go_digits x : forall s,
  allb isDigit s = true -> allb isDigit (pretty_N_go x s) = true.
Proof.
  induction (N.lt_wf_0 x) as [x _ IH]; intros s Hs.
  destruct (decide (x = 0)%N) as [->|Hx]; [exact Hs|].
  rewrite pretty_N_go_step by lia.
  apply IH; [apply N.div_lt; lia|].
  simpl. rewrite pretty_N_char_digit. exact Hs.
Qed.

Lemma pretty_nat_digits (n : nat) : allb isDigit (pretty n) = true.
Proof.
  unfold pretty, pretty_nat, pretty, pretty_N.
  case_decide; [reflexivity|]. apply pretty_N_go_digits. reflexivity.
Qed.

Lemma append_nil_l (s : string) : "" +:+ s = s.
Proof. reflexivity. Qed.

(** Two texts that go on with a colon after a run of digits are the same
    when the runs and what follows the colons are. *)
Lemma digits_colon (x y a b : string) :
  allb isDigit x = true -> allb isDigit y = true ->
  x +:+ ":" +:+ a = y +:+ ":" +:+ b -> x = y /\ a = b.
Proof.
  revert y. induction x as [|c x IH]; intros [|c' y] Hx Hy H;
    rewrite ?append_cons, ?append_nil_l in H.
  - injection H as <-. auto.
  - injection H as <- _. discriminate.
  - injection H as -> _. discriminate.
  - injection H as <- H.
    simpl in Hx, Hy. apply andb_prop in Hx as [_ Hx]. apply andb_prop in Hy as [_ Hy].
    destruct (IH y Hx Hy) as [-> ->]; [|auto].
    rewrite ?append_cons, ?append_nil_l. exact H.
Qed.

Lemma append_inv_l (p a b : string) : p +:+ a = p +:+ b -> a = b.
Proof.
  induction p as [|c p IH]; [auto|]. rewrite !append_cons. intros [= H]. auto.
Qed.

(** X6. Within a file the cache key tells the requests apart: two
    requests on documents with the same path have the same key if and
    only if they are for the same line and column and the text before
    the cursor is the same.  The other lines of the document and its
    language are not part of the key. *)
Theorem buildCacheKey_same_file d1 p1 d2 p2 l1 l2 :
  fsPath d1 = fsPath d2 ->
  lineAt d1 (line p1) = Some l1 ->
  lineAt d2 (line p2) = Some l2 ->
  buildCacheKey d1 p1 = buildCacheKey d2 p2
  <-> p1 = p2 /\ substring0 (character p1) l1 = substring0 (character p2) l2.
Proof.
  intros Hpath H1 H2. unfold buildCacheKey. rewrite H1, H2, Hpath. simpl. split.
  - intros [= H]. apply append_inv_l in H.
    rewrite ?append_cons, ?append_nil_l in H. injection H as H.
    assert (forall x y : string, x +:+ String ":" y = x +:+ ":" +:+ y) as E
      by (intros; rewrite append_cons, append_nil_l; reflexivity).
    rewrite !E in H.
    apply digits_colon in H as [Hl H]; try apply pretty_nat_digits.
    apply digits_colon in H as [Hc H]; try apply pretty_nat_digits.
    apply (inj pretty) in Hl, Hc. destruct p1, p2; simpl in *. subst. auto.
  - intros [-> ->]. reflexivity.
Qed.

(** X6 on an example: two documents with the same path and the same text
    before the cursor, which differ in their language and in their other
    lines, have the same key. *)
Lemma buildCacheKey_same_file_witness :
  buildCacheKey Scenario.typing Scenario.cursor
  = buildCacheKey (mkDocument "/work/add.py" "javascript" [""; ""; "    return 1"])
      Scenario.cursor.
Proof.
  apply (proj2 (buildCacheKey_same_file Scenario.typing Scenario.cursor
                  (mkDocument "/work/add.py" "javascript" [""; ""; "    return 1"])
                  Scenario.cursor "    ret" "    return 1" eq_refl eq_refl eq_refl)).
  split; reflexivity.
Defined.

(** X7. Across files the cache key does not tell the requests apart:
    the path is not escaped, so a request in one file can have the key
    of a request at another position of a file with another path, and
    is then served the answer that the backend gave for that file. *)
Theorem buildCacheKey_collides_across_files :
  let d1 := mkDocument "/work/a" "python" [""; "0:x"] in
  let d2 := mkDocument "/work/a:1" "python" [""; ""; "y"] in
  fsPath d1 <> fsPath d2
  /\ buildCacheKey d1 (mkPosition 1 2) = Some "/work/a:1:2:0:"
  /\ buildCacheKey d2 (mkPosition 2 0) = Some "/work/a:1:2:0:"
  /\ exists w,
       run (initial ConfigManager.defaultConfig 0 Scenario.counter0)
         [Edit 0 d1; Edit 1 d2; Request 0 (mkPosition 1 2) 0; Tick 500; Fire 0;
          Respond 0 (Fulfilled (Scenario.answer "x" (Some 3%Z) (Some 4%Z)));
          Request 1 (mkPosition 2 0) 1] = Some w
       /\ settled w !! 1%nat = Some ["x"]
       /\ length (calls w) = 1%nat.
Proof.
  intros d1 d2. split; [discriminate|]. evaluate.
Qed.

(** ** Invariants of the event loop *)

Lemma wellFormed_initial c t0 tc : wellFormed (initial c t0 tc).
Proof. split; [|split; [|split; [|split]]]; apply map_Forall_empty. Qed.

(** What a request settles its promise with, when it does at once. *)
Lemma provideCompletionItems_value id d document position token w :
  (provideCompletionItems id d document position token w = resolve id [] w)
  \/ (exists K e, cache w !! K = Some e
                  /\ provideCompletionItems id d document position token w
                     = resolve id [text e] w)
  \/ (exists K, provideCompletionItems id d document position token w
                = scheduled id d position token K w).
Proof.
  unfold provideCompletionItems.
  destruct (enabled (config w)); simpl; [|auto].
  destruct (isCancellationRequested token w); [auto|].
  destruct (buildCacheKey document position) as [K|] eqn:HK.
  - destruct (cache w !! K) as [e|] eqn:He.
    + destruct (Z.ltb_spec (now w - timestamp e) CACHE_DURATION) as [Hlt|Hge].
      * right. left. exists K, e.
        rewrite (getCompletionSuggestions_hit _ _ _ _ _ _ K e HK He Hlt). auto.
      * right. right. exists K.
        rewrite (getCompletionSuggestions_miss _ _ _ _ _ _ K HK); [reflexivity|].
        intros e' He'. assert (e' = e) as -> by congruence. exact Hge.
    + right. right. exists K.
      rewrite (getCompletionSuggestions_miss _ _ _ _ _ _ K HK); [reflexivity|].
      intros e' He'. congruence.
  - left. unfold getCompletionSuggestions. rewrite HK. reflexivity.
Qed.

Lemma offered_suggestions o : offered (suggestions o).
Proof.
  unfold offered, suggestions. destruct o as [r|]; [|auto].
  destruct (success r) eqn:Hs; simpl; [|auto].
  destruct (truthy (trim (respText r))) eqn:Ht; [|auto]. right. eauto.
Qed.

Lemma resume_cache_sound id c o w :
  map_Forall (fun _ e => truthy (trim (text e)) = true) (cache w) ->
  map_Forall (fun _ e => truthy (trim (text e)) = true) (cache (resume id c o w)).
Proof.
  intros H. destruct (suggestions o) as [|t l] eqn:Ho.
  - rewrite resume_cache_unwritten by exact Ho. exact H.
  - unfold suggestions in Ho. destruct o as [r|]; [|discriminate].
    destruct (success r && truthy (trim (respText r))) eqn:Hs; [|discriminate].
    apply andb_prop in Hs as [Hs Ht]. rewrite resume_cache_written by assumption.
    intros k e Hk. apply map_lookup_filter_Some in Hk as [Hk _].
    apply lookup_insert_Some in Hk as [[_ <-]|[_ Hk]]; [exact Ht|exact (H k e Hk)].
Qed.

Lemma wellFormed_step w e w' : wellFormed w -> step w e = Some w' -> wellFormed w'.
Proof.
  intros (Ht & Hi & Hs & Hc & Hd) H.
  assert (timers w !! nextId w = None) as Hnt.
  { destruct (timers w !! nextId w) eqn:E; [|reflexivity]. apply Ht in E. lia. }
  assert (inflight w !! nextId w = None) as Hni.
  { destruct (inflight w !! nextId w) eqn:E; [|reflexivity]. apply Hi in E. lia. }
  assert (settled w !! nextId w = None) as Hns.
  { destruct (settled w !! nextId w) eqn:E; [|reflexivity]. apply Hs in E. lia. }
  destruct e as [d pos tok|id|id o|tok|dt|d doc|c|].
  - apply step_request in H as (doc & _ & ->).
    assert (forall v, offered v ->
              wellFormed (resolve (nextId w) v (setNextId (S (nextId w)) w))) as Hres.
    { intros v Hv. split; [|split; [|split; [|split]]]; simpl.
      - intros id tm E. destruct (Ht id tm E) as (? & ? & ?).
        rewrite lookup_insert_ne by lia. auto with lia.
      - intros id cl E. destruct (Hi id cl E) as (? & ?).
        rewrite lookup_insert_ne by lia. auto with lia.
      - intros id v' E. apply lookup_insert_Some in E as [[<- <-]|[_ E]]; [auto with lia|].
        destruct (Hs id v' E). auto with lia.
      - exact Hc.
      - intros K h E. destruct (Hd K h E). auto with lia. }
    destruct (provideCompletionItems_value (nextId w) d doc pos tok
                (setNextId (S (nextId w)) w)) as [->|[(K & en & Hen & ->)|[K ->]]].
    + apply Hres. left. reflexivity.
    + apply Hres. right. exists (text en). split; [reflexivity|]. exact (Hc K en Hen).
    + assert (forall id tm,
                match debounceMap w !! K with
                | Some h => delete h (timers w)
                | None => timers w
                end !! id = Some tm -> timers w !! id = Some tm) as Hsub.
      { intros id tm E.
        destruct (debounceMap w !! K); [apply lookup_delete_Some in E as [_ E]|]; exact E. }
      split; [|split; [|split; [|split]]]; simpl.
      * intros id tm E. apply lookup_insert_Some in E as [[<- _]|[_ E]]; [auto with lia|].
        destruct (Ht id tm (Hsub id tm E)) as (? & ? & ?). auto with lia.
      * intros id cl E. destruct (Hi id cl E). auto with lia.
      * intros id v E. destruct (Hs id v E). auto with lia.
      * exact Hc.
      * intros K' h E. apply lookup_insert_Some in E as [[<- <-]|[Hne E]].
        -- split; [lia|]. intros tm E. rewrite lookup_insert_eq in E.
           injection E as <-. reflexivity.
        -- destruct (Hd K' h E) as [Hlt Hkey]. split; [lia|]. intros tm Etm.
           rewrite lookup_insert_ne in Etm by lia. exact (Hkey tm (Hsub h tm Etm)).
  - apply step_fire in H as (tm & Htm & _ & ->).
    destruct (Ht id tm Htm) as (Hlt & Hin & Hse).
    destruct (timerCallback_shape id tm (setTimers (delete id (timers w)) w))
      as [->|(rq & _ & _ & _ & ->)]; (split; [|split; [|split; [|split]]]); simpl;
      try exact Hc.
    + intros id' tm' E. apply lookup_delete_Some in E as [Hne E].
      destruct (Ht id' tm' E) as (? & ? & ?). rewrite lookup_insert_ne by exact Hne. auto.
    + intros id' cl E. destruct (Hi id' cl E) as (? & ?).
      rewrite lookup_insert_ne by congruence. auto.
    + intros id' v E. apply lookup_insert_Some in E as [[<- <-]|[_ E]];
        [split; [exact Hlt|left; reflexivity]|exact (Hs id' v E)].
    + intros K h E. apply lookup_delete_Some in E as [_ E].
      destruct (Hd K h E) as [? Hkey]. split; [assumption|]. intros tm' E'.
      apply lookup_delete_Some in E' as [_ E']. exact (Hkey tm' E').
    + intros id' tm' E. apply lookup_delete_Some in E as [Hne E].
      destruct (Ht id' tm' E) as (? & ? & ?). rewrite lookup_insert_ne by exact Hne. auto.
    + intros id' cl E. apply lookup_insert_Some in E as [[<- _]|[_ E]]; [auto|exact (Hi id' cl E)].
    + exact Hs.
    + intros K h E. destruct (Hd K h E) as [? Hkey]. split; [assumption|]. intros tm' E'.
      apply lookup_delete_Some in E' as [_ E']. exact (Hkey tm' E').
  - apply step_respond in H as (c & Hcl & ->).
    destruct (Hi id c Hcl) as (Hlt & Hse).
    destruct (resume_frame id c o (setInflight (delete id (inflight w)) w))
      as (Et & Ei & Ed & En & _).
    split; [|split; [|split; [|split]]]; rewrite ?Et, ?Ei, ?Ed, ?En, ?resume_settled; simpl.
    + intros id' tm E. destruct (Ht id' tm E) as (? & ? & ?).
      assert (id' <> id) by congruence.
      rewrite lookup_delete_ne, lookup_insert_ne by congruence. auto.
    + intros id' cl E. apply lookup_delete_Some in E as [Hne E].
      destruct (Hi id' cl E). rewrite lookup_insert_ne by congruence. auto.
    + intros id' v E. apply lookup_insert_Some in E as [[<- <-]|[_ E]];
        [split; [exact Hlt|apply offered_suggestions]|exact (Hs id' v E)].
    + apply (resume_cache_sound id c o (setInflight (delete id (inflight w)) w)). exact Hc.
    + intros K h E. apply lookup_delete_Some in E as [_ E]. exact (Hd K h E).
  - simpl in H. injection H as <-. exact (conj Ht (conj Hi (conj Hs (conj Hc Hd)))).
  - simpl in H. destruct (0 <=? dt)%Z; [|discriminate]. injection H as <-.
    exact (conj Ht (conj Hi (conj Hs (conj Hc Hd)))).
  - simpl in H. injection H as <-. exact (conj Ht (conj Hi (conj Hs (conj Hc Hd)))).
  - simpl in H. injection H as <-. exact (conj Ht (conj Hi (conj Hs (conj Hc Hd)))).
  - simpl in H. injection H as <-. split; [|split; [|split; [|split]]].
    + intros id tm E. apply clearCache_timers in E. exact (Ht id tm E).
    + exact Hi.
    + exact Hs.
    + apply map_Forall_empty.
    + apply map_Forall_empty.
Qed.

Lemma wellFormed_run es : forall w w', wellFormed w -> run w es = Some w' -> wellFormed w'.
Proof.
  induction es as [|e es IH]; intros w w' Hw H; simpl in H.
  - injection H as <-. exact Hw.
  - destruct (step w e) as [w1|] eqn:E; simpl in H; [|discriminate].
    eapply IH; [|exact H]. eapply wellFormed_step; eassumption.
Qed.

(** A settled promise keeps its value. *)
Lemma settled_step w e w' p v :
  wellFormed w -> settled w !! p = Some v -> step w e = Some w' ->
  settled w' !! p = Some v.
Proof.
  intros (Ht & Hi & Hs & _ & _) Hp H.
  destruct (Hs p v Hp) as [Hlt _].
  destruct e as [d pos tok|id|id o|tok|dt|d doc|c|].
  - apply step_request in H as (doc & _ & ->).
    destruct (provideCompletionItems_shape (nextId w) d doc pos tok
                (setNextId (S (nextId w)) w)) as [[v' ->]|(K & _ & _ & _ & _ & ->)]; simpl.
    + rewrite lookup_insert_ne by lia. exact Hp.
    + exact Hp.
  - apply step_fire in H as (tm & Htm & _ & ->).
    destruct (Ht id tm Htm) as (_ & _ & Hse). assert (id <> p) by congruence.
    destruct (timerCallback_shape id tm (setTimers (delete id (timers w)) w))
      as [->|(rq & _ & _ & _ & ->)]; simpl; [|exact Hp].
    rewrite lookup_insert_ne by assumption. exact Hp.
  - apply step_respond in H as (c & Hcl & ->).
    destruct (Hi id c Hcl) as (_ & Hse). assert (id <> p) by congruence.
    rewrite resume_settled. simpl. rewrite lookup_insert_ne by assumption. exact Hp.
  - simpl in H. injection H as <-. exact Hp.
  - simpl in H. destruct (0 <=? dt)%Z; [|discriminate]. injection H as <-. exact Hp.
  - simpl in H. injection H as <-. exact Hp.
  - simpl in H. injection H as <-. exact Hp.
  - simpl in H. injection H as <-. exact Hp.
Qed.

Lemma settled_run es : forall w w' p v,
  wellFormed w -> settled w !! p = Some v -> run w es = Some w' ->
  settled w' !! p = Some v.
Proof.
  induction es as [|e es IH]; intros w w' p v Hw Hp H; simpl in H.
  - injection H as <-. exact Hp.
  - destruct (step w e) as [w1|] eqn:E; simpl in H; [|discriminate].
    eapply IH; [| |exact H].
    + eapply wellFormed_step; eassumption.
    + eapply settled_step; eassumption.
Qed.

(** X8. A promise is settled once: whatever happens after a promise of
    the provider has settled, it keeps the value that it settled
    with. *)
Theorem promise_settles_once c t0 tc es1 w p v es2 w' :
  run (initial c t0 tc) es1 = Some w ->
  settled w !! p = Some v ->
  run w es2 = Some w' ->
  settled w' !! p = Some v.
Proof.
  intros H1 Hp H2. eapply settled_run; [|exact Hp|exact H2].
  eapply wellFormed_run; [apply wellFormed_initial|exact H1].
Qed.

(** X8 on an example: the promise of a first request keeps its value
    while the document is closed and a second request is answered. *)
Lemma promise_settles_once_witness :
  run Session.start Session.firstAnswer = Some Scenario.answered
  /\ settled Scenario.answered !! 0%nat = Some ["x"]
  /\ run Scenario.answered Session.secondAnswer = Some Session.answeredTwice
  /\ settled Session.answeredTwice !! 1%nat = Some ["y"]
  /\ settled Session.answeredTwice !! 0%nat = Some ["x"].
Proof.
  assert (run Session.start Session.firstAnswer = Some Scenario.answered) as H1
    by (vm_compute; reflexivity).
  assert (settled Scenario.answered !! 0%nat = Some ["x"]) as Hp by (vm_compute; reflexivity).
  assert (run Scenario.answered Session.secondAnswer = Some Session.answeredTwice) as H2
    by (vm_compute; reflexivity).
  split; [exact H1|]. split; [exact Hp|]. split; [exact H2|].
  split; [vm_compute; reflexivity|].
  exact (promise_settles_once ConfigManager.defaultConfig 0 Scenario.counter0
           Session.firstAnswer Scenario.answered 0%nat ["x"] Session.secondAnswer
           Session.answeredTwice H1 Hp H2).
Defined.

(** X9. The provider offers at most one suggestion, and never a blank
    one: every promise settles with the empty list or with one text
    that is not blank, from the backend or from the cache. *)
Theorem suggestions_are_not_blank c t0 tc es w p v :
  run (initial c t0 tc) es = Some w ->
  settled w !! p = Some v ->
  v = [] \/ exists t, v = [t] /\ truthy (trim t) = true.
Proof.
  intros H Hp.
  assert (wellFormed w) as (_ & _ & Hs & _ & _)
    by (eapply wellFormed_run; [apply wellFormed_initial|exact H]).
  exact (proj2 (Hs p v Hp)).
Qed.

(** X9 on an example: the promise of a request that the backend answers. *)
Lemma suggestions_are_not_blank_witness :
  run Session.start Session.firstAnswer = Some Scenario.answered
  /\ settled Scenario.answered !! 0%nat = Some ["x"]
  /\ (["x"] = [] \/ exists t, ["x"] = [t] /\ truthy (trim t) = true).
Proof.
  assert (run Session.start Session.firstAnswer = Some Scenario.answered) as H1
    by (vm_compute; reflexivity).
  assert (settled Scenario.answered !! 0%nat = Some ["x"]) as Hp by (vm_compute; reflexivity).
  split; [exact H1|]. split; [exact Hp|].
  exact (suggestions_are_not_blank ConfigManager.defaultConfig 0 Scenario.counter0
           Session.firstAnswer Scenario.answered 0%nat ["x"] H1 Hp).
Defined.

(** ** The delay before a backend call *)

(** The timers of the requests made so far are not replaced: they can
    only go. *)
Lemma timers_old_step w e w' id tm :
  step w e = Some w' -> (id < nextId w)%nat ->
  timers w' !! id = Some tm -> timers w !! id = Some tm.
Proof.
  intros H Hlt Hid.
  destruct e as [d pos tok|id'|id' o|tok|dt|d doc|c|].
  - apply step_request in H as (doc & _ & ->).
    destruct (provideCompletionItems_shape (nextId w) d doc pos tok
                (setNextId (S (nextId w)) w)) as [[v' E]|(K & _ & _ & _ & _ & E)];
      rewrite E in Hid; simpl in Hid; [exact Hid|].
    rewrite lookup_insert_ne in Hid by lia.
    destruct (debounceMap w !! K); [apply lookup_delete_Some in Hid as [_ Hid]|]; exact Hid.
  - apply step_fire in H as (tm' & Htm & _ & ->).
    destruct (timerCallback_shape id' tm' (setTimers (delete id' (timers w)) w))
      as [E|(rq & _ & _ & _ & E)]; rewrite E in Hid; simpl in Hid;
      apply lookup_delete_Some in Hid as [_ Hid]; exact Hid.
  - apply step_respond in H as (c & _ & ->).
    destruct (resume_frame id' c o (setInflight (delete id' (inflight w)) w)) as (Et & _).
    rewrite Et in Hid. exact Hid.
  - simpl in H. injection H as <-. exact Hid.
  - simpl in H. destruct (0 <=? dt)%Z; [|discriminate]. injection H as <-. exact Hid.
  - simpl in H. injection H as <-. exact Hid.
  - simpl in H. injection H as <-. exact Hid.
  - simpl in H. injection H as <-. apply clearCache_timers in Hid. exact Hid.
Qed.

Lemma step_nextId w e w' : step w e = Some w' -> (nextId w <= nextId w')%nat.
Proof.
  intros H. destruct e as [d pos tok|id'|id' o|tok|dt|d doc|c|].
  - apply step_request in H as (doc & _ & ->).
    destruct (provideCompletionItems_shape (nextId w) d doc pos tok
                (setNextId (S (nextId w)) w)) as [[v' ->]|(K & _ & _ & _ & _ & ->)];
      simpl; lia.
  - apply step_fire in H as (tm' & Htm & _ & ->).
    destruct (timerCallback_shape id' tm' (setTimers (delete id' (timers w)) w))
      as [->|(rq & _ & _ & _ & ->)]; simpl; lia.
  - apply step_respond in H as (c & _ & ->).
    destruct (resume_frame id' c o (setInflight (delete id' (inflight w)) w))
      as (_ & _ & _ & -> & _). simpl. lia.
  - simpl in H. injection H as <-. simpl. lia.
  - simpl in H. destruct (0 <=? dt)%Z; [|discriminate]. injection H as <-. simpl. lia.
  - simpl in H. injection H as <-. simpl. lia.
  - simpl in H. injection H as <-. simpl. lia.
  - simpl in H. injection H as <-. simpl. lia.
Qed.

Lemma timers_old_run es : forall w w' id tm,
  run w es = Some w' -> (id < nextId w)%nat ->
  timers w' !! id = Some tm -> timers w !! id = Some tm.
Proof.
  induction es as [|e es IH]; intros w w' id tm H Hlt Hid; simpl in H.
  - injection H as <-. exact Hid.
  - destruct (step w e) as [w1|] eqn:E; simpl in H; [|discriminate].
    pose proof (step_nextId _ _ _ E).
    eapply timers_old_step; [exact E|exact Hlt|].
    eapply IH; [exact H|lia|exact Hid].
Qed.

(** X10. No backend call is made for a request before the debounce
    delay has elapsed: the scheduled execution of a request made at
    time [t] fires at time [t + 500] or later, whatever happens in
    between. *)
Theorem backend_call_waits_for_the_delay c t0 tc es0 w d position token w1 es w2 w3 :
  run (initial c t0 tc) es0 = Some w ->
  step w (Request d position token) = Some w1 ->
  run w1 es = Some w2 ->
  step w2 (Fire (nextId w)) = Some w3 ->
  (now w + DEBOUNCE_DELAY <= now w2)%Z.
Proof.
  intros H0 H1 H2 H3.
  assert (wellFormed w) as (Ht & _)
    by (eapply wellFormed_run; [apply wellFormed_initial|exact H0]).
  apply step_fire in H3 as (tm & Htm & Hdue & _).
  pose proof (step_nextId _ _ _ H1) as Hn.
  assert (nextId w < nextId w1)%nat as Hlt.
  { apply step_request in H1 as (doc & _ & ->).
    destruct (provideCompletionItems_shape (nextId w) d doc position token
                (setNextId (S (nextId w)) w)) as [[v' ->]|(K & _ & _ & _ & _ & ->)];
      simpl; lia. }
  apply (timers_old_run es w1 w2 _ _ H2 Hlt) in Htm.
  apply step_request in H1 as (doc & _ & ->).
  destruct (provideCompletionItems_shape (nextId w) d doc position token
              (setNextId (S (nextId w)) w)) as [[v' E]|(K & _ & _ & _ & _ & E)];
    rewrite E in Htm; simpl in Htm.
  - apply Ht in Htm. lia.
  - rewrite lookup_insert_eq in Htm. injection Htm as <-. simpl in Hdue. exact Hdue.
Qed.

(** X10 on an example: a request made at time 100 fires at time 600. *)
Lemma backend_call_waits_for_the_delay_witness :
  run Session.start [Edit 0 Scenario.typing; Tick 100] = Some Session.opened
  /\ step Session.opened (Request 0 Scenario.cursor 0) = Some Session.requested
  /\ run Session.requested [Tick 500] = Some Session.waited
  /\ step Session.waited (Fire (nextId Session.opened)) = Some Session.called
  /\ now Session.opened = 100%Z
  /\ (now Session.opened + DEBOUNCE_DELAY <= now Session.waited)%Z.
Proof.
  assert (run Session.start [Edit 0 Scenario.typing; Tick 100] = Some Session.opened) as H0
    by (vm_compute; reflexivity).
  assert (step Session.opened (Request 0 Scenario.cursor 0) = Some Session.requested) as H1
    by (vm_compute; reflexivity).
  assert (run Session.requested [Tick 500] = Some Session.waited) as H2
    by (vm_compute; reflexivity).
  assert (step Session.waited (Fire (nextId Session.opened)) = Some Session.called) as H3
    by (vm_compute; reflexivity).
  split; [exact H0|]. split; [exact H1|]. split; [exact H2|]. split; [exact H3|].
  split; [reflexivity|].
  exact (backend_call_waits_for_the_delay ConfigManager.defaultConfig 0 Scenario.counter0
           [Edit 0 Scenario.typing; Tick 100] Session.opened 0%nat Scenario.cursor 0%nat
           Session.requested [Tick 500] Session.waited Session.called H0 H1 H2 H3).
Defined.

(** ** The token counter of the provider *)







(** ** Clearing the cache *)

(** X12. [clearCache], which runs when a document is closed, empties
    the cache and the debounce table and drops the scheduled executions
    that are registered in the table, but it settles nothing: the
    promise of each of them stays pending for ever. *)
Theorem clearCache_abandons_pending_requests c t0 tc es w K id tm w1 es' w' :
  run (initial c t0 tc) es = Some w ->
  debounceMap w !! K = Some id ->
  timers w !! id = Some tm ->
  step w ClearCache = Some w1 ->
  run w1 es' = Some w' ->
  cache w1 = ∅ /\ debounceMap w1 = ∅
  /\ settled w' !! id = None /\ timers w' !! id = None /\ inflight w' !! id = None.
Proof.
  intros H HK Htm H1 H2.
  assert (wellFormed w) as (Ht & _)
    by (eapply wellFormed_run; [apply wellFormed_initial|exact H]).
  destruct (Ht id tm Htm) as (Hlt & Hin & Hse).
  simpl in H1. injection H1 as <-.
  split; [reflexivity|]. split; [reflexivity|].
  assert (abandoned id (clearCache w)) as Ha.
  { split; [exact Hse|]. split; [eapply clearCache_registered; exact HK|].
    split; [exact Hin|exact Hlt]. }
  destruct (abandoned_run id es' _ _ Ha H2) as (? & ? & ? & _). auto.
Qed.

(** X12 on an example: the document is closed while a request is waiting
    for its delay. *)
Lemma clearCache_abandons_pending_requests_witness :
  run Session.start [Edit 0 Scenario.typing; Tick 100; Request 0 Scenario.cursor 0]
  = Some Session.requested
  /\ debounceMap Session.requested !! Scenario.typingKey = Some 0%nat
  /\ step Session.requested ClearCache = Some Session.closed
  /\ run Session.closed [Tick 500; Request 0 Scenario.cursor 1] = Some Session.closedLater
  /\ cache Session.closed = ∅ /\ debounceMap Session.closed = ∅
  /\ settled Session.closedLater !! 0%nat = None
  /\ timers Session.closedLater !! 0%nat = None
  /\ inflight Session.closedLater !! 0%nat = None.
Proof.
  assert (run Session.start [Edit 0 Scenario.typing; Tick 100; Request 0 Scenario.cursor 0]
          = Some Session.requested) as H by (vm_compute; reflexivity).
  assert (debounceMap Session.requested !! Scenario.typingKey = Some 0%nat) as HK
    by (vm_compute; reflexivity).
  assert (timers Session.requested !! 0%nat
          = Some (mkTimer Scenario.typingKey 0 Scenario.cursor 0 600)) as Htm
    by (vm_compute; reflexivity).
  assert (step Session.requested ClearCache = Some Session.closed) as H1
    by (vm_compute; reflexivity).
  assert (run Session.closed [Tick 500; Request 0 Scenario.cursor 1]
          = Some Session.closedLater) as H2 by (vm_compute; reflexivity).
  split; [exact H|]. split; [exact HK|]. split; [exact H1|]. split; [exact H2|].
  exact (clearCache_abandons_pending_requests ConfigManager.defaultConfig 0
           Scenario.counter0 _ Session.requested Scenario.typingKey 0%nat _
           Session.closed _ Session.closedLater H HK Htm H1 H2).
Defined.

(** X13. [clearCache] does not drop the backend calls that are awaited:
    the answer to one that arrives after the cache was cleared is
    written to the cache, which then holds this entry only, and settles
    its promise. *)
Theorem clearCache_keeps_awaited_calls w id c r w1 w2 :
  inflight w !! id = Some c ->
  success r = true -> truthy (trim (respText r)) = true ->
  step w ClearCache = Some w1 ->
  step w1 (Respond id (Fulfilled r)) = Some w2 ->
  cache w2 = {[ callKey c := mkCompletionCache (respText r) (now w)
                               (reqContext (callRequest c)) ]}
  /\ settled w2 !! id = Some [respText r].
Proof.
  intros Hc Hs Ht H1 H2. simpl in H1. injection H1 as <-.
  apply step_respond in H2 as (c' & Hc' & ->). simpl in Hc'.
  rewrite Hc in Hc'. injection Hc' as <-. split.
  - rewrite resume_cache_written by assumption. simpl.
    rewrite insert_empty. apply map_filter_singleton_True.
    simpl. unfold CACHE_DURATION. lia.
  - rewrite resume_settled. unfold suggestions. rewrite Hs, Ht. simpl.
    apply lookup_insert_eq.
Qed.

(** X13 on an example: the document is closed while the backend is
    called. *)
Lemma clearCache_keeps_awaited_calls_witness :
  inflight Scenario.asked !! 0%nat = Some Scenario.theCall
  /\ step Scenario.asked ClearCache = Some Session.closedAsked
  /\ cache Session.closedAsked = ∅
  /\ step Session.closedAsked
       (Respond 0 (Fulfilled (Scenario.answer "x" (Some 3%Z) (Some 4%Z))))
     = Some Session.answeredClosed
  /\ cache Session.answeredClosed
     = {[ Scenario.typingKey
          := mkCompletionCache "x" 500 (reqContext (callRequest Scenario.theCall)) ]}
  /\ settled Session.answeredClosed !! 0%nat = Some ["x"].
Proof.
  assert (inflight Scenario.asked !! 0%nat = Some Scenario.theCall) as Hc
    by (vm_compute; reflexivity).
  assert (step Scenario.asked ClearCache = Some Session.closedAsked) as H1
    by (vm_compute; reflexivity).
  assert (step Session.closedAsked
            (Respond 0 (Fulfilled (Scenario.answer "x" (Some 3%Z) (Some 4%Z))))
          = Some Session.answeredClosed) as H2 by (vm_compute; reflexivity).
  split; [exact Hc|]. split; [exact H1|]. split; [reflexivity|]. split; [exact H2|].
  exact (clearCache_keeps_awaited_calls Scenario.asked 0%nat Scenario.theCall
           (Scenario.answer "x" (Some 3%Z) (Some 4%Z)) Session.closedAsked
           Session.answeredClosed Hc eq_refl eq_refl H1 H2).
Defined.

(** ** Requests that cannot be answered *)

(** X14. A request for a line that is not in the document settles at
    once with no suggestion, whatever the settings and the cancellation
    token: nothing is scheduled and nothing is looked up. *)
Theorem request_beyond_the_document w d document position token :
  documents w !! d = Some document ->
  (lineCount document <= line position)%nat ->
  step w (Request d position token)
  = Some (resolve (nextId w) [] (setNextId (S (nextId w)) w)).
Proof.
  intros Hd Hl. simpl. rewrite Hd. simpl. f_equal.
  unfold provideCompletionItems, getCompletionSuggestions, buildCacheKey, lineAt.
  rewrite (proj2 (lookup_ge_None _ _)) by exact Hl. simpl.
  destruct (negb _); [reflexivity|]. destruct (isCancellationRequested _ _); reflexivity.
Qed.

(** X14 on an example: a request for line 3 of a document of three
    lines. *)
Lemma request_beyond_the_document_witness :
  step (Scenario.world ConfigManager.defaultConfig) (Request 0 (mkPosition 3 0) 0)
  = Some (resolve 0 [] (setNextId 1 (Scenario.world ConfigManager.defaultConfig))).
Proof.
  apply (request_beyond_the_document (Scenario.world ConfigManager.defaultConfig) 0%nat
           Scenario.typing (mkPosition 3 0) 0%nat); [reflexivity|].
  vm_compute. lia.
Defined.

(** ** The settings while work is under way *)

(** X15. The scheduled executions and the continuations of the backend
    calls read no setting, not even [enabled]: a request that was
    scheduled while the feature was enabled fires and calls the
    backend, and its answer is cached and counted, in the same way
    after the feature has been disabled. *)
Theorem scheduled_work_ignores_the_settings w c :
  (forall id, step (setConfig c w) (Fire id) = setConfig c <$> step w (Fire id))
  /\ (forall id o, step (setConfig c w) (Respond id o) = setConfig c <$> step w (Respond id o)).
Proof.
  split.
  - intros id. simpl.
    destruct (timers w !! id) as [tm|]; simpl; [|reflexivity].
    destruct (due tm <=? now w)%Z; [|reflexivity]. simpl. f_equal.
    unfold timerCallback, isCancellationRequested. simpl.
    destruct (bool_decide (timerToken tm ∈ cancelled w)); [reflexivity|].
    destruct (_ ≫= _) as [rq|]; [|reflexivity].
    destruct (negb _); reflexivity.
  - intros id o. simpl.
    destruct (inflight w !! id) as [cl|]; simpl; [|reflexivity]. f_equal.
    unfold resume. destruct o as [r|]; [|reflexivity]. simpl.
    destruct (success r && truthy (trim (respText r))); [|reflexivity].
    destruct (truthyNum (inputTokens r) && truthyNum (outputTokens r)); reflexivity.
Qed.

(** ** Requests with different keys *)

(** X16. Only requests with the same key are coalesced: a request with
    another key (another file, line or column, or another text before
    the cursor) leaves a scheduled execution alone.  Each character
    typed changes the key, so the requests made while typing are not
    coalesced: each one gets its timer and keeps it. *)
Theorem requests_for_other_keys_are_not_coalesced c t0 tc es w id tm d position token w' :
  run (initial c t0 tc) es = Some w ->
  timers w !! id = Some tm ->
  requestKey w d position <> Some (timerKey tm) ->
  step w (Request d position token) = Some w' ->
  timers w' !! id = Some tm.
Proof.
  intros H Hid Hkey H'.
  assert (wellFormed w) as (Ht & _ & _ & _ & Hd)
    by (eapply wellFormed_run; [apply wellFormed_initial|exact H]).
  destruct (Ht id tm Hid) as (Hlt & _).
  apply step_request in H' as (doc & Hdoc & ->).
  destruct (provideCompletionItems_shape (nextId w) d doc position token
              (setNextId (S (nextId w)) w)) as [[v ->]|(K & HK & _ & _ & _ & ->)]; simpl.
  - exact Hid.
  - rewrite lookup_insert_ne by lia.
    destruct (debounceMap w !! K) as [h|] eqn:Hh; [|exact Hid].
    rewrite lookup_delete_ne; [exact Hid|]. intros ->.
    destruct (Hd K id Hh) as [_ Hk]. apply Hkey.
    unfold requestKey. rewrite Hdoc. simpl. rewrite HK, (Hk tm Hid). reflexivity.
Qed.

(** X16 on an example: a request one column to the left of a waiting
    one. *)
Lemma requests_for_other_keys_are_not_coalesced_witness :
  run Session.start [Edit 0 Scenario.typing; Tick 100; Request 0 Scenario.cursor 0]
  = Some Session.requested
  /\ requestKey Session.requested 0 (mkPosition 2 6) = Some "/work/add.py:2:6:    re"
  /\ step Session.requested (Request 0 (mkPosition 2 6) 1) = Some Session.requestedAgain
  /\ timerKey <$> timers Session.requestedAgain !! 1%nat = Some "/work/add.py:2:6:    re"
  /\ timers Session.requestedAgain !! 0%nat
     = Some (mkTimer Scenario.typingKey 0 Scenario.cursor 0 600).
Proof.
  assert (run Session.start [Edit 0 Scenario.typing; Tick 100; Request 0 Scenario.cursor 0]
          = Some Session.requested) as H by (vm_compute; reflexivity).
  assert (timers Session.requested !! 0%nat
          = Some (mkTimer Scenario.typingKey 0 Scenario.cursor 0 600)) as Htm
    by (vm_compute; reflexivity).
  assert (step Session.requested (Request 0 (mkPosition 2 6) 1)
          = Some Session.requestedAgain) as H' by (vm_compute; reflexivity).
  split; [exact H|]. split; [vm_compute; reflexivity|]. split; [exact H'|].
  split; [vm_compute; reflexivity|].
  refine (requests_for_other_keys_are_not_coalesced ConfigManager.defaultConfig 0
            Scenario.counter0 _ Session.requested 0%nat _ 0%nat (mkPosition 2 6) 1%nat
            Session.requestedAgain H Htm _ H').
  vm_compute. discriminate.
Defined.

(** ** The upward scans of the analyzer *)

(** The scan stops at the nearest line, at the cursor line or above it,
    for which [f] answers; it raises when the cursor line is not in the
    document. *)
Lemma scanUp_nearest {A} (f : nat -> string -> option A) d : forall from,
  match scanUp f d from with
  | Some (Some a) =>
      exists l lineText,
        (l <= from)%nat /\ lineAt d l = Some lineText /\ f l lineText = Some a
        /\ forall l' lineText', (l < l' <= from)%nat -> lineAt d l' = Some lineText' ->
                                f l' lineText' = None
  | Some None =>
      (from < lineCount d)%nat
      /\ forall l lineText, (l <= from)%nat -> lineAt d l = Some lineText ->
                            f l lineText = None
  | None => (lineCount d <= from)%nat
  end.
Proof.
  assert (forall l t, lineAt d l = Some t -> (l < lineCount d)%nat) as Hlt
    by (intros l t; apply lookup_lt_Some).
  assert (forall l, lineAt d l = None -> (lineCount d <= l)%nat) as Hge
    by (intros l; apply lookup_ge_None).
  induction from as [|from IH]; cbn [scanUp].
  - destruct (lineAt d 0) as [txt|] eqn:Hl; cbn [mbind option_bind]; [|auto].
    destruct (f 0%nat txt) as [a|] eqn:Hf.
    + exists 0%nat, txt. split; [lia|]. split; [exact Hl|]. split; [exact Hf|]. intros; lia.
    + split; [eauto|]. intros l t Hle Ht.
      assert (l = 0%nat) as -> by lia. congruence.
  - destruct (lineAt d (S from)) as [txt|] eqn:Hl; cbn [mbind option_bind]; [|auto].
    destruct (f (S from) txt) as [a|] eqn:Hf.
    + exists (S from), txt. split; [lia|]. split; [exact Hl|]. split; [exact Hf|]. intros; lia.
    + destruct (scanUp f d from) as [[a|]|].
      * destruct IH as (l & t & Hle & Ht & Hfl & Hnone). exists l, t.
        split; [lia|]. split; [exact Ht|]. split; [exact Hfl|].
        intros l' t' Hl' Ht'. destruct (decide (l' = S from)) as [->|]; [congruence|].
        apply Hnone; [lia|exact Ht'].
      * destruct IH as [_ IH]. split; [eauto|].
        intros l t Hle Ht. destruct (decide (l = S from)) as [->|]; [congruence|].
        apply IH; [lia|exact Ht].
      * apply Hlt in Hl. lia.
Qed.

(** X17. The enclosing function is the nearest declaration above: the
    scope that [analyzeFunctionScope] returns is the one declared on
    the nearest line, at the cursor line or above it, that matches the
    function pattern of the language; where the function ends plays no
    part.  There is none when no line down to the first one matches. *)
Theorem function_scope_is_the_nearest_declaration d position config :
  languageConfigs !! languageId d = Some config ->
  (line position < lineCount d)%nat ->
  (exists fs lineText,
      analyzeFunctionScope d position = Some (Some fs)
      /\ (startLine fs <= line position)%nat
      /\ lineAt d (startLine fs) = Some lineText
      /\ functionAt config (startLine fs) lineText = Some fs
      /\ forall l lineText', (startLine fs < l <= line position)%nat ->
                             lineAt d l = Some lineText' ->
                             exec (functionPattern config) (trim lineText') = None)
  \/ (analyzeFunctionScope d position = Some None
      /\ forall l lineText, (l <= line position)%nat -> lineAt d l = Some lineText ->
                            exec (functionPattern config) (trim lineText) = None).
Proof.
  intros Hconfig Hline. unfold analyzeFunctionScope. rewrite Hconfig.
  assert (forall l t, functionAt config l t = None ->
                      exec (functionPattern config) (trim t) = None) as Hnone.
  { intros l t. unfold functionAt. destruct (exec _ _); [discriminate|reflexivity]. }
  pose proof (scanUp_nearest (functionAt config) d (line position)) as H.
  destruct (scanUp _ d (line position)) as [[fs|]|].
  - left. destruct H as (l & t & Hle & Ht & Hf & Habove).
    pose proof (functionAt_startLine _ _ _ _ Hf) as Hs.
    exists fs, t. rewrite Hs. repeat split; try assumption. intros l' t' Hl' Ht'. eauto.
  - right. destruct H as [_ H]. split; [reflexivity|]. intros l t Hle Ht. eauto.
  - lia.
Qed.

(** X17 on an example: the declaration two lines above the cursor. *)
Lemma function_scope_is_the_nearest_declaration_witness :
  exists fs,
    analyzeFunctionScope Scenario.addPy (mkPosition 2 4) = Some (Some fs)
    /\ startLine fs = 0%nat
    /\ exec py_functionPattern (trim "    total = a + b") = None
    /\ exec py_functionPattern (trim "    ") = None.
Proof.
  destruct (function_scope_is_the_nearest_declaration Scenario.addPy (mkPosition 2 4) python)
    as [(fs & t & H & Hle & Ht & Hf & Habove)|[H _]].
  - reflexivity.
  - vm_compute. lia.
  - exists fs.
    assert (startLine fs = 0%nat) as Hs
      by (vm_compute in H; injection H as <-; reflexivity).
    split; [exact H|]. split; [exact Hs|]. rewrite Hs in Habove. split.
    + apply (Habove 1%nat); [simpl; lia|reflexivity].
    + apply (Habove 2%nat); [simpl; lia|reflexivity].
  - vm_compute in H. discriminate.
Defined.

(** ** The variables above the cursor *)

Lemma variablesUp_lines config d cursor : forall from vs,
  variablesUp config d cursor from = Some vs ->
  Forall (fun v => (varLine v <= from)%nat
                   /\ scope v = (if Nat.eqb (varLine v) cursor then local else global)) vs
  /\ StronglySorted (fun a b => (varLine b < varLine a)%nat) vs.
Proof.
  induction from as [|from IH]; intros vs H; simpl in H;
    destruct (lineAt d _) as [t|]; simpl in H; try discriminate.
  - injection H as <-. destruct (exec _ _); repeat constructor.
  - destruct (variablesUp config d cursor from) as [rest|]; simpl in H; [|discriminate].
    injection H as <-. destruct (IH rest eq_refl) as [Hall Hsorted].
    assert (Forall (fun v => (varLine v <= S from)%nat
                             /\ scope v = (if Nat.eqb (varLine v) cursor then local else global))
              rest) as Hall'
      by (eapply Forall_impl; [exact Hall|]; simpl; intros v [? ?]; auto with lia).
    destruct (exec _ _); simpl; [|auto]. split.
    + constructor; [simpl; auto|exact Hall'].
    + constructor; [exact Hsorted|].
      eapply Forall_impl; [exact Hall|]. simpl. intros v [? _]. lia.
Qed.

(** X18. [extractVariables] lists the variables from the cursor line
    upwards, at most one for a line; one declared on the cursor line is
    [local], every other one is [global], whatever function or class it
    is declared in, and none is a [parameter]. *)
Theorem variables_are_listed_upwards d position vs :
  extractVariables d position = Some vs ->
  StronglySorted (fun a b => (varLine b < varLine a)%nat) vs
  /\ Forall (fun v => (varLine v <= line position)%nat
                      /\ scope v = (if decide (varLine v = line position) then local
                                    else global)) vs.
Proof.
  unfold extractVariables. destruct (languageConfigs !! languageId d) as [config|].
  - intros H. apply variablesUp_lines in H as [Hall Hsorted]. split; [exact Hsorted|].
    eapply Forall_impl; [exact Hall|]. simpl. intros v [Hle ->]. split; [exact Hle|].
    destruct (Nat.eqb_spec (varLine v) (line position)), (decide _); congruence.
  - intros [= <-]. split; constructor.
Qed.

(** X18 on an example: the variable declared above the cursor. *)
Lemma variables_are_listed_upwards_witness :
  extractVariables Scenario.addPy (mkPosition 2 4) = Some Session.addVariables
  /\ varLine <$> Session.addVariables = [1%nat]
  /\ scope <$> Session.addVariables = [global]
  /\ StronglySorted (fun a b => (varLine b < varLine a)%nat) Session.addVariables.
Proof.
  assert (extractVariables Scenario.addPy (mkPosition 2 4) = Some Session.addVariables) as H
    by (vm_compute; reflexivity).
  split; [exact H|]. split; [reflexivity|]. split; [reflexivity|].
  exact (proj1 (variables_are_listed_upwards Scenario.addPy (mkPosition 2 4)
                  Session.addVariables H)).
Defined.

(** ** The kinds of line *)

(** X19. Of the kinds of line, [determineCodeType] never returns
    [interface_declaration] and [type_declaration]. *)
Theorem determineCodeType_never_returns lineText language :
  determineCodeType lineText language <> interface_declaration
  /\ determineCodeType lineText language <> type_declaration.
Proof.
  unfold determineCodeType. destruct (languageConfigs !! language) as [config|];
    [|split; discriminate].
  repeat match goal with
         | |- context [if ?b then _ else _] => destruct b
         end; split; discriminate.
Qed.

(** ** Indentation *)

Lemma leadingSpace_trimStart (s : string) : leadingSpace s +:+ trimStart s = s.
Proof.
  induction s as [|c s IH]; [reflexivity|]. simpl.
  destruct (isSpace c); [rewrite append_cons, IH|]; reflexivity.
Qed.

Lemma leadingSpace_spaces (s : string) : allb isSpace (leadingSpace s) = true.
Proof.
  induction s as [|c s IH]; [reflexivity|]. simpl.
  destruct (isSpace c) eqn:Hc; [simpl; rewrite Hc; exact IH|reflexivity].
Qed.

Lemma trimStart_stops (s : string) : stopsAt CSpace (trimStart s).
Proof.
  induction s as [|c s IH]; [reflexivity|]. simpl.
  destruct (isSpace c) eqn:Hc; [exact IH|exact Hc].
Qed.

(** X20. The indentation that [getIndentation] returns is the longest
    prefix of white space of the line: the pattern ^(\s* ) matches
    every line, and its group is that prefix, which is followed by the
    line without its leading white space. *)
Theorem getIndentation_is_the_leading_white_space lineText :
  exec indentationPattern lineText
  = Some [Some (getIndentation lineText); Some (getIndentation lineText)]
  /\ getIndentation lineText +:+ trimStart lineText = lineText
  /\ allb isSpace (getIndentation lineText) = true
  /\ stopsAt CSpace (trimStart lineText).
Proof.
  unfold getIndentation.
  split; [|split; [apply leadingSpace_trimStart|split;
                   [apply leadingSpace_spaces|apply trimStart_stops]]].
  rewrite <- (leadingSpace_trimStart lineText) at 1.
  apply exec_here. unfold matchHere.
  cbv [indentationPattern rx ngroups Seqs ws].
  rewrite rmatch_seq, rmatch_bol, rmatch_grp.
  apply rmatch_star_run; [apply leadingSpace_spaces|apply trimStart_stops|].
  intros p. cbv beta. rewrite consumed_append. reflexivity.
Qed.

(** ** Totality *)

Lemma variablesUp_total config d cursor : forall from,
  (from < lineCount d)%nat -> is_Some (variablesUp config d cursor from).
Proof.
  induction from as [|from IH]; intros H; cbn [variablesUp];
    destruct (lookup_lt_is_Some_2 (lines d) _ H) as [t Ht];
    unfold lineAt at 1; rewrite Ht; cbn [mbind option_bind]; [eauto|].
  destruct IH as [rest ->]; [lia|]. cbn [mbind option_bind]. eauto.
Qed.

Lemma linesBetween_total d l from :
  (from < lineCount d)%nat -> is_Some (linesBetween d l from).
Proof.
  intros H. unfold linesBetween. rewrite mapM_lineAt.
  rewrite decide_True by lia. eauto.
Qed.

Lemma analyzeClassScope_total d position :
  (line position < lineCount d)%nat -> is_Some (analyzeClassScope d position).
Proof.
  intros H. unfold analyzeClassScope, extractMethods, extractProperties.
  destruct (languageConfigs !! languageId d) as [config|]; [|eauto].
  match goal with |- context [scanUp ?f d (line position)] =>
    pose proof (scanUp_nearest f d (line position)) as Hscan;
    destruct (scanUp f d (line position)) as [[[l m]|]|]
  end; cbn [mbind option_bind]; [|eauto|lia].
  destruct (linesBetween_total d l (line position) H) as [ls ->].
  cbn [mbind option_bind]. eauto.
Qed.

(** X21. [analyzeContext] answers for every cursor whose line is in
    the document, whatever the column and the language, and raises for
    every other one: none of its loops leaves the document. *)
Theorem analyzeContext_answers_inside_the_document d position :
  is_Some (analyzeContext d position) <-> (line position < lineCount d)%nat.
Proof.
  unfold analyzeContext. split.
  - intros [ctx H]. destruct (lineAt d (line position)) as [t|] eqn:Ht; [|discriminate].
    eapply lookup_lt_Some, Ht.
  - intros H. destruct (lookup_lt_is_Some_2 (lines d) _ H) as [t Ht].
    unfold lineAt at 1. rewrite Ht. cbn [mbind option_bind].
    rewrite getSurroundingLines_lines, decide_True by lia. cbn [mbind option_bind].
    assert (is_Some (analyzeFunctionScope d position)) as [fs ->].
    { unfold analyzeFunctionScope. destruct (languageConfigs !! languageId d) as [config|];
        [|eauto].
      pose proof (scanUp_nearest (functionAt config) d (line position)) as Hscan.
      destruct (scanUp _ d (line position)); [eauto|lia]. }
    cbn [mbind option_bind].
    destruct (analyzeClassScope_total d position H) as [cs ->]. cbn [mbind option_bind].
    assert (is_Some (extractVariables d position)) as [vs ->].
    { unfold extractVariables. destruct (languageConfigs !! languageId d) as [config|];
        [|eauto]. apply variablesUp_total, H. }
    cbn [mbind option_bind]. eauto.
Qed.

(** ** Languages without a configuration *)

(** X22. A document in a language other than the four that have a
    configuration (TypeScript, for instance) is analysed without
    scopes, imports and variables, and its line is [general]; the lines
    around the cursor and the indentation are found all the same. *)
Theorem unknown_language_is_general d position lineText :
  languageId d ∉ ["javascript"; "python"; "java"; "cpp"] ->
  lineAt d (line position) = Some lineText ->
  analyzeContext d position
  = Some {| language := languageId d;
            currentLine := substring0 (character position) lineText;
            previousLines := drop (line position - 10) (take (line position) (lines d));
            nextLines := take 10 (drop (S (line position)) (lines d));
            functionScope := None;
            classScope := None;
            importStatements := [];
            variables := [];
            codeType := general;
            indentation := getIndentation lineText |}.
Proof.
  intros Hlang Hline.
  assert (languageConfigs !! languageId d = None) as Hnone.
  { unfold languageConfigs. rewrite !not_elem_of_cons in Hlang.
    destruct Hlang as (? & ? & ? & ? & _).
    rewrite !lookup_insert_ne by congruence. apply lookup_empty. }
  pose proof (lookup_lt_Some _ _ _ Hline) as Hlt.
  unfold analyzeContext. rewrite Hline. cbn [mbind option_bind].
  rewrite getSurroundingLines_lines, decide_True by (unfold lineCount; lia).
  unfold analyzeFunctionScope, analyzeClassScope, extractImportStatements,
    extractVariables, determineCodeType.
  rewrite Hnone. reflexivity.
Qed.

(** X22 on an example: a TypeScript document. *)
Lemma unknown_language_is_general_witness :
  let d := mkDocument "/work/add.ts" "typescript" ["function add(a: number) {"] in
  exists ctx, analyzeContext d (mkPosition 0 8) = Some ctx
              /\ functionScope ctx = None /\ codeType ctx = general.
Proof.
  intros d. eexists. split; [|split].
  - apply (unknown_language_is_general d (mkPosition 0 8) "function add(a: number) {");
      [|reflexivity].
    unfold d. simpl. rewrite !not_elem_of_cons. repeat split; try discriminate.
    apply not_elem_of_nil.
  - reflexivity.
  - reflexivity.
Defined.

(** ** The enclosing class *)

Lemma collect_length {A} (f : string -> option A) ls :
  (length (collect f ls) <= length ls)%nat.
Proof.
  unfold collect. induction ls as [|x ls IH]; [reflexivity|].
  cbn [omap list_omap length]. destruct (f x); cbn [length]; lia.
Qed.

Lemma linesBetween_length d l from ls :
  linesBetween d l from = Some ls -> length ls = (from - S l)%nat.
Proof.
  unfold linesBetween. rewrite mapM_lineAt.
  destruct (decide _) as [H|]; [|discriminate]. intros [= <-].
  rewrite length_take, length_drop. unfold lineCount in H. lia.
Qed.

Lemma linesBetween_lines d l from ls :
  linesBetween d l from = Some ls -> ls = linesWithin d l from.
Proof.
  unfold linesBetween, linesWithin. rewrite mapM_lineAt.
  destruct (decide _); [|discriminate]. intros [= <-]. reflexivity.
Qed.

(** A line of the window is a line of the document strictly between
    its ends. *)
Lemma elem_of_linesWithin d a b lineText :
  lineText ∈ linesWithin d a b
  <-> exists l, (a < l < b)%nat /\ lineAt d l = Some lineText.
Proof.
  unfold linesWithin, lineAt. rewrite elem_of_take. split.
  - intros (i & Hi & Hlt). rewrite lookup_drop in Hi. exists (S a + i)%nat.
    split; [lia|exact Hi].
  - intros (l & Hl & Hi). exists (l - S a)%nat. rewrite lookup_drop.
    replace (S a + (l - S a))%nat with l by lia. split; [exact Hi|lia].
Qed.

(** X23. The class that [analyzeClassScope] returns is declared on the
    nearest line above that matches the class pattern.  Its methods
    and its properties are those declared on the lines strictly between
    that line and the cursor line, in the order of the lines and one at
    most for a line: a member declared on the line of the class, on the
    cursor line or below it is not listed.  Properties are listed for
    JavaScript only, the one language whose configuration has a
    property pattern. *)
Theorem class_members_are_above_the_cursor d position config cs :
  languageConfigs !! languageId d = Some config ->
  analyzeClassScope d position = Some (Some cs) ->
  (classStartLine cs <= line position)%nat
  /\ (exists lineText classMatch,
         lineAt d (classStartLine cs) = Some lineText
         /\ exec (classPattern config) (trim lineText) = Some classMatch
         /\ className cs = group classMatch 1
         /\ extends cs = group classMatch 2)
  /\ (forall l lineText, (classStartLine cs < l <= line position)%nat ->
                         lineAt d l = Some lineText ->
                         exec (classPattern config) (trim lineText) = None)
  /\ methods cs
     = omap (methodOn config) (linesWithin d (classStartLine cs) (line position))
  /\ properties cs
     = omap (propertyOn config) (linesWithin d (classStartLine cs) (line position))
  /\ (forall m, m ∈ methods cs
                <-> exists l lineText,
                      (classStartLine cs < l < line position)%nat
                      /\ lineAt d l = Some lineText
                      /\ methodOn config lineText = Some m)
  /\ (forall p, p ∈ properties cs
                <-> exists l lineText,
                      (classStartLine cs < l < line position)%nat
                      /\ lineAt d l = Some lineText
                      /\ propertyOn config lineText = Some p)
  /\ (length (methods cs) <= line position - S (classStartLine cs))%nat
  /\ (length (properties cs) <= line position - S (classStartLine cs))%nat
  /\ (languageId d <> "javascript" -> properties cs = []).
Proof.
  intros Hconfig H. unfold analyzeClassScope, extractMethods, extractProperties in H.
  rewrite Hconfig in H.
  match type of H with context [scanUp ?f d (line position)] =>
    pose proof (scanUp_nearest f d (line position)) as Hscan;
    destruct (scanUp f d (line position)) as [[[l m]|]|]
  end; cbn [mbind option_bind] in H; try discriminate.
  destruct (linesBetween d l (line position)) as [ls|] eqn:Hls;
    cbn [mbind option_bind] in H; [|discriminate].
  injection H as <-. cbn [classStartLine className extends methods properties].
  destruct Hscan as (l' & t & Hle & Ht & Hf & Habove).
  destruct (exec (classPattern config) (trim t)) as [m'|] eqn:Hm;
    cbn [mbind option_bind] in Hf; [|discriminate].
  injection Hf as <- <-.
  pose proof (linesBetween_length _ _ _ _ Hls) as Hlen.
  apply linesBetween_lines in Hls. subst ls.
  assert (forall {A} (f : string -> option A) (x : A),
             x ∈ omap f (linesWithin d l' (line position))
             <-> exists l lineText, (l' < l < line position)%nat
                                    /\ lineAt d l = Some lineText /\ f lineText = Some x)
    as Hmem.
  { intros A f x. rewrite list_elem_of_omap. split.
    - intros (lineText & Hin & Hx). apply elem_of_linesWithin in Hin as (l & Hl & Hat).
      exists l, lineText. auto.
    - intros (l & lineText & Hl & Hat & Hx). exists lineText. split; [|exact Hx].
      apply elem_of_linesWithin. exists l. auto. }
  split; [exact Hle|]. split; [exists t, m'; auto|].
  split; [|split; [reflexivity|split; [reflexivity|split; [|split; [|split; [|split]]]]]].
  - intros l0 t0 Hl0 Ht0. specialize (Habove l0 t0 Hl0 Ht0).
    destruct (exec (classPattern config) (trim t0)); [discriminate|reflexivity].
  - intros name. apply (Hmem _ (methodOn config)).
  - intros p. apply (Hmem _ (propertyOn config)).
  - rewrite <- Hlen. apply collect_length.
  - rewrite <- Hlen. apply collect_length.
  - intros Hjs.
    assert (propertyPattern config = None) as Hnone.
    { unfold languageConfigs in Hconfig.
      repeat (apply lookup_insert_Some in Hconfig as [[_ <-]|[_ Hconfig]]; [reflexivity|]).
      apply lookup_insert_Some in Hconfig as [[E _]|[_ Hconfig]]; [congruence|].
      rewrite lookup_empty in Hconfig. discriminate. }
    unfold collect. rewrite Hnone. clear.
    induction (linesWithin d l' (line position)) as [|x ls IH]; [reflexivity|exact IH].
Qed.

(** X23 on an example: a class with two methods, the cursor on the
    declaration of the second one, which is not listed. *)
Lemma class_members_are_above_the_cursor_witness :
  analyzeClassScope Session.shapePy (mkPosition 3 4) = Some (Some Session.shapeScope)
  /\ className Session.shapeScope = Some "Shape"
  /\ classStartLine Session.shapeScope = 0%nat
  /\ methods Session.shapeScope = ["area"]
  /\ methodOn python "    def name(self):" = Some "name"
  /\ (forall m, m ∈ methods Session.shapeScope
                <-> exists l lineText,
                      (classStartLine Session.shapeScope < l < 3)%nat
                      /\ lineAt Session.shapePy l = Some lineText
                      /\ methodOn python lineText = Some m)
  /\ properties Session.shapeScope = [].
Proof.
  assert (analyzeClassScope Session.shapePy (mkPosition 3 4) = Some (Some Session.shapeScope))
    as H by (vm_compute; reflexivity).
  destruct (class_members_are_above_the_cursor Session.shapePy (mkPosition 3 4) python
              Session.shapeScope eq_refl H) as (_ & _ & _ & _ & _ & Hm & _ & _ & _ & Hp).
  split; [exact H|]. split; [reflexivity|]. split; [reflexivity|]. split; [reflexivity|].
  split; [vm_compute; reflexivity|]. split; [exact Hm|]. apply Hp. discriminate.
Defined.

(** ** Trimming *)

Lemma trimStart_spaces (sp s : string) : spaces sp -> trimStart (sp +:+ s) = trimStart s.
Proof.
  unfold spaces. induction sp as [|c sp IH]; [reflexivity|]. simpl.
  intros H. apply andb_prop in H as [Hc H]. rewrite ?append_cons. simpl. rewrite Hc. auto.
Qed.

Lemma trimStart_length (s : string) : (String.length (trimStart s) <= String.length s)%nat.
Proof. induction s as [|y s IH]; simpl; [lia|]. destruct (isSpace y); simpl; lia. Qed.

Lemma trimStart_append (nm s : string) :
  nm <> "" -> trimStart nm = nm -> trimStart (nm +:+ s) = nm +:+ s.
Proof.
  intros Hne H. destruct nm as [|x nm]; [congruence|]. rewrite append_cons. simpl in *.
  destruct (isSpace x); [|reflexivity].
  exfalso. apply (f_equal String.length) in H. simpl in H.
  pose proof (trimStart_length nm). lia.
Qed.

Lemma trimEnd_spaces (sp : string) : spaces sp -> trimEnd sp = "".
Proof.
  unfold spaces. induction sp as [|c sp IH]; [reflexivity|]. simpl.
  intros H. apply andb_prop in H as [Hc H]. rewrite (IH H), Hc. reflexivity.
Qed.

Lemma trimEnd_append (a b : string) :
  trimEnd (a +:+ b) = if truthy (trimEnd b) then a +:+ trimEnd b else trimEnd a.
Proof.
  induction a as [|c a IH].
  - rewrite !append_nil_l. destruct (trimEnd b); reflexivity.
  - rewrite append_cons. simpl. rewrite IH.
    destruct (trimEnd b) as [|x y] eqn:Hb; simpl; [reflexivity|].
    destruct a; reflexivity.
Qed.

Lemma trimEnd_cons c (s : string) :
  isSpace c = false -> exists s', trimEnd (String c s) = String c s'.
Proof. intros H. simpl. rewrite H. destruct (trimEnd s); eauto. Qed.

(** ** The part of a text before a separator *)

Lemma hd_split sep (s : string) : hd "" (split sep s) = upTo sep s.
Proof.
  induction s as [|c s IH]; [reflexivity|]. simpl.
  destruct (Ascii.eqb c sep); [reflexivity|].
  destruct (split sep s); simpl in *; rewrite <- IH; reflexivity.
Qed.

Lemma upTo_append sep (a s : string) :
  includes sep a = false -> upTo sep (a +:+ s) = a +:+ upTo sep s.
Proof.
  induction a as [|c a IH]; [reflexivity|]. simpl. intros H.
  apply orb_false_iff in H as [Hc Ha]. rewrite !append_cons. simpl.
  rewrite (Ascii.eqb_sym c sep), Hc, (IH Ha). reflexivity.
Qed.

Lemma upTo_absent sep (a : string) : includes sep a = false -> upTo sep a = a.
Proof.
  induction a as [|c a IH]; [reflexivity|]. simpl. intros H.
  apply orb_false_iff in H as [Hc Ha]. rewrite (Ascii.eqb_sym c sep), Hc, (IH Ha). reflexivity.
Qed.

Lemma append_nil_r (s : string) : s +:+ "" = s.
Proof. induction s as [|c s IH]; [reflexivity|]. rewrite append_cons, IH. reflexivity. Qed.

(** ** The names of the parameters *)

Lemma spaces_exclude sep (sp : string) :
  isSpace sep = false -> spaces sp -> includes sep sp = false.
Proof. intros Hsep Hsp. eapply includes_outside; eassumption. Qed.

(** What [extractParameters] makes of one parameter. *)
Lemma parameter_name nm txt :
  parameterName nm -> parameterText nm txt ->
  includes "," txt = false
  /\ truthy (trim txt) = true
  /\ trim (hd "" (split ":" (hd "" (split "=" (trim txt))))) = nm.
Proof.
  intros (Hne & [Hts Hte] & Hcomma & Hcolon & Heq) Htxt.
  assert (truthy nm = true) as Htruthy by (destruct nm; [congruence|reflexivity]).
  assert (truthy (trimEnd nm) = true) as Htruthy' by (rewrite Hte; exact Htruthy).
  destruct Htxt as [sp1 sp2 Hsp1 Hsp2|sp1 sp2 c more Hsp1 Hsp2 Hc Hmore].
  - split; [|split].
    + rewrite !includes_append, Hcomma.
      rewrite !(spaces_exclude ","%char) by (assumption || reflexivity). reflexivity.
    + unfold trim. rewrite trimStart_spaces by exact Hsp1.
      rewrite trimStart_append by assumption.
      rewrite trimEnd_append, (trimEnd_spaces sp2 Hsp2). simpl. rewrite Hte. exact Htruthy.
    + unfold trim at 2. rewrite trimStart_spaces by exact Hsp1.
      rewrite trimStart_append by assumption.
      rewrite trimEnd_append, (trimEnd_spaces sp2 Hsp2). simpl. rewrite Hte.
      rewrite !hd_split.
      rewrite (upTo_absent "="%char nm) by exact Heq.
      rewrite (upTo_absent ":"%char nm) by exact Hcolon.
      unfold trim. rewrite Hts. exact Hte.
  - assert (isSpace c = false) as Hcs by (destruct Hc as [->| ->]; reflexivity).
    destruct (trimEnd_cons c more Hcs) as [more' Hmore'].
    assert (trim (sp1 +:+ nm +:+ sp2 +:+ String c more) = nm +:+ sp2 +:+ String c more')
      as Htrim.
    { unfold trim. rewrite trimStart_spaces by exact Hsp1.
      rewrite trimStart_append by assumption.
      assert (trimEnd (sp2 +:+ String c more) = sp2 +:+ String c more') as E
        by (rewrite trimEnd_append, Hmore'; reflexivity).
      rewrite trimEnd_append, E.
      destruct sp2; reflexivity. }
    split; [|split].
    + rewrite !includes_append, Hcomma.
      rewrite !(spaces_exclude ","%char) by (assumption || reflexivity).
      simpl. rewrite Hmore. destruct Hc as [->| ->]; reflexivity.
    + rewrite Htrim. destruct nm; [congruence|reflexivity].
    + rewrite Htrim, !hd_split.
      assert (trim (nm +:+ sp2) = nm) as Hnm.
      { unfold trim.
        rewrite trimStart_append by assumption.
        rewrite trimEnd_append, (trimEnd_spaces sp2 Hsp2). simpl. exact Hte. }
      destruct Hc as [->| ->].
      * rewrite (upTo_append "="%char nm) by exact Heq.
        rewrite (upTo_append "="%char sp2) by (apply spaces_exclude; [reflexivity|exact Hsp2]).
        change (upTo "=" (String ":" more')) with (String ":" (upTo "=" more')).
        rewrite (upTo_append ":"%char nm) by exact Hcolon.
        rewrite (upTo_append ":"%char sp2) by (apply spaces_exclude; [reflexivity|exact Hsp2]).
        change (upTo ":" (String ":" (upTo "=" more'))) with "".
        rewrite append_nil_r. exact Hnm.
      * rewrite (upTo_append "="%char nm) by exact Heq.
        rewrite (upTo_append "="%char sp2) by (apply spaces_exclude; [reflexivity|exact Hsp2]).
        change (upTo "=" (String "=" more')) with "".
        rewrite append_nil_r, upTo_absent; [exact Hnm|].
        rewrite includes_append, Hcolon.
        apply spaces_exclude; [reflexivity|exact Hsp2].
Qed.

Lemma parameters_names (ps : list (string * string)) :
  Forall (fun p => parameterName p.1 /\ parameterText p.1 p.2) ps ->
  Forall (fun y => includes "," y = false) (ps.*2)
  /\ map (fun param => trim (hd "" (split ":" (hd "" (split "=" param)))))
       (List.filter truthy (map trim (ps.*2))) = ps.*1.
Proof.
  induction 1 as [|[nm txt] ps [Hnm Htxt] _ [IH1 IH2]]; [split; [constructor|reflexivity]|].
  destruct (parameter_name nm txt Hnm Htxt) as (Hcomma & Htruthy & Hname).
  split; [constructor; assumption|].
  cbn [fmap list_fmap snd fst map List.filter]. simpl in Htruthy. rewrite Htruthy.
  cbn [map]. f_equal; [exact Hname|exact IH2].
Qed.

(** X24. The names of the parameters: from a list of parameters
    separated by commas, each a name possibly followed by a type
    annotation or a default value, [extractParameters] returns the
    names, in order. *)
Theorem extractParameters_names (ps : list (string * string)) :
  Forall (fun p => parameterName p.1 /\ parameterText p.1 p.2) ps ->
  extractParameters (join "," (ps.*2)) = ps.*1.
Proof.
  intros H. destruct (parameters_names ps H) as [Hcomma Hnames].
  unfold extractParameters.
  destruct ps as [|p ps]; [reflexivity|].
  cbn [fmap list_fmap] in *. rewrite split_join by exact Hcomma. exact Hnames.
Qed.

(** X24 on an example: an annotated parameter with a default value, a
    starred one and one with a default value. *)
Lemma extractParameters_names_witness :
  extractParameters " a: int = 1,*rest ,b=2" = ["a"; "*rest"; "b"].
Proof.
  apply (extractParameters_names [("a", " a: int = 1"); ("*rest", "*rest "); ("b", "b=2")]).
  assert (forall nm, nm <> "" -> trimStart nm = nm -> trimEnd nm = nm ->
            includes "," nm = false -> includes ":" nm = false ->
            includes "=" nm = false -> parameterName nm) as Hname
    by (intros nm ? ? ? ? ? ?; repeat split; assumption).
  constructor; [split|constructor; [split|constructor; [split|constructor]]].
  - apply Hname; (discriminate || reflexivity).
  - apply (AnnotatedParameter "a" " " "" ":" " int = 1"); auto; reflexivity.
  - apply Hname; (discriminate || reflexivity).
  - apply (BareParameter "*rest" "" " "); reflexivity.
  - apply Hname; (discriminate || reflexivity).
  - apply (AnnotatedParameter "b" "" "" "=" "2"); auto; reflexivity.
Defined.

(** ** The function pattern of Python *)

Lemma exec_pythonDef a nm params ret lineText :
  pythonDef a nm params ret lineText ->
  exists whole,
    exec py_functionPattern lineText = Some [Some whole; Some nm; Some params; ret].
Proof.
  intros [sp1 sp2 ann rest Ha Hsp11 Hsp1 [Hn1 Hn] Hsp2 Hparams Hann].
  apply noneOf_run in Hparams.
  assert (forall x, stopsAt CSpace (nm +:+ x)) as Hstop1
    by (intros x; eapply stopsAt_nonempty; [apply isWord_not_isSpace|assumption|exact Hn]).
  assert (forall x, stopsAt CWord (sp2 +:+ "(" +:+ x)) as Hstop2
    by (intros x; eapply stopsAt_append; [apply isSpace_not_isWord|exact Hsp2|];
        apply stopsAt_cons; reflexivity).
  destruct Ha as [|sp0 Hsp01 Hsp0], Hann as [|sp3 sp4 t Hsp3 Hsp4 [Ht1 Ht]];
    eexists;
    rewrite ?append_assoc;
    repeat match goal with
           | |- context [EmptyString +:+ ?x] => change (EmptyString +:+ x) with x
           end;
    apply exec_here; unfold matchHere;
    cbv [py_functionPattern rx ngroups Seqs Alts asyncPrefix Opt ws wd notChr]; rx.
  - rx_plus; [apply Hstop1|]. rx. rx_plus; [apply Hstop2|].
    rewrite consumed_append. rx.
    rx_star; [apply stopsAt_cons; reflexivity|]. rx.
    rx_star; [apply stopsAt_cons; reflexivity|]. rewrite consumed_append. rx. reflexivity.
  - rx_plus; [apply Hstop1|]. rx. rx_plus; [apply Hstop2|].
    rewrite consumed_append. rx.
    rx_star; [apply stopsAt_cons; reflexivity|]. rx.
    rx_star; [apply stopsAt_cons; reflexivity|]. rewrite consumed_append. rx.
    rx_star; [apply stopsAt_cons; reflexivity|]. rx.
    rx_star; [eapply stopsAt_nonempty; [apply isWord_not_isSpace|assumption|exact Ht]|]. rx.
    rx_plus; [apply stopsAt_cons; reflexivity|].
    rewrite consumed_append. rx. reflexivity.
  - rx_plus; [apply stopsAt_cons; reflexivity|]. rx.
    rx_plus; [apply Hstop1|]. rx. rx_plus; [apply Hstop2|].
    rewrite consumed_append. rx.
    rx_star; [apply stopsAt_cons; reflexivity|]. rx.
    rx_star; [apply stopsAt_cons; reflexivity|]. rewrite consumed_append. rx. reflexivity.
  - rx_plus; [apply stopsAt_cons; reflexivity|]. rx.
    rx_plus; [apply Hstop1|]. rx. rx_plus; [apply Hstop2|].
    rewrite consumed_append. rx.
    rx_star; [apply stopsAt_cons; reflexivity|]. rx.
    rx_star; [apply stopsAt_cons; reflexivity|]. rewrite consumed_append. rx.
    rx_star; [apply stopsAt_cons; reflexivity|]. rx.
    rx_star; [eapply stopsAt_nonempty; [apply isWord_not_isSpace|assumption|exact Ht]|]. rx.
    rx_plus; [apply stopsAt_cons; reflexivity|].
    rewrite consumed_append. rx. reflexivity.
Qed.

Lemma test_asyncPattern sp rest :
  sp <> "" -> spaces sp -> test asyncPattern_ ("async" +:+ sp +:+ rest) = true.
Proof.
  intros Hne Hsp.
  destruct sp as [|c sp]; [congruence|]. unfold spaces in Hsp. simpl in Hsp.
  apply andb_prop in Hsp as [Hc _].
  unfold test, exec. rewrite !append_cons, append_nil_l.
  cbn. rewrite (isSpace_not_isWord c Hc). reflexivity.
Qed.

(** X25. A Python declaration [def name(params):], possibly after
    [async] and with a return annotation: the scope has the name, the
    parameters that [extractParameters] finds between the parentheses
    and the annotated return type, and it is asynchronous when [async]
    comes first. *)
Theorem python_scope_extraction l lineText a nm params ret :
  pythonDef a nm params ret (trim lineText) ->
  exists fs,
    functionAt python l lineText = Some fs
    /\ name fs = nm
    /\ parameters fs = extractParameters params
    /\ returnType fs = ret
    /\ startLine fs = l
    /\ (a <> "" -> isAsync fs = true).
Proof.
  intros H.
  inversion H as [sp1 sp2 ann rest Ha Hsp11 Hsp1 [Hne Hw] Hsp2 Hparams Hann Heq].
  apply exec_pythonDef in H as [whole H].
  unfold functionAt. cbn [functionPattern python asyncPattern]. rewrite H.
  eexists. split; [reflexivity|]. cbn [name parameters returnType startLine isAsync].
  split; [|split; [|split; [|split]]].
  - destruct nm; [congruence|reflexivity].
  - change (group [Some whole; Some nm; Some params; ret] 2) with (Some params).
    destruct params; reflexivity.
  - destruct ret; reflexivity.
  - reflexivity.
  - intros Ha'. destruct Ha as [|sp Hsp0 Hsp]; [congruence|].
    match goal with |- test _ ?s = true =>
      assert (exists r, s = "async" +:+ sp +:+ r) as [r ->]
    end; [|apply test_asyncPattern; assumption].
    rewrite <- Heq. eexists. rewrite ?append_assoc. reflexivity.
Qed.

(** X25 on an example: an asynchronous declaration with a return
    annotation. *)
Lemma python_scope_extraction_witness :
  exists fs,
    functionAt python 0 "  async def add(a, b=1) -> int:  " = Some fs
    /\ name fs = "add"
    /\ parameters fs = ["a"; "b"]
    /\ returnType fs = Some "int"
    /\ startLine fs = 0%nat
    /\ isAsync fs = true.
Proof.
  destruct (python_scope_extraction 0 "  async def add(a, b=1) -> int:  "
              "async " "add" "a, b=1" (Some "int")) as (fs & H & Hn & Hp & Hr & Hs & Ha).
  - apply (PythonDef "async " "add" "a, b=1" (Some "int") " " "" " -> int" "").
    + apply (Async " "); [discriminate|reflexivity].
    + discriminate.
    + reflexivity.
    + split; [discriminate|reflexivity].
    + reflexivity.
    + reflexivity.
    + apply (Annotation " " " " "int"); try reflexivity. split; [discriminate|reflexivity].
  - exists fs. split; [exact H|]. split; [exact Hn|]. split; [rewrite Hp; reflexivity|].
    split; [exact Hr|]. split; [exact Hs|]. apply Ha. discriminate.
Defined.

(** ** The estimate of the tokens of a text *)

Lemma estimateTokens_ceil (text : string) :
  TokenCounter.estimateTokens text = TokenCounter.ceilDiv (Z.of_nat (String.length text)) 4.
Proof. destruct text; reflexivity. Qed.

(** X26. The estimate of [estimateTokens] is the least number of
    tokens of four characters that hold the text; the estimate of two
    texts put together is at most the sum of their estimates, and at
    least each of them. *)
Theorem estimateTokens_bounds (a b : string) :
  (4 * (TokenCounter.estimateTokens a - 1) < Z.of_nat (String.length a)
   <= 4 * TokenCounter.estimateTokens a)%Z
  /\ (TokenCounter.estimateTokens (a +:+ b)
      <= TokenCounter.estimateTokens a + TokenCounter.estimateTokens b)%Z
  /\ (TokenCounter.estimateTokens a <= TokenCounter.estimateTokens (a +:+ b))%Z
  /\ (TokenCounter.estimateTokens b <= TokenCounter.estimateTokens (a +:+ b))%Z.
Proof.
  rewrite !estimateTokens_ceil, length_append, Nat2Z.inj_add. unfold TokenCounter.ceilDiv.
  generalize (Z.of_nat (String.length a)) (Z.of_nat (String.length b))
    (Nat2Z.is_nonneg (String.length a)) (Nat2Z.is_nonneg (String.length b)).
  intros x y Hx Hy.
  pose proof (Z.div_mod (- x) 4). pose proof (Z.mod_pos_bound (- x) 4).
  pose proof (Z.div_mod (- y) 4). pose proof (Z.mod_pos_bound (- y) 4).
  pose proof (Z.div_mod (- (x + y)) 4). pose proof (Z.mod_pos_bound (- (x + y)) 4).
  lia.
Qed.

(** ** The statistics across restarts *)

Lemma apply_saved c o :
  TokenCounter.globalState (TokenCounter.apply c o)
  = Some (TokenCounter.stats (TokenCounter.apply c o)).
Proof. destruct o; reflexivity. Qed.

Lemma run_saved ops : forall c,
  TokenCounter.globalState c = Some (TokenCounter.stats c) ->
  TokenCounter.globalState (TokenCounter.run ops c)
  = Some (TokenCounter.stats (TokenCounter.run ops c)).
Proof.
  induction ops as [|o ops IH]; intros c H; [exact H|].
  simpl. apply IH, apply_saved.
Qed.

(** X27. The statistics survive a restart: whatever was stored when
    the counter was created and whatever was added and reset since, a
    counter created from the stored state starts with the statistics
    that this one has. *)
Theorem statistics_survive_a_restart t0 stored ops t1 :
  let c := TokenCounter.run ops (TokenCounter.loadStats t0 stored) in
  TokenCounter.getStats (TokenCounter.loadStats t1 (TokenCounter.globalState c))
  = TokenCounter.getStats c.
Proof.
  intros c. subst c. rewrite run_saved; [reflexivity|].
  destruct stored; reflexivity.
Qed.
